(** * Balanced channel initiation (services/initiate_balanced_channel.js)

    A shallow embedding of the initiator side of the balanced channel
    open: the prompts and their validation, the [async/auto] task graph,
    the negotiation records and their digest, the acceptance wait with
    its two transports, the 2-of-2 funding script derivation and the
    assembly of the joint funding transaction.

    Conventions of the embedding.
    - The answer of the capacity prompt is a whole number or [NaN]
      ([number]); the numbers of the amounts are doubles ([Double.t]),
      given by their exact values, and every operation on them rounds
      to the nearest double.
    - Hex strings are [string]; buffers are [list byte].
    - Thrown errors and callback errors are values of [error]; a callback
      [cbk(err, res)] is a value of [result].
    - Listeners and services are explicit state; every call a handler
      makes is recorded, in program order, in a log of [effect]s.
    - Functions of other packages (SHA-256, bitcoinjs payments, the
      acceptance record parser, the key type table) are section
      variables. *)

From Stdlib Require Import List ZArith NArith QArith Qround Bool Lia.
From Stdlib Require Import String Ascii.
From Stdlib Require Import Permutation Sorted.
From Stdlib Require Import HexadecimalString.
From Stdlib Require SpecFloat.
From Stdlib.Strings Require Import Byte.
Import ListNotations.

Set Implicit Arguments.

(** ** JavaScript values used by the service *)

Module Js.

(** The answer of a numeric prompt. *)
Inductive number : Type :=
| NaN
| Int (z : Z).

Definition isNaN (n : number) : bool :=
  match n with NaN => true | Int _ => false end.

(** [n % d]: the remainder takes the sign of the dividend. *)
Definition rem (n : number) (d : Z) : number :=
  match n with NaN => NaN | Int z => Int (Z.rem z d) end.

(** Truthiness of a number: [NaN] and [0] are falsy. *)
Definition truthy (n : number) : bool :=
  match n with NaN => false | Int z => negb (z =? 0)%Z end.

(** Callback errors: [[code, message]] or [[code, message, {err}]]. *)
Inductive error : Type :=
| err2 (code : Z) (message : string)
| err3 (code : Z) (message : string) (err : error).

(** The two ways a node style callback is called. *)
Inductive result (A : Type) : Type :=
| Ok (res : A)
| Err (err : error).

Arguments Ok {A} res.
Arguments Err {A} err.

(** [Array.prototype.findIndex]: the first index passing the test,
    [-1] when there is none. *)
Fixpoint findIndexFrom {A : Type} (p : A -> bool) (l : list A) (i : Z) : Z :=
  match l with
  | [] => (-1)%Z
  | x :: l' => if p x then i else findIndexFrom p l' (i + 1)%Z
  end.

Definition findIndex {A : Type} (p : A -> bool) (l : list A) : Z :=
  findIndexFrom p l 0%Z.

(** [array[i]] for an index that [findIndex] returned. *)
Definition at_index {A : Type} (l : list A) (i : Z) : option A :=
  if (i <? 0)%Z then None else nth_error l (Z.to_nat i).

(** [Array.prototype.sort(compare)]: a stable sort; [x] is placed
    before [y] unless [compare(x, y) > 0]. *)
Section Sort.
Variable A : Type.
Variable compare : A -> A -> comparison.

Fixpoint insert (x : A) (l : list A) : list A :=
  match l with
  | [] => [x]
  | y :: l' =>
      match compare x y with
      | Gt => y :: insert x l'
      | _ => x :: y :: l'
      end
  end.

Fixpoint sort (l : list A) : list A :=
  match l with
  | [] => []
  | x :: l' => insert x (sort l')
  end.
End Sort.

(** [Number(s)] for the decimal numeral of the natural number [n]: the
    nearest double, ties to even, given by its exact value. *)
Definition toNumber (n : N) : N :=
  let bits := N.size n in
  if (bits <=? 53)%N then n
  else
    let s := (bits - 53)%N in
    let q := N.shiftr n s in
    let r := N.land n (N.ones s) in
    let half := N.shiftl 1 (s - 1) in
    let up := orb (half <? r)%N (andb (r =? half)%N (N.odd q)) in
    N.shiftl (if up then q + 1 else q)%N s.

End Js.

Import Js.

(** ** Double precision numbers *)

Module Double.

(** An IEEE 754 double by its exact value: [Int z] is the whole number
    [z] and [Frac m k], for an odd [m], the number [m / 2^k], which is
    not whole.  The sign of a zero is left out.  The operations round
    what they return, so that they return doubles only. *)
Inductive t : Type :=
| NaN
| Infinity (negative : bool)
| Int (z : Z)
| Frac (m : Z) (k : positive).

(** The number of times 2 divides [p]. *)
Fixpoint twos (p : positive) : N :=
  match p with
  | xO p' => N.succ (twos p')
  | _ => 0%N
  end.

(** [m / 2^k] in lowest terms. *)
Definition normal (m : Z) (k : N) : t :=
  match m with
  | Z0 => Int 0
  | Zpos p | Zneg p =>
      let j := N.min k (twos p) in
      let m' := Z.shiftr m (Z.of_N j) in
      match (k - j)%N with
      | N0 => Int m'
      | Npos k' => Frac m' k'
      end
  end.

(** The double nearest to [m / 2^k], ties to the even significand: 53
    bits are kept, fewer below [2^-1022], and what reaches [2^1024] is
    an infinity. *)
Definition round (m : Z) (k : N) : t :=
  let a := Z.abs m in
  let bits := (Z.log2 a + 1)%Z in
  let drop := Z.max (bits - 53) (Z.of_N k - 1074) in
  if (drop <=? 0)%Z then normal m k
  else
    let q := Z.shiftr a drop in
    let r := Z.land a (Z.ones drop) in
    let half := Z.shiftl 1 (drop - 1) in
    let up := orb (half <? r)%Z (andb (r =? half)%Z (Z.odd q)) in
    let q' := if up then (q + 1)%Z else q in
    if (Z.of_N k <=? drop)%Z then
      let z := Z.shiftl q' (drop - Z.of_N k) in
      if (2 ^ 1024 <=? z)%Z then Infinity (m <? 0)%Z
      else Int (Z.sgn m * z)
    else normal (Z.sgn m * q') (k - Z.to_N drop).

(** A number literal or a whole number read as a double. *)
Definition ofZ (z : Z) : t := round z 0.

Definition ofNumber (n : number) : t :=
  match n with
  | Js.NaN => NaN
  | Js.Int z => ofZ z
  end.

Definition isNaN (x : t) : bool :=
  match x with NaN => true | _ => false end.

Definition isZero (x : t) : bool :=
  match x with Int 0 => true | _ => false end.

Definition isNegative (x : t) : bool :=
  match x with
  | Infinity negative => negative
  | Int z | Frac z _ => (z <? 0)%Z
  | NaN => false
  end.

(** The finite numbers as [m / 2^k]. *)
Definition dyadic (x : t) : option (Z * N) :=
  match x with
  | Int z => Some (z, 0%N)
  | Frac m k => Some (m, Npos k)
  | _ => None
  end.

(** [x + y] *)
Definition add (x y : t) : t :=
  match x, y with
  | NaN, _ | _, NaN => NaN
  | Infinity a, Infinity b => if Bool.eqb a b then Infinity a else NaN
  | Infinity a, _ | _, Infinity a => Infinity a
  | _, _ =>
      match dyadic x, dyadic y with
      | Some (m1, k1), Some (m2, k2) =>
          let k := N.max k1 k2 in
          round (Z.shiftl m1 (Z.of_N (k - k1))
                 + Z.shiftl m2 (Z.of_N (k - k2))) k
      | _, _ => NaN
      end
  end.

(** [x * y] *)
Definition mul (x y : t) : t :=
  match x, y with
  | NaN, _ | _, NaN => NaN
  | Infinity a, z | z, Infinity a =>
      if isZero z then NaN else Infinity (xorb a (isNegative z))
  | _, _ =>
      match dyadic x, dyadic y with
      | Some (m1, k1), Some (m2, k2) => round (m1 * m2) (k1 + k2)
      | _, _ => NaN
      end
  end.

(** [x / 2] *)
Definition halve (x : t) : t :=
  match dyadic x with
  | Some (m, k) => round m (k + 1)
  | None => x
  end.

(** [Math.ceil(x)] *)
Definition ceil (x : t) : t :=
  match x with
  | Frac m k => Int (- ((- m) / 2 ^ Zpos k))
  | _ => x
  end.

(** [x === y] *)
Definition strictEq (x y : t) : bool :=
  match x, y with
  | Infinity a, Infinity b => Bool.eqb a b
  | Int a, Int b => (a =? b)%Z
  | Frac m k, Frac n j => andb (m =? n)%Z (k =? j)%positive
  | _, _ => false
  end.

(** The same number in the specification of binary64 of the Standard
    Library. *)
Definition toBinary64 (x : t) : SpecFloat.spec_float :=
  match x with
  | NaN => SpecFloat.S754_nan
  | Infinity negative => SpecFloat.S754_infinity negative
  | Int z => SpecFloat.binary_normalize 53 1024 z 0 false
  | Frac m k => SpecFloat.binary_normalize 53 1024 m (- Zpos k) false
  end.


End Double.

(** ** Hex strings and buffers *)

Definition hexDigit (n : N) : ascii :=
  match n with
  | 0 => "0" | 1 => "1" | 2 => "2" | 3 => "3" | 4 => "4" | 5 => "5"
  | 6 => "6" | 7 => "7" | 8 => "8" | 9 => "9" | 10 => "a" | 11 => "b"
  | 12 => "c" | 13 => "d" | 14 => "e" | _ => "f"
  end%N%char.

Definition hexValue (c : ascii) : option N :=
  (let n := N_of_ascii c in
  if andb (48 <=? n) (n <=? 57) then Some (n - 48)
  else if andb (97 <=? n) (n <=? 102) then Some (n - 87)
  else if andb (65 <=? n) (n <=? 70) then Some (n - 55)
  else None)%N.

Definition byteOfN (n : N) : byte :=
  match Byte.of_N n with Some b => b | None => x00 end.

Definition hexPair (b : byte) : ascii * ascii :=
  (hexDigit (Byte.to_N b / 16), hexDigit (Byte.to_N b mod 16)).

(** [Buffer.from(hex, 'hex')]: decodes two digits at a time and stops at
    the first pair that is not hex, or at a lone last digit. *)
Fixpoint hexAsBuffer (hex : string) : list byte :=
  match hex with
  | String a (String b rest) =>
      match hexValue a, hexValue b with
      | Some h, Some l => byteOfN (16 * h + l) :: hexAsBuffer rest
      | _, _ => []
      end
  | _ => []
  end.

(** [buffer.toString('hex')]: two lower case digits per byte. *)
Fixpoint bufferAsHex (buffer : list byte) : string :=
  match buffer with
  | [] => EmptyString
  | b :: rest =>
      String (fst (hexPair b)) (String (snd (hexPair b)) (bufferAsHex rest))
  end.

(** [Buffer.from(id, 'hex').reverse()] *)
Definition idAsHash (id : string) : list byte := rev (hexAsBuffer id).

(** [num.toString(16)] of a whole number. *)
Definition numAsHex (num : Z) : string :=
  match num with
  | Zneg p => String "-" (NilZero.string_of_uint (N.to_hex_uint (Npos p)))
  | _ => NilZero.string_of_uint (N.to_hex_uint (Z.to_N num))
  end.

Definition paddedHexNumber (n : string) : string :=
  if Nat.odd (String.length n) then String "0" n else n.

(** ** Amounts *)

Definition isNumber (n : number) : bool := negb (isNaN n).

Definition isOdd (n : number) : number := rem n 2.

(** [(capacity + (190 * rate)) / 2] *)
Definition fundingAmount (capacity rate : Double.t) : Double.t :=
  Double.halve (Double.add capacity (Double.mul (Double.ofZ 190) rate)).

(** [Math.ceil(190 / 2 * rate)] *)
Definition fundingFee (rate : Double.t) : Double.t :=
  Double.ceil (Double.mul (Double.halve (Double.ofZ 190)) rate).

(** [Math.ceil(capacity / 2)] *)
Definition giveTokens (capacity : Z) : Z :=
  Qceiling (inject_Z capacity / 2).

Definition notFoundIndex : Z := (-1)%Z.

Definition relockIntervalMs : Z := (1000 * 20)%Z.

(** ** The prompts *)

(** The callback given to [args.ask] by [askForCapacity].  An answer
    that passes [isNumber] is a whole number, which is what the tasks
    downstream receive. *)
Definition askForCapacity (capacity : number) : result Z :=
  if negb (isNumber capacity) then
    Err (err2 400 "ExpectedChannelCapacityAmountToRequestOpen")
  else if truthy (isOdd capacity) then
    Err (err2 400 "ExpectedEvenCapacityToSplitBalance")
  else
    match capacity with
    | Int c => Ok c
    | NaN => Err (err2 400 "ExpectedChannelCapacityAmountToRequestOpen")
    end.

(** The callback given to [args.ask] by [askForFeeRate]: any number
    but [NaN] is handed on. *)
Definition askForFeeRate (rate : Double.t) : result Double.t :=
  if Double.isNaN rate then
    Err (err2 400 "ExpectedFeeRatePerVirtualByteToProposeChannel")
  else Ok rate.

Definition bytes_eqb (a b : list byte) : bool :=
  if list_eq_dec Byte.byte_eq_dec a b then true else false.

(** ** Transit funding: the [askForFunding] task *)

Module Tx.

(** An output and an input of a bitcoinjs [Transaction]. *)
Record output : Type := { script : list byte; value : Z }.

Record input : Type := {
  hash : list byte;
  index : Z;
  sequence : Z;
  witness : list (list byte)
}.

Record transaction : Type := {
  version : Z;
  locktime : Z;
  ins : list input;
  outs : list output
}.

(** [new Transaction()] *)
Definition new : transaction :=
  {| version := 1; locktime := 0; ins := []; outs := [] |}.

(** An unsigned integer of 32 bits, and an amount that bitcoinjs takes
    for a number of satoshis: a whole number from 0 to [21 * 1e14]. *)
Definition isUInt32 (n : Z) : bool := andb (0 <=? n)%Z (n <? 2 ^ 32)%Z.

Definition isSatoshi (n : Z) : bool :=
  andb (0 <=? n)%Z (n <=? 21 * 10 ^ 14)%Z.

(** [tx.addInput(hash, index, sequence)].  bitcoinjs checks the
    arguments and throws ([None]) unless the hash has 32 bytes and the
    index and the sequence are unsigned integers of 32 bits. *)
Definition addInput (tx : transaction) (h : list byte) (i s : Z)
  : option transaction :=
  if andb (List.length h =? 32)%nat (andb (isUInt32 i) (isUInt32 s)) then
    Some {| version := version tx; locktime := locktime tx;
            ins := ins tx ++ [{| hash := h; index := i; sequence := s;
                                 witness := [] |}];
            outs := outs tx |}
  else None.

(** [tx.addOutput(script, value)].  bitcoinjs throws ([None]) unless
    the value is a number of satoshis. *)
Definition addOutput (tx : transaction) (s : list byte) (v : Z)
  : option transaction :=
  if isSatoshi v then
    Some {| version := version tx; locktime := locktime tx; ins := ins tx;
            outs := outs tx ++ [{| script := s; value := v |}] |}
  else None.

Fixpoint setAt (l : list input) (n : nat) (w : list (list byte))
  : option (list input) :=
  match l, n with
  | [], _ => None
  | i :: l', O =>
      Some ({| hash := hash i; index := index i; sequence := sequence i;
               witness := w |} :: l')
  | i :: l', S n' => option_map (cons i) (setAt l' n' w)
  end.

(** [tx.setWitness(vin, stack)]; there must be an input at [vin],
    otherwise the call throws ([None]). *)
Definition setWitness (tx : transaction) (vin : Z) (w : list (list byte))
  : option transaction :=
  if (vin <? 0)%Z then None
  else
    match setAt (ins tx) (Z.to_nat vin) w with
    | Some ins' =>
        Some {| version := version tx; locktime := locktime tx;
                ins := ins'; outs := outs tx |}
    | None => None
    end.

End Tx.

(** What the wallet hands back from [getFundedTransaction]. *)
Record funded : Type := {
  funded_id : string;
  funded_inputs : option (list (string * Z));
  funded_transaction : option string
}.


(** The call [maintainUtxoLocks({id, inputs, interval, lnd})]. *)
Record utxoLocks : Type := {
  locks_id : string;
  locks_inputs : list (string * Z);
  locks_interval : Z
}.

(** The result of the [askForFunding] task. *)
Record transit : Type := {
  tokens : Double.t;
  inputs : option (list (string * Z));
  transaction : string;
  transaction_id : string;
  transaction_vout : Z
}.

Section AskForFunding.

(** [Transaction.fromHex] of bitcoinjs-lib. *)
Variable fromHex : string -> Tx.transaction.

(** [toOutputScript(args.transit_address, network)] *)
Variable transitOutput : list byte.

Variable transit_address : string.


(** The callback of [getFundedTransaction]: the task result and the
    lock maintenance that was started, if any.  [!fund] holds of a
    missing and of an empty transaction; the output at the index that
    [findIndex] returned is always there. *)
Definition askForFunding (askForCapacity : Z) (askForFeeRate : Double.t)
           (reply : result funded) : result transit * option utxoLocks :=
  let tokens :=
    fundingAmount (Double.ofZ askForCapacity) askForFeeRate in
  match reply with
  | Err err => (Err err, None)
  | Ok res =>
      match funded_transaction res with
      | None =>
          (Err (err2 400 "ExpectedTransactionToInitiateBalancedOpen"), None)
      | Some fund =>
          if (String.length fund =? 0)%nat then
            (Err (err2 400 "ExpectedTransactionToInitiateBalancedOpen"),
             None)
          else
            let txVout :=
              findIndex (fun o => bytes_eqb (Tx.script o) transitOutput)
                        (Tx.outs (fromHex fund)) in
            if (txVout =? notFoundIndex)%Z then
              (Err (err2 400 "ExpectedInitTxOutputPayingToTransitAddress"),
               None)
            else
              match at_index (Tx.outs (fromHex fund)) txVout with
              | None =>
                  (Err (err2 400
                          "ExpectedInitTxOutputPayingToTransitAddress"),
                   None)
              | Some out =>
                  if negb (Double.strictEq (Double.ofZ (Tx.value out))
                                           tokens) then
                    (Err (err2 400
                            "UnexpectedFundingAmountPayingToTransitAddress"),
                     None)
                  else
                    (Ok {| tokens := tokens;
                           inputs := funded_inputs res;
                           transaction := fund;
                           transaction_id := funded_id res;
                           transaction_vout := txVout |},
                     match funded_inputs res with
                     | Some ins =>
                         Some {| locks_id := funded_id res;
                                 locks_inputs := ins;
                                 locks_interval := relockIntervalMs |}
                     | None => None
                     end)
              end
      end
  end.

End AskForFunding.

(** ** Negotiation records and their digest: the [messagesToPush] task *)

(** A record [{type, value}].  The type is a decimal numeral in the
    source, read back with [Number] and [BigInt]; it is kept here as the
    number it denotes.  The value is a hex string. *)
Record record : Type := { type : N; value : string }.

(** The table [balancedChannelKeyTypes] of [./service_key_types]. *)
Record keyTypes : Type := {
  accept_request : N;
  channel_capacity : N;
  funding_tx_fee_rate : N;
  multisig_public_key : N;
  transit_tx_id : N;
  transit_tx_vout : N
}.

Definition keySendPreimageType : N := 5482373484.

Definition largeNumberByteCount : nat := 8.

(** The bytes of [n], most significant first, on [count] bytes. *)
Fixpoint bigEndian (count : nat) (n : N) : list byte :=
  match count with
  | O => []
  | S count' => bigEndian count' (n / 256) ++ [byteOfN (n mod 256)]
  end.

(** [Buffer.alloc(8)] then [writeBigUInt64BE(BigInt(type))]; the write
    throws a range error ([None]) from [2^64] on. *)
Definition writeBigUInt64BE (n : N) : option (list byte) :=
  if (n <? 2 ^ 64)%N then Some (bigEndian largeNumberByteCount n) else None.

(** [(a, b) => Number(a.type) - Number(b.type)], by its sign. *)
Definition byType (a b : record) : comparison :=
  (toNumber (type a) ?= toNumber (type b))%N.

(** [Buffer.concat(messages.map(message => Buffer.concat([type, value])))] *)
Fixpoint encodeRecords (messages : list record) : option (list byte) :=
  match messages with
  | [] => Some []
  | message :: rest =>
      match writeBigUInt64BE (type message), encodeRecords rest with
      | Some t, Some bytes =>
          Some (t ++ hexAsBuffer (value message) ++ bytes)
      | _, _ => None
      end
  end.

(** The result of the [messagesToPush] task. *)
Record pushed : Type := {
  messages : list record;
  digest : string;
  id : string
}.

Section MessagesToPush.

(** [n => createHash('sha256').update(n).digest().toString('hex')] *)
Variable sha256 : list byte -> string.

Variable balancedChannelKeyTypes : keyTypes.

(** The sort and the digest of a list of records. *)
Definition digestOf (messages : list record) : option string :=
  option_map sha256 (encodeRecords (Js.sort byType messages)).

(** The six records of the request, in the order of the source. *)
Definition requestRecords (secret : string)
           (askForCapacity askForFeeRate : Z) (askForFunding : transit)
           (multiSigKey : string) : list record :=
  [ {| type := keySendPreimageType; value := secret |};
    {| type := channel_capacity balancedChannelKeyTypes;
       value := paddedHexNumber (numAsHex askForCapacity) |};
    {| type := funding_tx_fee_rate balancedChannelKeyTypes;
       value := paddedHexNumber (numAsHex askForFeeRate) |};
    {| type := multisig_public_key balancedChannelKeyTypes;
       value := multiSigKey |};
    {| type := transit_tx_id balancedChannelKeyTypes;
       value := transaction_id askForFunding |};
    {| type := transit_tx_vout balancedChannelKeyTypes;
       value :=
         paddedHexNumber (numAsHex (transaction_vout askForFunding)) |} ].

(** [secret] is the value of [makeHtlcPreimage()]. *)
Definition messagesToPush (secret : string)
           (askForCapacity askForFeeRate : Z) (askForFunding : transit)
           (multiSigKey : string) : option pushed :=
  let messages :=
    Js.sort byType
      (requestRecords secret askForCapacity askForFeeRate askForFunding
                      multiSigKey) in
  match encodeRecords messages with
  | Some bytes =>
      Some {| messages := messages;
              digest := sha256 bytes;
              id := sha256 (hexAsBuffer secret) |}
  | None => None
  end.

End MessagesToPush.

(** ** The acceptance of the peer *)

(** What [balancedOpenAcceptDetails] returns: the peer's keys, its
    signature and its outpoint. *)
Record acceptance : Type := {
  accept_multisig_public_key : string;
  accept_transit_public_key : string;
  accept_funding_signature : string;
  accept_transaction_id : string;
  accept_transaction_vout : Z
}.

(** ** The funding script: the [deriveFundingAddress] task *)

(** A bitcoinjs payment, reduced to the two fields that are read. *)
Record payment : Type := { hash : list byte; output : list byte }.

Record fundingAddress : Type := {
  address_hash : string;
  address_script : string
}.

Section DeriveFundingAddress.

(** [payments.p2ms({m, pubkeys})] and [payments.p2wsh({redeem})]. *)
Variable p2ms : nat -> list (list byte) -> payment.
Variable p2wsh : payment -> payment.

(** [publicKeys.sort()]: the default order, by code units. *)
Definition sortedKeys (publicKeys : list string) : list string :=
  Js.sort String.compare publicKeys.

Definition deriveFundingAddress (multiSigKey : string)
           (waitForAccept : acceptance) : fundingAddress :=
  let publicKeys :=
    [multiSigKey; accept_multisig_public_key waitForAccept] in
  let funding :=
    p2wsh (p2ms (List.length publicKeys)
                (map hexAsBuffer (sortedKeys publicKeys))) in
  {| address_hash := bufferAsHex (hash funding);
     address_script := bufferAsHex (output funding) |}.

End DeriveFundingAddress.

(** ** The joint transaction: the [halfSign] task *)

(** The sort of the inputs: [aHash.localeCompare(bHash) || a.index -
    b.index], by its sign.  Both strings are lower case hex of the same
    alphabet, which [localeCompare] orders as the code units do. *)
Definition byOutpoint (a b : Tx.input) : comparison :=
  match String.compare (bufferAsHex (Tx.hash a)) (bufferAsHex (Tx.hash b)) with
  | Eq => (Tx.index a ?= Tx.index b)%Z
  | c => c
  end.

(** [inputs.forEach(n => tx.addInput(n.hash, n.index, n.sequence))]:
    the first call that throws ends the task. *)
Definition addInputs (tx : Tx.transaction) (inputs : list Tx.input)
  : option Tx.transaction :=
  fold_left
    (fun tx n =>
       match tx with
       | Some tx => Tx.addInput tx (Tx.hash n) (Tx.index n) (Tx.sequence n)
       | None => None
       end)
    inputs (Some tx).

(** The body of [halfSign] for a list [utxos] of [(transaction_id,
    transaction_vout)]; [None] when [addInput], [setWitness] or
    [addOutput] throws. *)
Definition halfSignFrom (utxos : list (string * Z)) (askForCapacity : Z)
           (deriveFundingAddress : fundingAddress)
           (waitForAccept : acceptance) : option Tx.transaction :=
  let tx := Tx.new in
  let inputs :=
    map (fun utxo => {| Tx.hash := idAsHash (fst utxo);
                        Tx.index := snd utxo;
                        Tx.sequence := 0;
                        Tx.witness := [] |}) utxos in
  let inputs := Js.sort byOutpoint inputs in
  match addInputs tx inputs with
  | None => None
  | Some tx =>
      let partnersVin :=
        findIndex
          (fun input =>
             if negb (Tx.index input
                      =? accept_transaction_vout waitForAccept)%Z
             then false
             else bytes_eqb (Tx.hash input)
                            (idAsHash (accept_transaction_id waitForAccept)))
          (Tx.ins tx) in
      let partnerWitnessStack :=
        [accept_funding_signature waitForAccept;
         accept_transit_public_key waitForAccept] in
      match Tx.setWitness tx partnersVin
                          (map hexAsBuffer partnerWitnessStack) with
      | Some tx =>
          Tx.addOutput tx
                       (hexAsBuffer (address_script deriveFundingAddress))
                       askForCapacity
      | None => None
      end
  end.

(** [utxos = [askForFunding, waitForAccept]] *)
Definition halfSign (askForCapacity : Z) (askForFunding : transit)
           (deriveFundingAddress : fundingAddress)
           (waitForAccept : acceptance) : option Tx.transaction :=
  halfSignFrom
    [(transaction_id askForFunding, transaction_vout askForFunding);
     (accept_transaction_id waitForAccept,
      accept_transaction_vout waitForAccept)]
    askForCapacity deriveFundingAddress waitForAccept.

(** An outpoint that [addInput] takes: the id decodes to 32 bytes and
    the index is an unsigned integer of 32 bits. *)
Definition isOutpoint (id : string) (vout : Z) : bool :=
  andb (List.length (hexAsBuffer id) =? 32)%nat (Tx.isUInt32 vout).

(** ** The [p2pService] task *)

(** The peer request service handed to [waitForAccept]: the dummy
    [{request: () => {}, stop: () => {}}] or the service of
    [servicePeerRequests({lnd})]. *)
Inductive service : Type :=
| DummyService
| PeerRequests.

(** The callback of [sendMessageToPeer]. *)
Definition p2pService (err : option error) : result service :=
  match err with
  | Some _ => Ok DummyService
  | None => Ok PeerRequests
  end.

(** ** The [waitForAccept] task *)

Module Wait.

(** A request of the peer, as the peer request service hands it over. *)
Record peerRequest : Type := { from : string; records : list record }.

(** A payment of an invoice, and the invoice. *)
Record invoicePayment : Type := { payment_messages : list record }.

Record invoice : Type := {
  is_confirmed : bool;
  payments : list invoicePayment
}.

(** What the emitters deliver while the task waits. *)
Inductive event : Type :=
| PeerRequest (req : peerRequest)
| InvoiceError (err : error)
| InvoiceUpdated (updated : invoice).

(** The calls a handler makes, in program order. *)
Inductive effect : Type :=
| LogInfo (what : string)
| SubRemoveAllListeners
| P2pStop
| CancelHodlInvoice (id : string)
| ResSuccess
| ResFailure (err : error)
| Cbk (res : result acceptance).

(** The listeners that are registered, and what has been done so far. *)
Record state : Type := {
  sub_listening : bool;
  p2p_listening : bool;
  log : list effect
}.

Definition does (e : effect) (st : state) : state :=
  {| sub_listening := sub_listening st;
     p2p_listening := p2p_listening st;
     log := log st ++ [e] |}.

(** [sub.removeAllListeners()] *)
Definition removeAllListeners (st : state) : state :=
  {| sub_listening := false;
     p2p_listening := p2p_listening st;
     log := log st |}.

Section WaitForAccept.

Variable partner_public_key : string.

(** [createAcceptRequest.id]: the id of the invoice of the
    [createAcceptRequest] task. *)
Variable createAcceptRequest_id : string.

(** [balancedChannelKeyTypes.multisig_public_key] *)
Variable multiSigType : N.

(** [balancedOpenAcceptDetails({records})] of
    [./balanced_open_accept_details]: the details, or the message of
    the error it throws. *)
Variable balancedOpenAcceptDetails : list record -> string + acceptance.

(** The call [cbk(null, acceptance)].  The tasks that wait for the
    acceptance are run inside the call, before it returns:
    [Some message] when one of them throws an error with that message,
    which the call then throws. *)
Variable cbkThrows : acceptance -> option string.

Variable p2pService : service.

(** [p2pService.request({type}, handler)]: the dummy registers
    nothing. *)
Definition request (st : state) : state :=
  match p2pService with
  | DummyService => st
  | PeerRequests =>
      {| sub_listening := sub_listening st;
         p2p_listening := true;
         log := log st |}
  end.

(** [p2pService.stop({})]: the dummy does nothing. *)
Definition stop (st : state) : state :=
  match p2pService with
  | DummyService => st
  | PeerRequests =>
      {| sub_listening := sub_listening st;
         p2p_listening := false;
         log := log st |}
  end.

(** [req.records.find(n => !BigInt(n.type))] *)
Definition idRecordOf (req : peerRequest) : option record :=
  find (fun n => (type n =? 0)%N) (records req).

(** The handler given to [p2pService.request].  The parser, the
    answer to the peer and the task callback are called inside one
    [try]: what any of them throws is caught, the peer is told of the
    failure and the task callback is called with the error. *)
Definition onRequest (req : peerRequest) (st : state) : state :=
  if negb (from req =? partner_public_key)%string then st
  else
    match idRecordOf req with
    | None => st
    | Some idRecord =>
        if negb (value idRecord =? createAcceptRequest_id)%string then st
        else
          let st :=
    removeAllListeners (does SubRemoveAllListeners st) in
          let st := stop (does P2pStop st) in
          let st := does (CancelHodlInvoice (value idRecord)) st in
          let st :=
            does (LogInfo "received_balanced_channel_acceptance") st in
          match balancedOpenAcceptDetails (records req) with
          | inr acceptance =>
              let st := does ResSuccess st in
              let st := does (Cbk (Ok acceptance)) st in
              match cbkThrows acceptance with
              | None => st
              | Some message =>
                  let st := does (ResFailure (err2 503 message)) st in
                  does (Cbk (Err (err2 503 message))) st
              end
          | inl message =>
              let st := does (ResFailure (err2 503 message)) st in
              does (Cbk (Err (err2 503 message))) st
          end
    end.

(** [sub.on('error', ...)] *)
Definition onError (err : error) (st : state) : state :=
  let st :=
    removeAllListeners (does SubRemoveAllListeners st) in
  let st := stop (does P2pStop st) in
  does (Cbk (Err (err3 503 "UnexpectedErrorWaitingForChannelAccept" err)))
       st.

Definition hasMultiSig (payment : invoicePayment) : bool :=
  match find (fun n => (type n =? multiSigType)%N)
             (payment_messages payment) with
  | Some _ => true
  | None => false
  end.

(** [sub.on('invoice_updated', ...)].  The parser and the task
    callback are called inside one [try], whose [catch] calls the task
    callback with the error. *)
Definition onInvoiceUpdated (updated : invoice) (st : state) : state :=
  if negb (is_confirmed updated) then st
  else
    let st :=
      does (LogInfo "received_peer_balanced_channel_acceptance") st in
    let st :=
    removeAllListeners (does SubRemoveAllListeners st) in
    let st := stop (does P2pStop st) in
    match find hasMultiSig (payments updated) with
    | None =>
        does (Cbk (Err (err2 503 "ExpectedPaymentWithPeerChannelDetails")))
             st
    | Some acceptDetailsPayment =>
        match balancedOpenAcceptDetails
                (payment_messages acceptDetailsPayment) with
        | inr acceptance =>
            let st := does (Cbk (Ok acceptance)) st in
            match cbkThrows acceptance with
            | None => st
            | Some message => does (Cbk (Err (err2 503 message))) st
            end
        | inl message => does (Cbk (Err (err2 503 message))) st
        end
    end.

(** The task body: the invoice subscription and the registrations. *)
Definition start : state :=
  let st :=
    {| sub_listening := false;
       p2p_listening := false;
       log := [LogInfo "waiting_for_peer_balanced_channel_acceptance"] |} in
  let st := request st in
  {| sub_listening := true;
     p2p_listening := p2p_listening st;
     log := log st |}.

(** An emitter calls the handlers that are registered when the event
    is emitted. *)
Definition deliver (st : state) (ev : event) : state :=
  match ev with
  | PeerRequest req => if p2p_listening st then onRequest req st else st
  | InvoiceError err => if sub_listening st then onError err st else st
  | InvoiceUpdated updated =>
      if sub_listening st then onInvoiceUpdated updated st else st
  end.

Definition run (evs : list event) : state := fold_left deliver evs start.

(** The results the task callback was called with. *)
Fixpoint resolutions (l : list effect) : list (result acceptance) :=
  match l with
  | [] => []
  | Cbk res :: l' => res :: resolutions l'
  | _ :: l' => resolutions l'
  end.

(** An event that calls the task callback when it is handled. *)
Definition resolving (ev : event) : bool :=
  match ev with
  | PeerRequest req =>
      andb (from req =? partner_public_key)%string
           (match idRecordOf req with
            | Some idRecord =>
                (value idRecord =? createAcceptRequest_id)%string
            | None => false
            end)
  | InvoiceError _ => true
  | InvoiceUpdated updated => is_confirmed updated
  end.

(** The acceptance an event carries, when it carries a valid one. *)
Definition accepted (ev : event) : option acceptance :=
  match ev with
  | PeerRequest req =>
      if resolving ev then
        match balancedOpenAcceptDetails (records req) with
        | inr acceptance => Some acceptance
        | inl _ => None
        end
      else None
  | InvoiceError _ => None
  | InvoiceUpdated updated =>
      if is_confirmed updated then
        match find hasMultiSig (payments updated) with
        | Some payment =>
            match balancedOpenAcceptDetails (payment_messages payment) with
            | inr acceptance => Some acceptance
            | inl _ => None
            end
        | None => None
        end
      else None
  end.

Definition isPeerRequest (ev : event) : bool :=
  match ev with PeerRequest _ => true | _ => false end.

End WaitForAccept.

End Wait.

(** ** The task graph given to [asyncAuto] *)

Module Auto.

(** Every task with the tasks it waits for, in the order of the
    source. *)
Definition tasks : list (string * list string) :=
  [ ("validate", []);
    ("getChainFee", ["validate"]);
    ("getChannels", ["validate"]);
    ("getMultiSigKey", ["validate"]);
    ("connect", ["validate"]);
    ("getTransitKey", ["validate"]);
    ("probeForRouteToNode", ["validate"]);
    ("network", ["validate"]);
    ("confirmInboundChannel", ["getChannels"]);
    ("askForCapacity", ["connect"; "probeForRouteToNode"]);
    ("testOpenChannel", ["askForCapacity"; "connect"]);
    ("askForFeeRate", ["askForCapacity"; "getChainFee"]);
    ("askForFunding", ["askForCapacity"; "askForFeeRate"; "network"]);
    ("getRefundTransaction",
      ["askForCapacity"; "askForFunding"; "getTransitKey"]);
    ("messagesToPush",
      ["askForCapacity"; "askForFeeRate"; "askForFunding"; "getMultiSigKey"]);
    ("createAcceptRequest", ["messagesToPush"]);
    ("pushRequest",
      ["createAcceptRequest"; "getRefundTransaction"; "messagesToPush"]);
    ("p2pService", ["askForFunding"; "createAcceptRequest"]);
    ("waitForAccept",
      ["askForFunding"; "createAcceptRequest"; "p2pService"; "pushRequest"]);
    ("deriveFundingAddress", ["getMultiSigKey"; "waitForAccept"]);
    ("halfSign",
      ["askForCapacity"; "askForFunding"; "deriveFundingAddress";
       "waitForAccept"]);
    ("signChannelFunding",
      ["askForCapacity"; "askForFeeRate"; "askForFunding"; "halfSign";
       "network"; "waitForAccept"]);
    ("fullySignedFunding",
      ["askForCapacity"; "askForFunding"; "deriveFundingAddress";
       "getMultiSigKey"; "getTransitKey"; "halfSign"; "signChannelFunding"]);
    ("propose",
      ["askForCapacity"; "deriveFundingAddress"; "fullySignedFunding";
       "waitForAccept"]);
    ("initiated", ["askForFunding"; "fullySignedFunding"]) ]%string.

(** The tasks whose body calls the node or the peer (every call that is
    given [lnd]). *)
Definition networkCalls : list string :=
  [ "getChainFee"; "getChannels"; "getMultiSigKey"; "connect";
    "getTransitKey"; "probeForRouteToNode"; "testOpenChannel";
    "askForFunding"; "getRefundTransaction"; "createAcceptRequest";
    "pushRequest"; "p2pService"; "waitForAccept"; "signChannelFunding";
    "propose" ]%string.

(** The tasks whose body applies [giveTokens] to
    [results.askForCapacity], which they do as they start. *)
Definition giveTokensCalls : list string :=
  [ "testOpenChannel"; "signChannelFunding"; "propose" ]%string.

Definition inb (t : string) (l : list string) : bool :=
  existsb (String.eqb t) l.

Arguments inb : simpl never.

Definition lookup (t : string) : option (list string) :=
  option_map snd (find (fun entry => String.eqb t (fst entry)) tasks).

(** What comes back to a task: the answer to its prompt, or the error
    argument of the callback of the call it made. *)
Inductive reply : Type :=
| Answer (n : number)
| Outcome (err : option error).

Inductive event : Type :=
| Start (t : string)
| Return (t : string) (r : reply).

(** The bookkeeping of [asyncAuto]: the tasks that were run, the tasks
    whose result is stored, the tasks that called back with an error,
    the error handed to the final callback, [results.askForCapacity],
    and the arguments [giveTokens] was applied to. *)
Record state : Type := {
  started : list string;
  finished : list string;
  failed : list string;
  hasError : option error;
  capacity : option Z;
  gives : list (option Z)
}.

Definition initial : state :=
  {| started := []; finished := []; failed := []; hasError := None;
     capacity := None; gives := [] |}.

(** What a task calls back with, given what came back to it; [None]
    when the task cannot be given such a reply.  The result carries the
    capacity when the task is the capacity prompt. *)
Definition callback (t : string) (r : reply) : option (result (option Z)) :=
  if String.eqb t "askForCapacity" then
    match r with
    | Answer n =>
        Some match askForCapacity n with
             | Ok c => Ok (Some c)
             | Err e => Err e
             end
    | Outcome _ => None
    end
  else if String.eqb t "askForFeeRate" then
    match r with
    | Answer n =>
        Some match askForFeeRate (Double.ofNumber n) with
             | Ok _ => Ok None
             | Err e => Err e
             end
    | Outcome _ => None
    end
  else if String.eqb t "p2pService" then
    match r with
    | Outcome err =>
        Some match p2pService err with
             | Ok _ => Ok None
             | Err e => Err e
             end
    | Answer _ => None
    end
  else
    match r with
    | Outcome None => Some (Ok None)
    | Outcome (Some e) => Some (Err e)
    | Answer _ => None
    end.

(** A task is run once, when every task it waits for has stored its
    result and no task has failed. *)
Definition ready (s : state) (t : string) : bool :=
  match lookup t, hasError s with
  | Some deps, None =>
      andb (negb (inb t (started s)))
           (forallb (fun d => inb d (finished s)) deps)
  | _, _ => false
  end.

Definition running (s : state) (t : string) : bool :=
  andb (inb t (started s))
       (negb (orb (inb t (finished s)) (inb t (failed s)))).

Definition step (s : state) (ev : event) : option state :=
  match ev with
  | Start t =>
      if ready s t then
        Some {| started := started s ++ [t];
                finished := finished s;
                failed := failed s;
                hasError := hasError s;
                capacity := capacity s;
                gives := if inb t giveTokensCalls
                         then gives s ++ [capacity s]
                         else gives s |}
      else None
  | Return t r =>
      if running s t then
        match callback t r with
        | Some (Ok res) =>
            Some {| started := started s;
                    finished := finished s ++ [t];
                    failed := failed s;
                    hasError := hasError s;
                    capacity := match res with
                                | Some c => Some c
                                | None => capacity s
                                end;
                    gives := gives s |}
        | Some (Err e) =>
            Some {| started := started s;
                    finished := finished s;
                    failed := failed s ++ [t];
                    hasError := match hasError s with
                                | Some first => Some first
                                | None => Some e
                                end;
                    capacity := capacity s;
                    gives := gives s |}
        | None => None
        end
      else None
  end.

Fixpoint exec (s : state) (evs : list event) : option state :=
  match evs with
  | [] => Some s
  | ev :: evs' =>
      match step s ev with
      | Some s' => exec s' evs'
      | None => None
      end
  end.

Definition run (evs : list event) : option state := exec initial evs.

End Auto.

(** ** Vocabulary of the properties *)

(** *** The task graph *)

Import Auto.

(** [waitsFor t d]: [d] is listed among the dependencies of [t]. *)
Definition waitsFor (t d : string) : Prop :=
  exists deps, lookup t = Some deps /\ In d deps.

(** What holds of the bookkeeping in every run. *)
Record invariant (s : state) : Prop := {
  inv_deps :
    forall t d, In t (started s) -> waitsFor t d -> In d (finished s);
  inv_capacity : forall c, capacity s = Some c -> Z.even c = true;
  inv_stored :
    In "askForCapacity"%string (finished s) -> capacity s <> None;
  inv_gives :
    Forall (fun g => exists c, g = Some c /\ Z.even c = true) (gives s);
  inv_once : NoDup (started s)
}.

(** A run in which the capacity prompt is answered with an odd number. *)
Definition oddCapacityRun : list event :=
  [ Start "validate"; Return "validate" (Outcome None);
    Start "getChainFee"; Start "getChannels"; Start "getMultiSigKey";
    Start "connect"; Start "getTransitKey"; Start "probeForRouteToNode";
    Start "network"; Return "network" (Outcome None);
    Return "connect" (Outcome None);
    Return "probeForRouteToNode" (Outcome None);
    Start "askForCapacity";
    Return "askForCapacity" (Answer (Int 1000001)) ]%string.

(** A run that reaches the channel open test with an even capacity. *)
Definition evenCapacityRun : list event :=
  [ Start "validate"; Return "validate" (Outcome None);
    Start "getChainFee"; Start "getChannels"; Start "getMultiSigKey";
    Start "connect"; Start "getTransitKey"; Start "probeForRouteToNode";
    Start "network"; Return "network" (Outcome None);
    Return "connect" (Outcome None);
    Return "probeForRouteToNode" (Outcome None);
    Start "askForCapacity";
    Return "askForCapacity" (Answer (Int 2000000));
    Start "testOpenChannel" ]%string.

(** *** Transit funding: a sample wallet reply *)

(** A pay to witness public key hash script, for the transit address. *)
Definition sampleTransitOutput : list byte :=
  [x00; x14; x75; x1e; x76; xe8; x19; x91; x96; xd4; x54; x94; x1c; x45;
   xd1; xb3; xa3; x23; xf1; x43; x3b; xd6].

(** What the sample transaction decodes to: a change output and the
    output to the transit address. *)
Definition sampleFundedTx : Tx.transaction :=
  {| Tx.version := 2;
     Tx.locktime := 0;
     Tx.ins := [ {| Tx.hash := repeat x11 32; Tx.index := 1;
                    Tx.sequence := 0; Tx.witness := [] |} ];
     Tx.outs := [ {| Tx.script := [x00; x14] ++ repeat x22 20;
                     Tx.value := 48000 |};
                  {| Tx.script := sampleTransitOutput;
                     Tx.value := 1000950 |} ] |}.

Definition sampleFromHex (hex : string) : Tx.transaction := sampleFundedTx.

Definition sampleFunded : funded :=
  {| funded_id :=
       "3b1d5f0c2e4a69788796a5b4c3d2e1f00f1e2d3c4b5a69788796a5b4c3d2e1f0";
     funded_inputs := None;
     funded_transaction := Some "02000000"%string |}.

(** *** Amounts *)


(** Two numbers of the specification of binary64 are the same, up to
    the sign of a zero. *)
Definition sameBinary64 (a b : SpecFloat.spec_float) : bool :=
  match a, b with
  | SpecFloat.S754_nan, SpecFloat.S754_nan => true
  | SpecFloat.S754_zero _, SpecFloat.S754_zero _ => true
  | SpecFloat.S754_infinity s, SpecFloat.S754_infinity t => Bool.eqb s t
  | SpecFloat.S754_finite s m e, SpecFloat.S754_finite t n f =>
      andb (Bool.eqb s t) (andb (m =? n)%positive (e =? f)%Z)
  | _, _ => false
  end.

(** Doubles to compare the operations on: whole numbers and fractions,
    the numbers around [2^53], the greatest and the least double. *)
Definition sampleDoubles : list Double.t :=
  [ Double.Int 0; Double.Int (-3); Double.Int 95; Double.Int 190;
    Double.Int 2000000; Double.Int (2 ^ 53 - 1); Double.Int (2 ^ 54);
    Double.Int (- 2 ^ 60); Double.Int ((2 ^ 53 - 1) * 2 ^ 971);
    Double.Frac 1 1; Double.Frac (-7) 3;
    Double.Frac 2476979795053773 50; Double.Frac 7353533766565889 45;
    Double.Frac 3 1073; Double.Frac (2 ^ 53 - 1) 1074;
    Double.Infinity false; Double.Infinity true; Double.NaN ].

(** The double that the numeral [2.2] denotes. *)
Definition sampleFractionalRate : Double.t :=
  Double.Frac 2476979795053773 50.

(** *** The acceptance wait *)

(** Nothing is registered any more. *)
Definition quiet (st : Wait.state) : Prop :=
  Wait.sub_listening st = false /\ Wait.p2p_listening st = false.


(** The same, when the handler went on with the calls [after]. *)
Definition tornDownThen (st st' : Wait.state) (res : result acceptance)
           (after : list Wait.effect) : Prop :=
  quiet st' /\
  exists before between,
    Wait.log st' =
      Wait.log st ++ before ++
      Wait.SubRemoveAllListeners :: Wait.P2pStop :: between ++
      Wait.Cbk res :: after
    /\ Wait.resolutions before = [] /\ Wait.resolutions between = [].

(** What the [catch] of the handler of an event does with an error of
    that message: for a peer request the peer is told of the failure
    first. *)
Definition caught (ev : Wait.event) (message : string) : list Wait.effect :=
  match ev with
  | Wait.PeerRequest _ =>
      [Wait.ResFailure (err2 503 message);
       Wait.Cbk (Err (err2 503 message))]
  | _ => [Wait.Cbk (Err (err2 503 message))]
  end.

(** What a handler does after it has called back with [res]: nothing,
    unless [res] is an acceptance at which the callback throws. *)
Definition afterwards (cbkThrows : acceptance -> option string)
           (ev : Wait.event) (res : result acceptance) : list Wait.effect :=
  match res with
  | Ok acceptance =>
      match cbkThrows acceptance with
      | Some message => caught ev message
      | None => []
      end
  | Err _ => []
  end.

(** The calls of the task callback once a handler has called it: one
    call, that returned; or the acceptance, at which the callback
    threw, and then the error that the [catch] made of it. *)
Definition called (cbkThrows : acceptance -> option string)
           (l : list (result acceptance)) : Prop :=
  (exists res,
     l = [res] /\ forall a, res = Ok a -> cbkThrows a = None) \/
  (exists a m,
     l = [Ok a; Err (err2 503 m)] /\ cbkThrows a = Some m).

(** A task callback that throws, as it does when a task that waits for
    the acceptance throws. *)
Definition throws (acceptance : acceptance) : option string :=
  Some "Expected property pubkeys"%string.

(** A task callback that returns. *)
Definition returns (acceptance : acceptance) : option string := None.

(** The handler of the event is registered. *)
Definition heard (st : Wait.state) (ev : Wait.event) : bool :=
  match ev with
  | Wait.PeerRequest _ => Wait.p2p_listening st
  | _ => Wait.sub_listening st
  end.

(** The dummy service never has a handler. *)
Definition dummyIsDeaf (p2pService : service) (st : Wait.state) : Prop :=
  p2pService = DummyService -> Wait.p2p_listening st = false.

(** *** Sample negotiation data *)

Definition samplePartner : string :=
  "02c9d5a6e2f1b08d7a3e4c5b6a798877665544332211ffeeddccbbaa9988776655".

Definition sampleOwnKey : string :=
  "03a1b2c3d4e5f60718293a4b5c6d7e8f90a1b2c3d4e5f60718293a4b5c6d7e8f90".

(** The id of the acceptance invoice, and the digest of the request. *)
Definition sampleInvoiceId : string :=
  "a1a2a3a4a5a6a7a8a9aaabacadaeafb0b1b2b3b4b5b6b7b8b9babbbcbdbebfc0c1".

Definition sampleDigest : string :=
  "5f0e1d2c3b4a59687766554433221100ffeeddccbbaa99887766554433221100".

(** A key type table, for the examples. *)
Definition sampleKeyTypes : keyTypes :=
  {| accept_request := 80500;
     channel_capacity := 80501;
     funding_tx_fee_rate := 80503;
     multisig_public_key := 80505;
     transit_tx_id := 80507;
     transit_tx_vout := 80508 |}.

(** [parseInt(hex, 16)] of an even number of hex digits. *)
Definition parseHexNumber (hex : string) : Z :=
  fold_left (fun n b => (n * 256 + Z.of_N (Byte.to_N b))%Z)
            (hexAsBuffer hex) 0%Z.

Definition findValue (t : N) (records : list record) : option string :=
  option_map value (find (fun n => (type n =? t)%N) records).

(** A parser of acceptance records, for the examples: it reads the
    five values by type and throws when one is missing. *)
Definition sampleAcceptDetails (records : list record)
  : string + acceptance :=
  match findValue 80505 records, findValue 80506 records,
        findValue 80502 records, findValue 80507 records,
        findValue 80508 records with
  | Some key, Some transitKey, Some signature, Some txId, Some vout =>
      inr {| accept_multisig_public_key := key;
             accept_transit_public_key := transitKey;
             accept_funding_signature := signature;
             accept_transaction_id := txId;
             accept_transaction_vout := parseHexNumber vout |}
  | _, _, _, _, _ => inl "ExpectedAcceptDetailsRecords"%string
  end.

Definition sampleAcceptRecords : list record :=
  [ {| type := 80502;
       value := "3044022079be667ef9dcbbac55a06295ce870b07029bfcdb2dce28d9" |};
    {| type := 80505; value := samplePartner |};
    {| type := 80506;
       value :=
         "02f9308a019258c31049344f85f89d5229b531c845836f99b08601f113bce036f9"
    |};
    {| type := 80507;
       value :=
         "7d4e3c2b1a09f8e7d6c5b4a3928170615243342516070819a0b1c2d3e4f50617"
    |};
    {| type := 80508; value := "01" |} ].

Definition sampleAcceptance : acceptance :=
  {| accept_multisig_public_key := samplePartner;
     accept_transit_public_key :=
       "02f9308a019258c31049344f85f89d5229b531c845836f99b08601f113bce036f9";
     accept_funding_signature :=
       "3044022079be667ef9dcbbac55a06295ce870b07029bfcdb2dce28d9";
     accept_transaction_id :=
       "7d4e3c2b1a09f8e7d6c5b4a3928170615243342516070819a0b1c2d3e4f50617";
     accept_transaction_vout := 1 |}.

(** The peer accepts with a direct message. *)
Definition sampleRequest : Wait.peerRequest :=
  {| Wait.from := samplePartner;
     Wait.records :=
       {| type := 0; value := sampleInvoiceId |} :: sampleAcceptRecords |}.

(** The peer accepts by paying the invoice. *)
Definition sampleSettlement : Wait.invoice :=
  {| Wait.is_confirmed := true;
     Wait.payments := [ {| Wait.payment_messages := sampleAcceptRecords |} ]
  |}.

(** The invoice is paid by a payment that carries no key. *)
Definition sampleBareSettlement : Wait.invoice :=
  {| Wait.is_confirmed := true;
     Wait.payments :=
       [ {| Wait.payment_messages :=
              [ {| type := 34349334; value := "6f70656e" |} ] |} ] |}.

(** The claim that a direct message resolves the wait only when its
    record of type 0 is the digest of the request. *)
Definition resolvesOnlyOnDigest (partner id : string) (mst : N)
           (parser : list record -> string + acceptance) (digest : string)
  : Prop :=
  forall (st : Wait.state) (req : Wait.peerRequest),
    Wait.resolutions
      (Wait.log (Wait.deliver partner id mst parser returns PeerRequests st
                              (Wait.PeerRequest req)))
      <> Wait.resolutions (Wait.log st) ->
    Wait.from req = partner /\
    exists r, Wait.idRecordOf req = Some r /\ value r = digest.


(** A direct message of the partner whose record of type 0 is the
    digest of the request. *)
Definition sampleDigestRequest : Wait.peerRequest :=
  {| Wait.from := samplePartner;
     Wait.records :=
       {| type := 0; value := sampleDigest |} :: sampleAcceptRecords |}.

(** The events of the invoice subscription. *)
Definition ofInvoice (ev : Wait.event) : bool := negb (Wait.isPeerRequest ev).

(** *** Orders *)

(** [x] may come before [y] in a sorted array. *)
Definition notAfter {A : Type} (compare : A -> A -> comparison) (x y : A)
  : Prop :=
  compare x y <> Gt.

(** The number a record is sorted by. *)
Definition sortKey (m : record) : N := toNumber (type m).

(** [Buffer.compare]: byte by byte, a prefix first. *)
Fixpoint compareBytes (a b : list byte) : comparison :=
  match a, b with
  | [], [] => Eq
  | [], _ :: _ => Lt
  | _ :: _, [] => Gt
  | x :: a', y :: b' =>
      match (Byte.to_N x ?= Byte.to_N y)%N with
      | Eq => compareBytes a' b'
      | c => c
      end
  end.

(** The number that bytes spell, most significant first. *)
Definition fromBigEndian (bytes : list byte) : N :=
  fold_left (fun n b => (n * 256 + Byte.to_N b)%N) bytes 0%N.

(** What the claim puts under the digest for one record: the type on
    eight bytes, most significant first, and then the bytes of the
    value. *)
Definition encodes (message : record) (chunk : list byte) : Prop :=
  exists t,
    List.length t = 8%nat /\ fromBigEndian t = type message /\
    chunk = t ++ hexAsBuffer (value message).

(** A stand-in for SHA-256, for the examples: the hex of its input. *)
Definition sampleHash (bytes : list byte) : string := bufferAsHex bytes.

Definition sampleTransit : transit :=
  {| tokens := fundingAmount (Double.Int 2000000) (Double.Int 10);
     inputs := None;
     transaction := "02000000";
     transaction_id := funded_id sampleFunded;
     transaction_vout := 1 |}.

Definition sampleSecret : string :=
  "9f8e7d6c5b4a39281706f5e4d3c2b1a09f8e7d6c5b4a39281706f5e4d3c2b1a0".

(** The values of a hex digit. *)
Definition nibbles : list N := map N.of_nat (seq 0 16).

Definition sameComparison (c d : comparison) : bool :=
  match c, d with
  | Eq, Eq | Lt, Lt | Gt, Gt => true
  | _, _ => false
  end.

(** The funding script of the examples. *)
Definition sampleAddress : fundingAddress :=
  {| address_hash :=
       "c7a1f1a4d6b4c1802a59631966a18359de779e8a6a65973135b4c8dd2f2f2c43";
     address_script :=
       "0020c7a1f1a4d6b4c1802a59631966a18359de779e8a6a65973135b4c8dd2f2f2c43"
  |}.

(** The outpoints a transaction spends, as transaction ids and output
    indexes. *)
Definition spends (tx : Tx.transaction) : list (string * Z) :=
  map (fun input => (bufferAsHex (rev (Tx.hash input)), Tx.index input))
      (Tx.ins tx).


(** ** The arguments: the [validate], [network] and
    [confirmInboundChannel] tasks *)

Module Args.

(** The arguments of the service.  A function or an object is kept as
    whether it was given; a string is missing or given, possibly
    empty; an index is missing or given. *)
Record arguments : Type := {
  ask : bool;
  lnd : bool;
  logger : bool;
  multisig_key_index : option Z;
  network : option string;
  partner_public_key : option string;
  refund_address : option string;
  transit_address : option string;
  transit_key_index : option Z
}.

End Args.

(** [!!n] of a string that may be missing: it is there and not empty. *)
Definition given (n : option string) : bool :=
  match n with
  | None => false
  | Some s => negb (String.length s =? 0)%nat
  end.

(** A character of the class [[0-9A-F]], whatever its case. *)
Definition isHexChar (c : ascii) : bool :=
  match hexValue c with Some _ => true | None => false end.

Fixpoint allHex (s : string) : bool :=
  match s with
  | EmptyString => true
  | String c rest => andb (isHexChar c) (allHex rest)
  end.

(** [n => !!n && /^0[2-3][0-9A-F]{64}$/i.test(n)] *)
Definition isPublicKey (n : option string) : bool :=
  andb (given n)
       match n with
       | Some (String c0 (String c1 rest)) =>
           andb (Ascii.eqb c0 "0")
                (andb (orb (Ascii.eqb c1 "2") (Ascii.eqb c1 "3"))
                      (andb (String.length rest =? 64)%nat (allHex rest)))
       | _ => false
       end.

(** The [validate] task. *)
Definition validate (args : Args.arguments) : result unit :=
  if negb (Args.ask args) then
    Err (err2 400 "ExpectedAskFunctionToInitBalancedChannel")
  else if negb (Args.lnd args) then
    Err (err2 400 "ExpectedAuthenticatedLndToInitBalancedChannel")
  else if negb (Args.logger args) then
    Err (err2 400 "ExpectedWinstonLoggerToInitBalancedChannel")
  else if negb (given (Args.network args)) then
    Err (err2 400 "ExpectedNetworkNameToInitBalancedChannel")
  else
    match Args.multisig_key_index args with
    | None => Err (err2 400 "ExpectedMultiSigKeyIdToInitBalancedChannel")
    | Some _ =>
        if negb (isPublicKey (Args.partner_public_key args)) then
          Err (err2 400 "ExpectedPartnerPublicKeyToInitBalancedChannel")
        else if negb (given (Args.refund_address args)) then
          Err (err2 400 "ExpectedRefundAddressToInitBalancedChannel")
        else if negb (given (Args.transit_address args)) then
          Err (err2 400 "ExpectedTransitAddressToInitiateBalancedChannel")
        else
          match Args.transit_key_index args with
          | None => Err (err2 400 "ExpectedTransitKeyToInitiateBalancedChannel")
          | Some _ => Ok tt
          end
    end.

(** The networks of bitcoinjs-lib. *)
Inductive bitcoinNetwork : Type :=
| bitcoin
| regtest
| testnet.

Definition networkBitcoin : string := "btc".
Definition networkRegtest : string := "btcregtest".
Definition networkTestnet : string := "btctestnet".

(** The [network] task: the [switch] on [args.network]. *)
Definition networkOf (args : Args.arguments) : result bitcoinNetwork :=
  match Args.network args with
  | Some name =>
      if String.eqb name networkBitcoin then Ok bitcoin
      else if String.eqb name networkRegtest then Ok regtest
      else if String.eqb name networkTestnet then Ok testnet
      else Err (err2 400 "UnsupportedNetworkForInitiatingBalancedChannel")
  | None => Err (err2 400 "UnsupportedNetworkForInitiatingBalancedChannel")
  end.

(** A channel, reduced to the balance that is read. *)
Record channel : Type := { remote_balance : Z }.

(** [channels => !!channels.find(n => !!n.remote_balance)] *)
Definition hasInbound (channels : list channel) : bool :=
  match find (fun n => negb (remote_balance n =? 0)%Z) channels with
  | Some _ => true
  | None => false
  end.

(** The [confirmInboundChannel] task. *)
Definition confirmInboundChannel (channels : list channel) : result unit :=
  if negb (hasInbound channels) then
    Err (err2 400 "ExpectedInboundLiquidityOnExistingChannel")
  else Ok tt.

(** ** The route probes: the [probeForRouteToNode] and [pushRequest]
    tasks *)

Module Probe.

(** What a probe subscription emits.  A route is kept as its
    description.  The handlers of [probing] and [routing_failure] only
    log, after an asynchronous description of the route; they call
    nothing back and are left out of the log. *)
Inductive event : Type :=
| Error (err : error)
| ProbeSuccess (route : string)
| Probing (route : string)
| End
| RoutingFailure (reason : string).

(** The calls of the handlers, in program order. *)
Inductive effect : Type :=
| RemoveAllListeners
| LogInfo (what : string)
| PayViaRoutes (id : string) (routes : list string)
| Cbk (res : result unit).

Record state : Type := {
  listening : bool;
  log : list effect
}.

Definition start : state := {| listening := true; log := [] |}.

Definition does (e : effect) (st : state) : state :=
  {| listening := listening st; log := log st ++ [e] |}.

Definition removeAllListeners (st : state) : state :=
  {| listening := false; log := log st |}.

(** The handlers of [probeForRouteToNode]. *)
Definition onProbe (st : state) (ev : event) : state :=
  match ev with
  | Error err => does (Cbk (Err err)) st
  | ProbeSuccess _ =>
      let st := removeAllListeners (does RemoveAllListeners st) in
      does (Cbk (Ok tt)) st
  | End => does (Cbk (Err (err2 503 "FailedToFindRouteToNode"))) st
  | Probing _ => st
  | RoutingFailure _ => st
  end.

(** The handlers of [pushRequest]; on success the task callback is
    handed to [payViaRoutes]. *)
Definition onPush (id : string) (st : state) (ev : event) : state :=
  match ev with
  | Error err =>
      does (Cbk (Err (err3 503 "MessageDeliveryFailedToNode" err))) st
  | ProbeSuccess route =>
      let st := removeAllListeners (does RemoveAllListeners st) in
      let st := does (LogInfo "requesting_balanced_open_channel") st in
      does (PayViaRoutes id [route]) st
  | End =>
      does (Cbk (Err (err2 503
              "OpenBalancedChannelMessageDeliveryFailedToNode"))) st
  | Probing _ => st
  | RoutingFailure _ => st
  end.

(** An emitter calls the handlers that are registered. *)
Definition deliver (handler : state -> event -> state) (st : state)
           (ev : event) : state :=
  if listening st then handler st ev else st.

Definition runFrom (handler : state -> event -> state) (st : state)
           (evs : list event) : state :=
  fold_left (deliver handler) evs st.

(** The [probeForRouteToNode] task: the subscription, then the events. *)
Definition probeForRouteToNode (evs : list event) : state :=
  runFrom onProbe start evs.

(** The [pushRequest] task: the refund transaction is logged, then the
    subscription is made with the records. *)
Definition pushRequest (id : string) (evs : list event) : state :=
  runFrom (onPush id) (does (LogInfo "refund_transaction") start) evs.

Fixpoint callbacks (l : list effect) : list (result unit) :=
  match l with
  | [] => []
  | Cbk res :: l' => res :: callbacks l'
  | _ :: l' => callbacks l'
  end.

Fixpoint payments (l : list effect) : list (string * list string) :=
  match l with
  | [] => []
  | PayViaRoutes id routes :: l' => (id, routes) :: payments l'
  | _ :: l' => payments l'
  end.

(** The events that only report progress. *)
Definition progress (ev : event) : bool :=
  match ev with
  | Probing _ | RoutingFailure _ => true
  | _ => false
  end.

Definition isSuccess (ev : event) : bool :=
  match ev with ProbeSuccess _ => true | _ => false end.

End Probe.

(** [utf8 => Buffer.from(utf8).toString('hex')]; a string is kept as
    the bytes of its encoding. *)
Definition utf8AsHex (utf8 : string) : string :=
  bufferAsHex (list_byte_of_string utf8).

(** The records given to the probe of [pushRequest]. *)
Definition pushRequest_messages (types : keyTypes) (messagesToPush : pushed)
           (request : string) : list record :=
  messages messagesToPush ++
  [ {| type := accept_request types; value := utf8AsHex request |} ].

(** ** Signing and proposing: the [signChannelFunding],
    [fullySignedFunding], [propose] and [initiated] tasks *)

Definition multiSigKeyFamily : Z := 0.

Definition transitKeyFamily : Z := 805.

(** [Transaction.SIGHASH_ALL] and [Buffer.from([Transaction.SIGHASH_ALL])] *)
Definition SIGHASH_ALL : Z := 1.

Definition sigHashAll : list byte := [x01].

(** The index of the input that spends an outpoint:
    [tx.ins.findIndex(input => ...)], as [signChannelFunding] and
    [fullySignedFunding] look the transit input up. *)
Definition vinOf (tx : Tx.transaction) (id : string) (vout : Z) : Z :=
  findIndex
    (fun input =>
       if negb (Tx.index input =? vout)%Z then false
       else bytes_eqb (Tx.hash input) (idAsHash id))
    (Tx.ins tx).

(** The index of the output that pays the capacity to the funding
    script: [tx.outs.findIndex(({script, value}) => ...)]. *)
Definition voutOf (tx : Tx.transaction) (askForCapacity : Z)
           (deriveFundingAddress : fundingAddress) : Z :=
  findIndex
    (fun out =>
       if negb (Tx.value out =? askForCapacity)%Z then false
       else bytes_eqb (Tx.script out)
                      (hexAsBuffer (address_script deriveFundingAddress)))
    (Tx.outs tx).

Module Sign.

(** An input of the request to [signTransaction], and the request. *)
Record input : Type := {
  key_family : Z;
  key_index : Z;
  output_script : string;
  output_tokens : Double.t;
  sighash : Z;
  vin : Z;
  witness_script : string
}.

Record request : Type := {
  inputs : list input;
  transaction : string
}.

End Sign.

Module Signed.

(** The result of the [fullySignedFunding] task. *)
Record funding : Type := {
  transaction : string;
  transaction_id : string;
  transaction_vout : Z
}.

End Signed.

Module Propose.

(** The arguments of [proposeChannel]. *)
Record proposal : Type := {
  capacity : Z;
  give_tokens : Z;
  id : string;
  key_index : Z;
  partner_public_key : string;
  remote_key : string;
  transaction_id : string;
  transaction_vout : Z
}.

End Propose.

Module Initiated.

(** The result of the service. *)
Record opening : Type := {
  transaction_id : string;
  transaction_vout : Z;
  transactions : list string
}.

End Initiated.

Section Signing.

(** [tx.toHex()], [tx.getId()] and [Transaction.fromHex] of
    bitcoinjs-lib. *)
Variable toHex : Tx.transaction -> string.
Variable getId : Tx.transaction -> string.
Variable fromHex : string -> Tx.transaction.

(** [toOutputScript(args.transit_address, network)] and
    [p2pkh({hash: fromBech32(args.transit_address).data}).output] *)
Variable outputScript : list byte.
Variable witnessScript : list byte.

(** The arguments of [signTransaction]. *)
Definition signChannelFunding (transit_key_index askForCapacity : Z)
           (askForFeeRate : Double.t)
           (askForFunding : transit) (halfSign : Tx.transaction)
  : Sign.request :=
  let feeRate := askForFeeRate in
  let tx := halfSign in
  let fundingVin :=
    vinOf tx (transaction_id askForFunding)
          (transaction_vout askForFunding) in
  {| Sign.inputs :=
       [ {| Sign.key_family := transitKeyFamily;
            Sign.key_index := transit_key_index;
            Sign.output_script := bufferAsHex outputScript;
            Sign.output_tokens :=
              Double.add (Double.ofZ (giveTokens askForCapacity))
                         (fundingFee feeRate);
            Sign.sighash := SIGHASH_ALL;
            Sign.vin := fundingVin;
            Sign.witness_script := bufferAsHex witnessScript |} ];
     Sign.transaction := toHex tx |}.

(** The transaction of [halfSign] with the own witness set; [None]
    when there is no signature to take or [setWitness] throws. *)
Definition signFunding (askForFunding : transit) (transitKey : string)
           (halfSign : Tx.transaction) (signatures : list string)
  : option Tx.transaction :=
  let publicKey := hexAsBuffer transitKey in
  match signatures with
  | [] => None
  | signature :: _ =>
      let tx := halfSign in
      let fundingSignature := hexAsBuffer signature ++ sigHashAll in
      let fundingVin :=
        vinOf tx (transaction_id askForFunding)
              (transaction_vout askForFunding) in
      Tx.setWitness tx fundingVin [fundingSignature; publicKey]
  end.

(** The [fullySignedFunding] task. *)
Definition fullySignedFunding (askForCapacity : Z) (askForFunding : transit)
           (deriveFundingAddress : fundingAddress) (transitKey : string)
           (halfSign : Tx.transaction) (signatures : list string)
  : option Signed.funding :=
  match signFunding askForFunding transitKey halfSign signatures with
  | None => None
  | Some tx =>
      let txVout := voutOf tx askForCapacity deriveFundingAddress in
      Some {| Signed.transaction := toHex tx;
              Signed.transaction_id := getId tx;
              Signed.transaction_vout := txVout |}
  end.

(** The arguments that the [propose] task gives to [proposeChannel]. *)
Definition propose (multisig_key_index : Z) (partner_public_key : string)
           (askForCapacity : Z) (deriveFundingAddress : fundingAddress)
           (fullySigned : Signed.funding) (waitForAccept : acceptance)
  : Propose.proposal :=
  let tx := fromHex (Signed.transaction fullySigned) in
  let txVout := voutOf tx askForCapacity deriveFundingAddress in
  {| Propose.capacity := askForCapacity;
     Propose.give_tokens := giveTokens askForCapacity;
     Propose.id := address_hash deriveFundingAddress;
     Propose.key_index := multisig_key_index;
     Propose.partner_public_key := partner_public_key;
     Propose.remote_key := accept_multisig_public_key waitForAccept;
     Propose.transaction_id := getId tx;
     Propose.transaction_vout := txVout |}.

(** The [initiated] task. *)
Definition initiated (askForFunding : transit)
           (fullySigned : Signed.funding) : Initiated.opening :=
  let transactions :=
    [transaction askForFunding; Signed.transaction fullySigned] in
  {| Initiated.transaction_id := Signed.transaction_id fullySigned;
     Initiated.transaction_vout := Signed.transaction_vout fullySigned;
     Initiated.transactions := transactions |}.

End Signing.

(** The witness of each input of a transaction. *)
Definition witnesses (tx : Tx.transaction) : list (list (list byte)) :=
  map Tx.witness (Tx.ins tx).

(** The outpoint of a transaction id and an output index, as an input
    holds it. *)
Definition outpoint (id : string) (vout : Z) : list byte * Z :=
  (idAsHash id, vout).

(** ** The tasks a task waits for, directly or not *)

Fixpoint upstream (fuel : nat) (t : string) : list string :=
  match fuel with
  | O => []
  | S fuel' =>
      match Auto.lookup t with
      | Some deps => deps ++ flat_map (upstream fuel') deps
      | None => []
      end
  end.

(** ** Vocabulary of the further properties *)

(** A digit that [buffer.toString('hex')] writes. *)
Definition isLowerHexChar (c : ascii) : bool :=
  match hexValue c with
  | Some v => Ascii.eqb (hexDigit v) c
  | None => false
  end.

(** An even number of lower case hex digits. *)
Fixpoint isLowerHex (s : string) : bool :=
  match s with
  | EmptyString => true
  | String a (String b rest) =>
      andb (isLowerHexChar a) (andb (isLowerHexChar b) (isLowerHex rest))
  | String _ EmptyString => false
  end.

(** What a probe event that is no success makes the handlers of
    [probeForRouteToNode] call back with. *)
Definition probeFailure (ev : Probe.event) : list (result unit) :=
  match ev with
  | Probe.Error err => [Err err]
  | Probe.End => [Err (err2 503 "FailedToFindRouteToNode")]
  | _ => []
  end.

(** The same for the handlers of [pushRequest]. *)
Definition pushFailure (ev : Probe.event) : list (result unit) :=
  match ev with
  | Probe.Error err => [Err (err3 503 "MessageDeliveryFailedToNode" err)]
  | Probe.End =>
      [Err (err2 503 "OpenBalancedChannelMessageDeliveryFailedToNode")]
  | _ => []
  end.



(** Arguments that pass [validate]. *)
Definition sampleArgs : Args.arguments :=
  {| Args.ask := true;
     Args.lnd := true;
     Args.logger := true;
     Args.multisig_key_index := Some 7%Z;
     Args.network := Some "btcregtest"%string;
     Args.partner_public_key := Some samplePartner;
     Args.refund_address :=
       Some "bcrt1q6rhpng9evdsfnn833a4f4vej0asu6dk5srld6x"%string;
     Args.transit_address :=
       Some "bcrt1qw508d6qejxtdg4y5r3zarvary0c5xw7kygt080"%string;
     Args.transit_key_index := Some 3%Z |}.

(** A wallet transaction whose first output to the transit address pays
    too little, although a later one pays the amount. *)
Definition sampleSplitTx : Tx.transaction :=
  {| Tx.version := 2;
     Tx.locktime := 0;
     Tx.ins := [];
     Tx.outs := [ {| Tx.script := [x00; x14] ++ repeat x22 20;
                     Tx.value := 48000 |};
                  {| Tx.script := sampleTransitOutput; Tx.value := 950 |};
                  {| Tx.script := sampleTransitOutput;
                     Tx.value := 1000950 |} ] |}.

(** A direct message of the partner for this invoice that carries no
    acceptance records. *)
Definition sampleBareRequest : Wait.peerRequest :=
  {| Wait.from := samplePartner;
     Wait.records := [ {| type := 0; value := sampleInvoiceId |} ] |}.

(** An invoice paid three times: without a key, with a key and nothing
    else, with a whole acceptance. *)
Definition sampleMixedSettlement : Wait.invoice :=
  {| Wait.is_confirmed := true;
     Wait.payments :=
       Wait.payments sampleBareSettlement ++
       {| Wait.payment_messages :=
            [ {| type := 80505; value := samplePartner |} ] |}
       :: Wait.payments sampleSettlement |}.

(** A run that has come to ask the wallet for the funding while the
    channel open test is still out. *)
Definition fundingRun : list event :=
  evenCapacityRun ++
  [ Return "getChainFee" (Outcome None);
    Start "askForFeeRate";
    Return "askForFeeRate" (Answer (Int 10));
    Start "askForFunding" ]%string.

(** The input that spends an outpoint, with a witness. *)
Definition spending (id : string) (vout : Z) (witness : list (list byte))
  : Tx.input :=
  {| Tx.hash := idAsHash id;
     Tx.index := vout;
     Tx.sequence := 0;
     Tx.witness := witness |}.

(** The witness of the peer and the own witness. *)
Definition peerWitness (waitForAccept : acceptance) : list (list byte) :=
  [ hexAsBuffer (accept_funding_signature waitForAccept);
    hexAsBuffer (accept_transit_public_key waitForAccept) ].

Definition ownWitness (signature transitKey : string) : list (list byte) :=
  [ hexAsBuffer signature ++ [x01]; hexAsBuffer transitKey ].

(** The two inputs of the joint transaction in the order of [halfSign],
    the own input with a given witness and the input of the peer with
    the witness of the peer. *)
Definition jointInputs (askForFunding : transit) (waitForAccept : acceptance)
           (own : list (list byte)) : list Tx.input :=
  match byOutpoint
          (spending (transaction_id askForFunding)
                    (transaction_vout askForFunding) [])
          (spending (accept_transaction_id waitForAccept)
                    (accept_transaction_vout waitForAccept) []) with
  | Gt =>
      [ spending (accept_transaction_id waitForAccept)
                 (accept_transaction_vout waitForAccept)
                 (peerWitness waitForAccept);
        spending (transaction_id askForFunding)
                 (transaction_vout askForFunding) own ]
  | _ =>
      [ spending (transaction_id askForFunding)
                 (transaction_vout askForFunding) own;
        spending (accept_transaction_id waitForAccept)
                 (accept_transaction_vout waitForAccept)
                 (peerWitness waitForAccept) ]
  end.

(** The joint transaction with these inputs. *)
Definition jointTransaction (askForCapacity : Z) (askForFunding : transit)
           (deriveFundingAddress : fundingAddress) (waitForAccept : acceptance)
           (own : list (list byte)) : Tx.transaction :=
  {| Tx.version := 1;
     Tx.locktime := 0;
     Tx.ins := jointInputs askForFunding waitForAccept own;
     Tx.outs :=
       [ {| Tx.script := hexAsBuffer (address_script deriveFundingAddress);
            Tx.value := askForCapacity |} ] |}.

(** The input of a signing request. *)
Definition signedInput (request : Sign.request) : option Sign.input :=
  match Sign.inputs request with
  | [input] => Some input
  | _ => None
  end.

(** A stand-in for the serialization of bitcoinjs-lib, for the
    examples. *)
Definition sampleToHex (tx : Tx.transaction) : string := "02000000".

Definition sampleGetId (tx : Tx.transaction) : string :=
  "c3c0d80e239b738bc85d5fb53f258b001c61d949876e30244e4679772f7e356a".

Definition sampleSignature : string :=
  "30440220068b0a4f3e1d2c5b79a8f7e6d5c4b3a2918070615243342516070819".

(** The fully signed transaction of the examples, and a parser that
    returns it. *)
Definition sampleSigned : Tx.transaction :=
  jointTransaction 2000000 sampleTransit sampleAddress sampleAcceptance
                   (ownWitness sampleSignature sampleOwnKey).

Definition sampleFromSignedHex (hex : string) : Tx.transaction :=
  sampleSigned.

(** An acceptance that names the own transit outpoint. *)
Definition sampleEcho : acceptance :=
  {| accept_multisig_public_key := samplePartner;
     accept_transit_public_key :=
       accept_transit_public_key sampleAcceptance;
     accept_funding_signature := accept_funding_signature sampleAcceptance;
     accept_transaction_id := transaction_id sampleTransit;
     accept_transaction_vout := transaction_vout sampleTransit |}.

(** *** The funding script *)

(** The result of [deriveFundingAddress] for a payment. *)
Definition addressOf (funding : payment) : fundingAddress :=
  {| address_hash := bufferAsHex (hash funding);
     address_script := bufferAsHex (output funding) |}.

(** Two raw keys in the ascending order of their bytes. *)
Definition byteSorted (a b : list byte) : list (list byte) :=
  match compareBytes a b with
  | Gt => [b; a]
  | _ => [a; b]
  end.

(** The claim that the script is built from the two raw keys in the
    ascending order of their bytes, for keys that [isPublicKey]
    takes. *)
Definition scriptOfByteSortedKeys
           (p2ms : nat -> list (list byte) -> payment)
           (p2wsh : payment -> payment) : Prop :=
  forall (own : string) (waitForAccept : acceptance),
    isPublicKey (Some own) = true ->
    isPublicKey (Some (accept_multisig_public_key waitForAccept)) = true ->
    deriveFundingAddress p2ms p2wsh own waitForAccept
    = addressOf
        (p2wsh
           (p2ms 2%nat
                 (byteSorted
                    (hexAsBuffer own)
                    (hexAsBuffer
                       (accept_multisig_public_key waitForAccept))))).

(** Stand-ins for the bitcoinjs payments, for the examples: the script
    shows the keys in the order they were given. *)
Definition sampleP2ms (m : nat) (pubkeys : list (list byte)) : payment :=
  {| hash := []; output := List.concat pubkeys |}.

Definition sampleP2wsh (redeem : payment) : payment := redeem.

(** A peer that spells its key in upper case. *)
Definition sampleUpperCasePeer : acceptance :=
  {| accept_multisig_public_key :=
       "03B2C3D4E5F60718293A4B5C6D7E8F90A1B2C3D4E5F60718293A4B5C6D7E8F90A1";
     accept_transit_public_key :=
       accept_transit_public_key sampleAcceptance;
     accept_funding_signature := accept_funding_signature sampleAcceptance;
     accept_transaction_id := accept_transaction_id sampleAcceptance;
     accept_transaction_vout := accept_transaction_vout sampleAcceptance |}.
(** * Properties *)

Unset Implicit Arguments.

(** ** The prompts and the amounts *)

Lemma rem2_even (z : Z) : Z.rem z 2 = 0%Z <-> Z.even z = true.
Proof.
  rewrite Z.rem_mod_eq_0 by lia.
  rewrite Z.even_spec.
  split.
  - intros H; exists (z / 2)%Z.
    pose proof (Z.div_mod z 2); lia.
  - intros [m ->]; rewrite Z.mul_comm; apply Z.mod_mul; lia.
Qed.

Lemma askForCapacity_odd (k : Z) :
  askForCapacity (Int (2 * k + 1)) =
  Err (err2 400 "ExpectedEvenCapacityToSplitBalance").
Proof.
  unfold askForCapacity, isNumber, isOdd, rem, truthy; cbn [isNaN negb].
  destruct (Z.eqb_spec (Z.rem (2 * k + 1) 2) 0) as [E | _]; [| reflexivity].
  apply rem2_even in E.
  rewrite Z.add_comm, Z.even_add_mul_2 in E; discriminate.
Qed.

Lemma askForCapacity_Ok (n : number) (c : Z) :
  askForCapacity n = Ok c -> n = Int c /\ Z.even c = true.
Proof.
  unfold askForCapacity, isNumber, isOdd, rem, truthy.
  destruct n as [| z]; cbn [isNaN negb]; [discriminate |].
  destruct (Z.eqb_spec (Z.rem z 2) 0) as [E | E]; cbn [negb];
    [| discriminate].
  intros H; injection H as <-; split; [reflexivity |].
  now apply rem2_even.
Qed.

Lemma askForCapacity_even (k : Z) : askForCapacity (Int (2 * k)) = Ok (2 * k)%Z.
Proof.
  unfold askForCapacity, isNumber, isOdd, rem, truthy; cbn [isNaN negb].
  destruct (Z.eqb_spec (Z.rem (2 * k) 2) 0) as [E | E]; [reflexivity |].
  exfalso; apply E, rem2_even.
  rewrite Z.even_mul; reflexivity.
Qed.

Lemma giveTokens_double (k : Z) : giveTokens (2 * k) = k.
Proof.
  unfold giveTokens.
  rewrite <- (Qceiling_Z k) at 2.
  apply Qceiling_comp.
  rewrite inject_Z_mult; field.
Qed.

Lemma even_double (c : Z) : Z.even c = true -> c = (2 * (c / 2))%Z.
Proof.
  intros E; apply Z.even_spec in E; destruct E as [m ->].
  rewrite Z.mul_comm, Z.div_mul by lia; lia.
Qed.

(** *** Whole numbers in double precision *)

Lemma bits_53 (z : Z) :
  (Z.abs z < 2 ^ 53)%Z -> (Z.log2 (Z.abs z) + 1 <= 53)%Z.
Proof.
  intros B; destruct (Z.eq_dec (Z.abs z) 0) as [-> | N]; [cbn; lia |].
  assert (P : (0 < Z.abs z)%Z) by lia.
  apply (Z.log2_lt_pow2 _ 53 P) in B; lia.
Qed.

Lemma normal_whole (z : Z) : Double.normal z 0 = Double.Int z.
Proof.
  destruct z as [| p | p]; [reflexivity | |];
    unfold Double.normal; rewrite N.min_0_l; reflexivity.
Qed.

(** A whole number below [2^53] is a double. *)
Lemma round_whole (z : Z) :
  (Z.abs z < 2 ^ 53)%Z -> Double.round z 0 = Double.Int z.
Proof.
  intros B; apply bits_53 in B; unfold Double.round.
  destruct (Z.leb_spec (Z.max (Z.log2 (Z.abs z) + 1 - 53) (Z.of_N 0 - 1074))
                       0) as [_ | G]; [apply normal_whole |].
  exfalso; cbn in G; lia.
Qed.

Lemma normal_half (w : Z) : Double.normal (2 * w) 1 = Double.Int w.
Proof.
  destruct w as [| p | p]; [reflexivity | |];
    cbn [Z.mul Pos.mul]; unfold Double.normal; cbn [Double.twos];
    rewrite N.min_l by lia; reflexivity.
Qed.

(** Half of an even whole number below [2^53] is exact. *)
Lemma round_half (w : Z) :
  (Z.abs (2 * w) < 2 ^ 53)%Z -> Double.round (2 * w) 1 = Double.Int w.
Proof.
  intros B; apply bits_53 in B; unfold Double.round.
  destruct (Z.leb_spec
              (Z.max (Z.log2 (Z.abs (2 * w)) + 1 - 53) (Z.of_N 1 - 1074))
              0) as [_ | G]; [apply normal_half |].
  exfalso; change (Z.of_N 1) with 1%Z in G; lia.
Qed.

Lemma add_whole (a b : Z) :
  (Z.abs (a + b) < 2 ^ 53)%Z ->
  Double.add (Double.Int a) (Double.Int b) = Double.Int (a + b).
Proof.
  intros B; unfold Double.add, Double.dyadic; cbn [N.max N.sub N.compare].
  rewrite !Z.shiftl_0_r; now apply round_whole.
Qed.

Lemma mul_whole (a b : Z) :
  (Z.abs (a * b) < 2 ^ 53)%Z ->
  Double.mul (Double.Int a) (Double.Int b) = Double.Int (a * b).
Proof.
  intros B; unfold Double.mul, Double.dyadic; cbn [N.add].
  now apply round_whole.
Qed.

Lemma halve_whole (w : Z) :
  (Z.abs (2 * w) < 2 ^ 53)%Z ->
  Double.halve (Double.Int (2 * w)) = Double.Int w.
Proof.
  intros B; unfold Double.halve, Double.dyadic; cbn [N.add].
  now apply round_half.
Qed.

(** On the sample numbers the sum, the product and the half are those
    of the specification of binary64 of the Standard Library. *)
Lemma double_is_binary64 :
  forallb (fun p =>
             sameBinary64
               (SpecFloat.SFadd 53 1024 (Double.toBinary64 (fst p))
                                (Double.toBinary64 (snd p)))
               (Double.toBinary64 (Double.add (fst p) (snd p))))
          (list_prod sampleDoubles sampleDoubles) = true /\
  forallb (fun p =>
             sameBinary64
               (SpecFloat.SFmul 53 1024 (Double.toBinary64 (fst p))
                                (Double.toBinary64 (snd p)))
               (Double.toBinary64 (Double.mul (fst p) (snd p))))
          (list_prod sampleDoubles sampleDoubles) = true /\
  forallb (fun x =>
             sameBinary64
               (SpecFloat.SFdiv 53 1024 (Double.toBinary64 x)
                                (Double.toBinary64 (Double.Int 2)))
               (Double.toBinary64 (Double.halve x)))
          sampleDoubles = true.
Proof. repeat split; vm_compute; reflexivity. Qed.

(** For an even capacity and a whole rate the amount asked of the
    wallet is exact as long as [|capacity| + 190 * |rate|] stays below
    [2^53]. *)
Lemma fundingAmount_whole (k rate : Z) :
  (Z.abs (2 * k) + 190 * Z.abs rate < 2 ^ 53)%Z ->
  fundingAmount (Double.ofZ (2 * k)) (Double.Int rate)
  = Double.Int (k + 95 * rate).
Proof.
  intros B; unfold fundingAmount, Double.ofZ.
  rewrite (round_whole 190) by (cbn; lia).
  rewrite (round_whole (2 * k)) by lia.
  rewrite mul_whole by lia.
  rewrite add_whole by lia.
  replace (2 * k + 190 * rate)%Z with (2 * (k + 95 * rate))%Z by lia.
  apply halve_whole; lia.
Qed.

Lemma fundingFee_whole (rate : Z) :
  (95 * Z.abs rate < 2 ^ 53)%Z ->
  fundingFee (Double.Int rate) = Double.Int (95 * rate).
Proof.
  intros B; unfold fundingFee.
  change (Double.halve (Double.ofZ 190)) with (Double.Int 95).
  rewrite mul_whole by lia; reflexivity.
Qed.

(** What is signed for the transit input, [giveTokens(capacity) +
    fundingFee(rate)], is the amount the transit output was funded
    with, for a whole rate in that range. *)
Lemma signed_amount_is_funding_amount (k rate : Z) :
  (Z.abs (2 * k) + 190 * Z.abs rate < 2 ^ 53)%Z ->
  Double.add (Double.ofZ (giveTokens (2 * k))) (fundingFee (Double.Int rate))
  = fundingAmount (Double.ofZ (2 * k)) (Double.Int rate).
Proof.
  intros B.
  rewrite giveTokens_double, fundingAmount_whole by assumption.
  rewrite fundingFee_whole by lia.
  unfold Double.ofZ; rewrite round_whole by lia.
  apply add_whole; lia.
Qed.

(** ** The task graph *)

Lemma inb_In (t : string) (l : list string) : inb t l = true <-> In t l.
Proof.
  unfold inb; rewrite existsb_exists; split.
  - intros [x [Hx E]]; apply String.eqb_eq in E; now subst.
  - intros H; exists t; split; [assumption | apply String.eqb_refl].
Qed.


Lemma exec_app (s : state) (a b : list event) :
  exec s (a ++ b) =
  match exec s a with Some s' => exec s' b | None => None end.
Proof.
  revert s; induction a as [| ev a IH]; intros s; cbn; [reflexivity |].
  destruct (step s ev); [apply IH | reflexivity].
Qed.

Lemma callback_capacity (t : string) (r : reply) (c : Z) :
  callback t r = Some (Ok (Some c)) ->
  t = "askForCapacity"%string /\
  exists n, r = Answer n /\ askForCapacity n = Ok c.
Proof.
  unfold callback.
  destruct (String.eqb_spec t "askForCapacity") as [-> | _].
  - destruct r as [n | e]; [| discriminate].
    destruct (askForCapacity n) as [c' |] eqn:E; [| discriminate].
    intros H; injection H as <-; split; [reflexivity |].
    exists n; split; [reflexivity | assumption].
  - destruct (String.eqb t "askForFeeRate").
    + destruct r as [n | e]; [| discriminate].
      destruct (askForFeeRate (Double.ofNumber n)); discriminate.
    + destruct (String.eqb t "p2pService").
      * destruct r as [n | [e |]]; discriminate.
      * destruct r as [n | [e |]]; discriminate.
Qed.

Lemma callback_askForCapacity (r : reply) (res : option Z) :
  callback "askForCapacity" r = Some (Ok res) -> exists c, res = Some c.
Proof.
  unfold callback; cbn [String.eqb Ascii.eqb Bool.eqb].
  destruct r as [n | e]; [| discriminate].
  destruct (askForCapacity n) as [c |]; [| discriminate].
  intros H; injection H as <-; now exists c.
Qed.


Lemma invariant_initial : invariant initial.
Proof.
  split; cbn; try contradiction; try discriminate; constructor.
Qed.

Lemma ready_deps (s : state) (t d : string) :
  ready s t = true -> waitsFor t d -> In d (finished s).
Proof.
  unfold ready; intros R [deps [L I]]; rewrite L in R.
  destruct (hasError s); [discriminate |].
  apply andb_prop in R; destruct R as [_ R].
  rewrite forallb_forall in R; apply inb_In, R, I.
Qed.

Lemma giveTokensCalls_wait (t : string) :
  In t giveTokensCalls -> waitsFor t "askForCapacity".
Proof.
  intros [<- | [<- | [<- | []]]]; eexists; (split; [reflexivity |]);
    cbn; auto.
Qed.

Lemma invariant_step (s s' : state) (ev : event) :
  invariant s -> step s ev = Some s' -> invariant s'.
Proof.
  intros [Hd Hc Hs Hg Hn]; destruct ev as [t | t r]; cbn [step].
  - destruct (ready s t) eqn:R; [| discriminate].
    intros H; injection H as <-; split;
      cbn [started finished failed hasError capacity gives].
    + intros t' d I W; apply in_app_or in I; destruct I as [I | [<- | []]].
      * now apply Hd with t'.
      * now apply ready_deps with t.
    + assumption.
    + assumption.
    + destruct (inb t giveTokensCalls) eqn:G; [| assumption].
      apply Forall_app; split; [assumption |].
      constructor; [| constructor].
      apply inb_In, giveTokensCalls_wait in G.
      pose proof (ready_deps _ _ _ R G) as F.
      destruct (capacity s) as [c |] eqn:C; [| now apply Hs in F].
      exists c; split; [reflexivity | now apply Hc].
    + unfold ready in R; destruct (lookup t); [| discriminate].
      destruct (hasError s); [discriminate |].
      apply andb_prop in R; destruct R as [R _].
      apply NoDup_app; repeat split;
        [assumption | constructor; [intros [] | constructor] |].
      intros x I [<- | []]. apply inb_In in I.
      rewrite I in R; discriminate.
  - destruct (running s t); [| discriminate].
    destruct (callback t r) as [[res | e] |] eqn:C; [| | discriminate].
    + intros H; injection H as <-; split;
      cbn [started finished failed hasError capacity gives].
      * intros t' d I W; apply in_or_app; left; now apply Hd with t'.
      * destruct res as [c |]; [| assumption].
        intros c' H; injection H as <-.
        apply callback_capacity in C; destruct C as [_ [n [_ A]]].
        now apply askForCapacity_Ok in A.
      * intros I; destruct res as [c |]; [discriminate |].
        apply in_app_or in I; destruct I as [I | [-> | []]];
          [now apply Hs |].
        apply callback_askForCapacity in C; destruct C; discriminate.
      * assumption.
      * assumption.
    + intros H; injection H as <-; split;
        cbn [started finished failed hasError capacity gives]; assumption.
Qed.

Lemma invariant_exec (evs : list event) (s s' : state) :
  invariant s -> exec s evs = Some s' -> invariant s'.
Proof.
  revert s; induction evs as [| ev evs IH]; intros s I; cbn.
  - intros H; injection H as <-; assumption.
  - destruct (step s ev) as [s1 |] eqn:E; [| discriminate].
    apply IH; now apply invariant_step with s ev.
Qed.

Lemma invariant_run (evs : list event) (s : state) :
  run evs = Some s -> invariant s.
Proof. apply invariant_exec, invariant_initial. Qed.

Lemma ready_no_error (s : state) (t : string) :
  ready s t = true -> hasError s = None.
Proof.
  unfold ready; destruct (lookup t); [| discriminate].
  destruct (hasError s); [discriminate | reflexivity].
Qed.

(** Once a task has failed no task is run any more, and the error that
    goes to the final callback is the first one. *)
Lemma exec_failed (evs : list event) (s s' : state) :
  hasError s <> None -> exec s evs = Some s' ->
  started s' = started s /\ hasError s' = hasError s.
Proof.
  revert s; induction evs as [| ev evs IH]; intros s F; cbn.
  - intros H; injection H as <-; split; reflexivity.
  - destruct (step s ev) as [s1 |] eqn:E; [| discriminate].
    intros H.
    assert (started s1 = started s /\ hasError s1 = hasError s) as [S1 E1].
    { destruct ev as [t | t r]; cbn [step] in E.
      - destruct (ready s t) eqn:R; [| discriminate].
        apply ready_no_error in R; contradiction.
      - destruct (running s t); [| discriminate].
        destruct (callback t r) as [[res | e] |]; [| | discriminate];
          injection E as <-; cbn [started hasError];
          (split; [reflexivity |]); [reflexivity |].
        destruct (hasError s); [reflexivity | contradiction]. }
    destruct (IH s1) as [S2 E2]; [congruence | assumption |].
    split; congruence.
Qed.

Lemma running_started (s : state) (t : string) :
  running s t = true -> In t (started s) /\ ~ In t (finished s).
Proof.
  unfold running; intros H; apply andb_prop in H; destruct H as [S N].
  apply inb_In in S; split; [assumption |].
  intros F; apply inb_In in F; rewrite F in N; discriminate.
Qed.



(** C6. For an even capacity [2 * k] the prompt hands on [2 * k] and
    [giveTokens (2 * k)] is [k]; and in every run of the task graph
    each argument [giveTokens] is applied to is a stored capacity that
    is even, so that its result is half of it: the tasks that apply
    [giveTokens] wait for [askForCapacity], which stores no odd
    capacity. *)
Theorem giveTokens_halves_even_capacity (k : Z) (evs : list event)
        (s : state) :
  run evs = Some s ->
  askForCapacity (Int (2 * k)) = Ok (2 * k)%Z /\
  giveTokens (2 * k) = k /\
  (forall t, In t giveTokensCalls -> waitsFor t "askForCapacity") /\
  Forall (fun g => exists c : Z,
              g = Some c /\ Z.even c = true /\ giveTokens c = (c / 2)%Z)
         (gives s).
Proof.
  intros R; split; [apply askForCapacity_even |].
  split; [apply giveTokens_double |].
  split; [apply giveTokensCalls_wait |].
  apply invariant_run in R; destruct R as [_ _ _ G _].
  apply Forall_impl with (2 := G).
  intros g [c [-> E]]; exists c; split; [reflexivity |].
  split; [assumption |].
  rewrite (even_double c E) at 1; apply giveTokens_double.
Qed.

Lemma giveTokens_halves_even_capacity_witness :
  run evenCapacityRun =
  Some {| started := [ "validate"; "getChainFee"; "getChannels";
                       "getMultiSigKey"; "connect"; "getTransitKey";
                       "probeForRouteToNode"; "network"; "askForCapacity";
                       "testOpenChannel" ]%string;
          finished := [ "validate"; "network"; "connect";
                        "probeForRouteToNode"; "askForCapacity" ]%string;
          failed := [];
          hasError := None;
          capacity := Some 2000000%Z;
          gives := [Some 2000000%Z] |} /\
  giveTokens (2 * 1000000) = 1000000%Z /\
  Forall (fun g => exists c : Z,
              g = Some c /\ Z.even c = true /\ giveTokens c = (c / 2)%Z)
         [Some 2000000%Z].
Proof.
  assert (run evenCapacityRun =
          Some {| started := [ "validate"; "getChainFee"; "getChannels";
                       "getMultiSigKey"; "connect"; "getTransitKey";
                       "probeForRouteToNode"; "network"; "askForCapacity";
                       "testOpenChannel" ]%string;
          finished := [ "validate"; "network"; "connect";
                        "probeForRouteToNode"; "askForCapacity" ]%string;
          failed := [];
          hasError := None;
          capacity := Some 2000000%Z;
          gives := [Some 2000000%Z] |}) as R by (vm_compute; reflexivity).
  split; [exact R |].
  destruct (giveTokens_halves_even_capacity 1000000 _ _ R) as [_ [G [_ F]]].
  split; [exact G | exact F].
Defined.

Lemma step_finished (s s' : state) (ev : event) (t : string) :
  step s ev = Some s' -> In t (finished s) -> In t (finished s').
Proof.
  destruct ev as [t' | t' r]; cbn [step].
  - destruct (ready s t'); [| discriminate].
    intros H; injection H as <-; trivial.
  - destruct (running s t'); [| discriminate].
    destruct (callback t' r) as [[res | e] |]; [| | discriminate];
      intros H; injection H as <-; cbn [finished]; [| trivial].
    intros I; apply in_or_app; now left.
Qed.

Lemma exec_finished (evs : list event) (s s' : state) (t : string) :
  exec s evs = Some s' -> In t (finished s) -> In t (finished s').
Proof.
  revert s; induction evs as [| ev evs IH]; intros s; cbn.
  - intros H; injection H as <-; trivial.
  - destruct (step s ev) as [s1 |] eqn:E; [| discriminate].
    intros H I; apply (IH s1 H); now apply step_finished with s ev.
Qed.

(** C8, as the code has it. When the capacity prompt is answered with an
    odd number the task fails: the run has an error, which is
    [ExpectedEvenCapacityToSplitBalance] unless another task had failed
    before; no funding is asked of the wallet and no task that waits
    for the capacity is ever run; the peer connection and the route
    probe, on the other hand, are complete by then, since the prompt
    waits for them. *)
Theorem odd_capacity_stops_the_run (k : Z) (pre post : list event)
        (s : state) :
  run (pre ++ Return "askForCapacity" (Answer (Int (2 * k + 1))) :: post)
    = Some s ->
  hasError s <> None /\
  (forall s0, run pre = Some s0 -> hasError s0 = None ->
     hasError s = Some (err2 400 "ExpectedEvenCapacityToSplitBalance")) /\
  ~ In "askForFunding"%string (started s) /\
  (forall t, waitsFor t "askForCapacity" -> ~ In t (started s)) /\
  In "connect"%string (finished s) /\
  In "probeForRouteToNode"%string (finished s).
Proof.
  unfold run; rewrite exec_app.
  destruct (exec initial pre) as [s0 |] eqn:P; [| discriminate].
  pose proof (invariant_run _ _ P) as [Hd _ _ _ _].
  cbn [exec step].
  destruct (running s0 "askForCapacity") eqn:R; [| discriminate].
  apply running_started in R; destruct R as [S NF].
  unfold callback; cbn [String.eqb Ascii.eqb Bool.eqb].
  rewrite askForCapacity_odd.
  set (s1 := {| started := started s0; finished := finished s0;
                failed := failed s0 ++ ["askForCapacity"%string];
                hasError := _; capacity := capacity s0;
                gives := gives s0 |}).
  intros E.
  assert (F1 : hasError s1 <> None)
    by (cbn; destruct (hasError s0); discriminate).
  destruct (exec_failed _ _ _ F1 E) as [ES EE].
  assert (W : forall t, waitsFor t "askForCapacity" -> ~ In t (started s)).
  { intros t Wt I; rewrite ES in I; apply NF, Hd with t; assumption. }
  assert (D : forall d, waitsFor "askForCapacity" d -> In d (finished s)).
  { intros d Wd; apply (exec_finished _ _ _ _ E); cbn [finished s1].
    now apply Hd with "askForCapacity"%string. }
  split; [congruence |].
  split.
  { intros s0' H N; injection H as <-.
    rewrite EE; cbn; rewrite N; reflexivity. }
  split; [apply W; eexists; split; [reflexivity | cbn; auto] |].
  split; [exact W |].
  split; apply D; eexists; (split; [reflexivity | cbn; auto]).
Qed.

Lemma odd_capacity_stops_the_run_witness :
  run (removelast oddCapacityRun ++
       Return "askForCapacity" (Answer (Int (2 * 500000 + 1))) :: []) =
  Some {| started := [ "validate"; "getChainFee"; "getChannels";
                       "getMultiSigKey"; "connect"; "getTransitKey";
                       "probeForRouteToNode"; "network";
                       "askForCapacity" ]%string;
          finished := [ "validate"; "network"; "connect";
                        "probeForRouteToNode" ]%string;
          failed := [ "askForCapacity"%string ];
          hasError :=
            Some (err2 400 "ExpectedEvenCapacityToSplitBalance");
          capacity := None;
          gives := [] |} /\
  hasError {| started := [ "validate"; "getChainFee"; "getChannels";
                       "getMultiSigKey"; "connect"; "getTransitKey";
                       "probeForRouteToNode"; "network";
                       "askForCapacity" ]%string;
          finished := [ "validate"; "network"; "connect";
                        "probeForRouteToNode" ]%string;
          failed := [ "askForCapacity"%string ];
          hasError :=
            Some (err2 400 "ExpectedEvenCapacityToSplitBalance");
          capacity := None;
          gives := [] |} <> None.
Proof.
  assert (run (removelast oddCapacityRun ++
       Return "askForCapacity" (Answer (Int (2 * 500000 + 1))) :: []) =
  Some {| started := [ "validate"; "getChainFee"; "getChannels";
                       "getMultiSigKey"; "connect"; "getTransitKey";
                       "probeForRouteToNode"; "network";
                       "askForCapacity" ]%string;
          finished := [ "validate"; "network"; "connect";
                        "probeForRouteToNode" ]%string;
          failed := [ "askForCapacity"%string ];
          hasError :=
            Some (err2 400 "ExpectedEvenCapacityToSplitBalance");
          capacity := None;
          gives := [] |}) as R by (vm_compute; reflexivity).
  split; [exact R |].
  exact (proj1 (odd_capacity_stops_the_run 500000 _ _ _ R)).
Defined.

(** C8, as the claim has it: at the end of [oddCapacityRun], where the
    prompt was answered with 1000001, tasks that call the node and the
    peer have been run; the failure does not come before every network
    call. *)
Lemma odd_capacity_after_network_calls :
  ~ (forall s, run oddCapacityRun = Some s ->
       hasError s = Some (err2 400 "ExpectedEvenCapacityToSplitBalance") /\
       forall t, In t (started s) -> ~ In t networkCalls).
Proof.
  intros H.
  assert (R : run oddCapacityRun =
    Some {| started := [ "validate"; "getChainFee"; "getChannels";
                         "getMultiSigKey"; "connect"; "getTransitKey";
                         "probeForRouteToNode"; "network";
                         "askForCapacity" ]%string;
            finished := [ "validate"; "network"; "connect";
                          "probeForRouteToNode" ]%string;
            failed := [ "askForCapacity"%string ];
            hasError :=
              Some (err2 400 "ExpectedEvenCapacityToSplitBalance");
            capacity := None;
            gives := [] |}) by (vm_compute; reflexivity).
  destruct (H _ R) as [_ N].
  apply (N "connect"%string).
  - cbn [started]; do 4 right; left; reflexivity.
  - unfold networkCalls; do 3 right; left; reflexivity.
Qed.

(** ** Transit funding *)

Lemma bytes_eqb_eq (a b : list byte) : bytes_eqb a b = true <-> a = b.
Proof.
  unfold bytes_eqb; destruct (list_eq_dec byte_eq_dec a b); split;
    congruence.
Qed.

Lemma findIndexFrom_found {A : Type} (p : A -> bool) (l : list A) (k i : Z) :
  (0 <= k)%Z -> findIndexFrom p l k = i -> i <> (-1)%Z ->
  (k <= i)%Z /\
  exists x, nth_error l (Z.to_nat (i - k)) = Some x /\ p x = true.
Proof.
  revert k; induction l as [| y l IH]; intros k K; cbn [findIndexFrom].
  - intros <- N; contradiction.
  - destruct (p y) eqn:P.
    + intros <- _; split; [lia |].
      exists y; rewrite Z.sub_diag; split; [reflexivity | assumption].
    + intros E N; destruct (IH (k + 1)%Z ltac:(lia) E N) as [L [x [X Px]]].
      split; [lia |].
      exists x; split; [| assumption].
      replace (Z.to_nat (i - k)) with (S (Z.to_nat (i - (k + 1)))) by lia.
      exact X.
Qed.

Lemma findIndex_found {A : Type} (p : A -> bool) (l : list A) (x : A) :
  findIndex p l <> (-1)%Z -> at_index l (findIndex p l) = Some x ->
  In x l /\ p x = true.
Proof.
  unfold findIndex, at_index; intros N.
  destruct (findIndexFrom_found p l 0 _ ltac:(lia) eq_refl N)
    as [L [y [Y Py]]].
  destruct (Z.ltb_spec (findIndexFrom p l 0) 0) as [C | _]; [lia |].
  rewrite Z.sub_0_r in Y; rewrite Y.
  intros H; injection H as <-; split; [| assumption].
  now apply nth_error_In with (Z.to_nat (findIndexFrom p l 0)).
Qed.

Lemma strictEq_eq (x y : Double.t) : Double.strictEq x y = true -> x = y.
Proof.
  destruct x as [| a | a | m k], y as [| b | b | n j]; cbn;
    try discriminate.
  - intros E; apply Bool.eqb_prop in E; now subst.
  - intros E; apply Z.eqb_eq in E; now subst.
  - intros E; apply andb_prop in E; destruct E as [E1 E2].
    apply Z.eqb_eq in E1; apply Pos.eqb_eq in E2; now subst.
Qed.




(** ** The acceptance wait *)

Section WaitFacts.

Variable partner_public_key : string.
Variable createAcceptRequest_id : string.
Variable multiSigType : N.
Variable balancedOpenAcceptDetails : list record -> string + acceptance.
Variable cbkThrows : acceptance -> option string.
Variable p2pService : service.

Local Abbreviation deliver :=
  (Wait.deliver partner_public_key createAcceptRequest_id multiSigType
                balancedOpenAcceptDetails cbkThrows p2pService).
Local Abbreviation run :=
  (Wait.run partner_public_key createAcceptRequest_id multiSigType
            balancedOpenAcceptDetails cbkThrows p2pService).
Local Abbreviation resolving :=
  (Wait.resolving partner_public_key createAcceptRequest_id).
Local Abbreviation accepted :=
  (Wait.accepted partner_public_key createAcceptRequest_id multiSigType
                 balancedOpenAcceptDetails).
Local Abbreviation start := (Wait.start p2pService).

Lemma resolutions_app (a b : list Wait.effect) :
  Wait.resolutions (a ++ b) = Wait.resolutions a ++ Wait.resolutions b.
Proof.
  induction a as [| e a IH]; cbn; [reflexivity |].
  destruct e; cbn; congruence.
Qed.

Lemma deliver_quiet (st : Wait.state) (ev : Wait.event) :
  quiet st -> deliver st ev = st.
Proof.
  intros [S P]; destruct ev; cbn; rewrite ?S, ?P; reflexivity.
Qed.

Lemma deliver_ignored (st : Wait.state) (ev : Wait.event) :
  resolving ev = false -> deliver st ev = st.
Proof.
  destruct ev as [req | err | updated]; cbn.
  - intros R; destruct (Wait.p2p_listening st); [| reflexivity].
    unfold Wait.onRequest.
    destruct (Wait.from req =? partner_public_key)%string; cbn in *;
      [| reflexivity].
    destruct (Wait.idRecordOf req) as [r |]; [| reflexivity].
    rewrite R; reflexivity.
  - discriminate.
  - intros R; destruct (Wait.sub_listening st); [| reflexivity].
    unfold Wait.onInvoiceUpdated; rewrite R; reflexivity.
Qed.

Lemma deliver_unheard (st : Wait.state) (ev : Wait.event) :
  heard st ev = false -> deliver st ev = st.
Proof. destruct ev; cbn; intros ->; reflexivity. Qed.

(** The two calls every resolving handler makes first. *)
Lemma teardown_quiet (st : Wait.state) :
  dummyIsDeaf p2pService st ->
  quiet (Wait.stop p2pService
           (Wait.does Wait.P2pStop
              (Wait.removeAllListeners
                 (Wait.does Wait.SubRemoveAllListeners st)))) /\
  Wait.log (Wait.stop p2pService
              (Wait.does Wait.P2pStop
                 (Wait.removeAllListeners
                    (Wait.does Wait.SubRemoveAllListeners st))))
  = Wait.log st ++ [Wait.SubRemoveAllListeners; Wait.P2pStop].
Proof.
  unfold dummyIsDeaf, Wait.stop, quiet; intros D.
  destruct p2pService; cbn; rewrite <- app_assoc; auto.
Qed.

Lemma does_quiet (e : Wait.effect) (st : Wait.state) :
  quiet st -> quiet (Wait.does e st).
Proof. intros Q; exact Q. Qed.

(** A handler that runs on an event that resolves tears the listeners
    down and then calls back; with the acceptance, when the event
    carries a valid one.  When the callback throws at the acceptance
    the handler goes on as its [catch] says. *)
Lemma deliver_resolved (st : Wait.state) (ev : Wait.event) :
  dummyIsDeaf p2pService st -> heard st ev = true -> resolving ev = true ->
  exists res,
    tornDownThen st (deliver st ev) res (afterwards cbkThrows ev res) /\
    (forall a, accepted ev = Some a -> res = Ok a).
Proof.
  intros D H R.
  pose proof (teardown_quiet st D) as [Q L].
  destruct ev as [req | err | updated]; cbn in H; cbn [Wait.deliver];
    rewrite H.
  - cbn in R; apply andb_prop in R; destruct R as [F I].
    unfold Wait.accepted; cbn [Wait.resolving]; rewrite F.
    unfold Wait.onRequest; rewrite F; cbn [negb].
    destruct (Wait.idRecordOf req) as [r |]; [| discriminate].
    rewrite I; cbn [negb andb].
    destruct (balancedOpenAcceptDetails (Wait.records req)) as [m | a].
    + exists (Err (err2 503 m)); split; [| discriminate].
      split; [exact Q |].
      exists [], [Wait.CancelHodlInvoice (value r);
                  Wait.LogInfo "received_balanced_channel_acceptance";
                  Wait.ResFailure (err2 503 m)].
      cbn; rewrite L; cbn; rewrite <- !app_assoc; auto.
    + exists (Ok a); split; [| intros a' E; congruence].
      cbn [afterwards caught].
      destruct (cbkThrows a) as [m |]; (split; [exact Q |]);
      exists [], [Wait.CancelHodlInvoice (value r);
                  Wait.LogInfo "received_balanced_channel_acceptance";
                  Wait.ResSuccess];
      cbn; rewrite L; cbn; rewrite <- !app_assoc; auto.
  - exists (Err (err3 503 "UnexpectedErrorWaitingForChannelAccept" err)).
    split; [| discriminate].
    split; [exact Q |].
    exists [], []; cbn; rewrite L; cbn; rewrite <- !app_assoc; auto.
  - cbn in R; unfold Wait.accepted, Wait.onInvoiceUpdated; rewrite R.
    cbn [negb].
    set (st1 := Wait.does _ st).
    assert (D1 : dummyIsDeaf p2pService st1) by exact D.
    pose proof (teardown_quiet st1 D1) as [Q1 L1].
    assert (T : forall res,
      tornDownThen st
        (Wait.does (Wait.Cbk res)
           (Wait.stop p2pService
              (Wait.does Wait.P2pStop
                 (Wait.removeAllListeners
                    (Wait.does Wait.SubRemoveAllListeners st1)))))
        res []).
    { intros res; split; [exact Q1 |].
      exists [Wait.LogInfo "received_peer_balanced_channel_acceptance"], [].
      cbn; rewrite L1; cbn; rewrite <- !app_assoc; auto. }
    destruct (find _ (Wait.payments updated)) as [p |].
    + destruct (balancedOpenAcceptDetails (Wait.payment_messages p))
        as [m | a].
      * exists (Err (err2 503 m)); split; [apply T | discriminate].
      * exists (Ok a); split; [| intros a' E; congruence].
        cbn [afterwards caught].
        destruct (cbkThrows a) as [m |]; [| apply T].
        split; [exact Q1 |].
        exists [Wait.LogInfo "received_peer_balanced_channel_acceptance"],
               [].
        cbn; rewrite L1; cbn; rewrite <- !app_assoc; auto.
    + exists (Err (err2 503 "ExpectedPaymentWithPeerChannelDetails")).
      split; [apply T | discriminate].
Qed.

Lemma start_deaf : dummyIsDeaf p2pService start.
Proof. unfold dummyIsDeaf; intros ->; reflexivity. Qed.

Lemma tornDown_deaf (st st' : Wait.state) (res : result acceptance)
      (after : list Wait.effect) :
  tornDownThen st st' res after -> dummyIsDeaf p2pService st'.
Proof. intros [[_ P] _] _; exact P. Qed.

Lemma tornDown_resolutions (st st' : Wait.state) (res : result acceptance)
      (after : list Wait.effect) :
  tornDownThen st st' res after ->
  Wait.resolutions (Wait.log st')
  = Wait.resolutions (Wait.log st) ++ res :: Wait.resolutions after.
Proof.
  intros [_ [before [between [L [B1 B2]]]]]; rewrite L.
  rewrite !resolutions_app, B1; cbn.
  rewrite resolutions_app, B2; reflexivity.
Qed.

(** The calls of the task callback that a handler makes: one, or two
    when the callback throws at the acceptance. *)
Lemma afterwards_resolutions (ev : Wait.event) (res : result acceptance) :
  res :: Wait.resolutions (afterwards cbkThrows ev res)
  = match res with
    | Ok a =>
        match cbkThrows a with
        | Some m => [Ok a; Err (err2 503 m)]
        | None => [Ok a]
        end
    | Err e => [Err e]
    end.
Proof.
  destruct res as [a | e]; [| reflexivity].
  cbn [afterwards]; destruct (cbkThrows a); [| reflexivity].
  destruct ev; reflexivity.
Qed.




Lemma called_afterwards (ev : Wait.event) (res : result acceptance) :
  called cbkThrows
         (res :: Wait.resolutions (afterwards cbkThrows ev res)).
Proof.
  rewrite afterwards_resolutions.
  destruct res as [a | e].
  - destruct (cbkThrows a) as [m |] eqn:T.
    + right; exists a, m; split; [reflexivity | exact T].
    + left; exists (Ok a); split; [reflexivity |].
      intros a' E; injection E as <-; exact T.
  - left; exists (Err e); split; [reflexivity | discriminate].
Qed.

(** What is reachable: nothing has called back yet and the invoice is
    listened to, or the listeners are gone and the callback was
    called. *)
Lemma deliver_once (st : Wait.state) (ev : Wait.event) :
  dummyIsDeaf p2pService st ->
  (Wait.resolutions (Wait.log st) = [] /\ Wait.sub_listening st = true) \/
    (quiet st /\ called cbkThrows (Wait.resolutions (Wait.log st))) ->
  dummyIsDeaf p2pService (deliver st ev) /\
  ((Wait.resolutions (Wait.log (deliver st ev)) = [] /\
    Wait.sub_listening (deliver st ev) = true) \/
   (quiet (deliver st ev) /\
    called cbkThrows (Wait.resolutions (Wait.log (deliver st ev))))).
Proof.
  intros D [[N S] | [Q L]].
  - destruct (heard st ev) eqn:H;
      [| rewrite deliver_unheard by assumption; auto].
    destruct (resolving ev) eqn:R;
      [| rewrite deliver_ignored by assumption; auto].
    destruct (deliver_resolved st ev D H R) as [res [T _]].
    split; [now apply tornDown_deaf with st res (afterwards cbkThrows ev res) |].
    right; split; [apply T |].
    rewrite (tornDown_resolutions _ _ _ _ T), N; cbn [app].
    apply called_afterwards.
  - rewrite deliver_quiet by assumption; auto.
Qed.

Lemma run_once (evs : list Wait.event) :
  (Wait.resolutions (Wait.log (run evs)) = [] /\
   Wait.sub_listening (run evs) = true) \/
  (quiet (run evs) /\
   called cbkThrows (Wait.resolutions (Wait.log (run evs)))).
Proof.
  unfold Wait.run.
  assert (G : forall st,
    dummyIsDeaf p2pService st ->
    (Wait.resolutions (Wait.log st) = [] /\ Wait.sub_listening st = true) \/
      (quiet st /\ called cbkThrows (Wait.resolutions (Wait.log st))) ->
    (Wait.resolutions (Wait.log (fold_left deliver evs st)) = [] /\
     Wait.sub_listening (fold_left deliver evs st) = true) \/
    (quiet (fold_left deliver evs st) /\
     called cbkThrows
            (Wait.resolutions (Wait.log (fold_left deliver evs st))))).
  { induction evs as [| ev evs IH]; intros st D J; [exact J |].
    destruct (deliver_once st ev D J) as [D' J']; now apply IH. }
  apply G; [apply start_deaf |].
  left; unfold Wait.start, Wait.request; destruct p2pService; split;
    reflexivity.
Qed.

(** A callback that returns is called at most once. *)
Lemma resolutions_at_most_once (evs : list Wait.event) :
  (forall a, cbkThrows a = None) ->
  (List.length (Wait.resolutions (Wait.log (run evs))) <= 1)%nat.
Proof.
  intros T; destruct (run_once evs) as [[-> _] | [_ [[res [-> _]] | C]]];
    [cbn; lia | cbn; lia |].
  destruct C as [a [m [_ C]]]; rewrite T in C; discriminate.
Qed.


End WaitFacts.





(** When the task callback throws at the acceptance of a direct
    message, the [catch] of the handler tells the peer of a failure
    after the success and calls the task callback a second time. *)
Lemma thrown_acceptance_is_called_back_twice :
  Wait.log (Wait.run samplePartner sampleInvoiceId 80505 sampleAcceptDetails
                     throws PeerRequests [Wait.PeerRequest sampleRequest])
  = [ Wait.LogInfo "waiting_for_peer_balanced_channel_acceptance";
      Wait.SubRemoveAllListeners;
      Wait.P2pStop;
      Wait.CancelHodlInvoice sampleInvoiceId;
      Wait.LogInfo "received_balanced_channel_acceptance";
      Wait.ResSuccess;
      Wait.Cbk (Ok sampleAcceptance);
      Wait.ResFailure (err2 503 "Expected property pubkeys");
      Wait.Cbk (Err (err2 503 "Expected property pubkeys")) ].
Proof. vm_compute; reflexivity. Qed.


Lemma resolving_request (partner id : string) (req : Wait.peerRequest) :
  Wait.resolving partner id (Wait.PeerRequest req) = true <->
  Wait.from req = partner /\
  exists r, Wait.idRecordOf req = Some r /\ value r = id.
Proof.
  cbn [Wait.resolving]; rewrite andb_true_iff, String.eqb_eq.
  destruct (Wait.idRecordOf req) as [r |].
  - rewrite String.eqb_eq; split.
    + intros [F V]; split; [assumption | now exists r].
    + intros [F [r' [E V]]]; injection E as <-; now split.
  - split; [intros [_ H]; discriminate |].
    intros [_ [r [E _]]]; discriminate.
Qed.

(** C3, as the code has it. A direct message makes the handler call
    back only when its sender is the partner and its first record of
    type 0 holds the id of the acceptance invoice; a message of which
    that record is missing or holds anything else changes nothing: no
    call is made and the listeners of the invoice stay as they are. *)
Theorem peer_request_matched_by_invoice_id
        (partner id : string) (mst : N)
        (parser : list record -> string + acceptance)
        (cbkThrows : acceptance -> option string)
        (st : Wait.state) (req : Wait.peerRequest) :
  (Wait.resolutions
     (Wait.log (Wait.deliver partner id mst parser cbkThrows PeerRequests st
                             (Wait.PeerRequest req)))
     <> Wait.resolutions (Wait.log st) ->
   Wait.from req = partner /\
   exists r, Wait.idRecordOf req = Some r /\ value r = id) /\
  ((forall r, Wait.idRecordOf req = Some r -> value r <> id) ->
   Wait.deliver partner id mst parser cbkThrows PeerRequests st (Wait.PeerRequest req)
   = st).
Proof.
  split.
  - intros H; apply resolving_request.
    destruct (Wait.resolving partner id (Wait.PeerRequest req)) eqn:R;
      [reflexivity |].
    contradiction H.
    rewrite (deliver_ignored partner id mst parser cbkThrows PeerRequests st _ R).
    reflexivity.
  - intros H; apply deliver_ignored.
    destruct (Wait.resolving partner id (Wait.PeerRequest req)) eqn:R;
      [| reflexivity].
    apply resolving_request in R; destruct R as [_ [r [E V]]].
    now contradiction (H r E).
Qed.

Lemma peer_request_matched_by_invoice_id_witness :
  (forall r, Wait.idRecordOf sampleDigestRequest = Some r ->
             value r <> sampleInvoiceId) /\
  Wait.deliver samplePartner sampleInvoiceId 80505 sampleAcceptDetails returns
               PeerRequests (Wait.start PeerRequests)
               (Wait.PeerRequest sampleDigestRequest)
  = Wait.start PeerRequests.
Proof.
  assert (H : forall r, Wait.idRecordOf sampleDigestRequest = Some r ->
                        value r <> sampleInvoiceId).
  { intros r E; vm_compute in E; injection E as <-; discriminate. }
  split; [exact H |].
  exact (proj2 (peer_request_matched_by_invoice_id
                  samplePartner sampleInvoiceId 80505 sampleAcceptDetails returns
                  (Wait.start PeerRequests) sampleDigestRequest) H).
Defined.

(** C3, as the claim has it: the invoice id is not the digest of the
    request, and a direct message that holds the invoice id resolves
    the wait although it does not hold the digest. *)
Lemma peer_request_not_matched_by_digest :
  ~ resolvesOnlyOnDigest samplePartner sampleInvoiceId 80505
      sampleAcceptDetails sampleDigest.
Proof.
  intros H.
  destruct (H (Wait.start PeerRequests) sampleRequest) as [_ [r [E V]]].
  - vm_compute; discriminate.
  - vm_compute in E; injection E as <-; discriminate.
Qed.

(** C9. While the listeners of the invoice are registered, an update
    that shows the invoice confirmed with no payment that carries a
    record of the multisig key type makes the handler remove the
    listeners, stop the peer requests and call back with
    [ExpectedPaymentWithPeerChannelDetails]: the wait fails, it does
    not resolve with an acceptance. *)
Theorem settlement_without_key_fails
        (partner id : string) (mst : N)
        (parser : list record -> string + acceptance)
        (cbkThrows : acceptance -> option string) (p2p : service)
        (st : Wait.state) (updated : Wait.invoice) :
  Wait.sub_listening st = true ->
  Wait.is_confirmed updated = true ->
  (forall payment n,
     In payment (Wait.payments updated) ->
     In n (Wait.payment_messages payment) -> type n <> mst) ->
  Wait.log (Wait.deliver partner id mst parser cbkThrows p2p st
                         (Wait.InvoiceUpdated updated))
  = Wait.log st ++
    [ Wait.LogInfo "received_peer_balanced_channel_acceptance";
      Wait.SubRemoveAllListeners;
      Wait.P2pStop;
      Wait.Cbk (Err (err2 503 "ExpectedPaymentWithPeerChannelDetails")) ] /\
  Wait.resolutions
    (Wait.log (Wait.deliver partner id mst parser cbkThrows p2p st
                            (Wait.InvoiceUpdated updated)))
  = Wait.resolutions (Wait.log st) ++
    [ Err (err2 503 "ExpectedPaymentWithPeerChannelDetails") ] /\
  Wait.sub_listening (Wait.deliver partner id mst parser cbkThrows p2p st
                                   (Wait.InvoiceUpdated updated)) = false.
Proof.
  intros S C N.
  assert (F : find (Wait.hasMultiSig mst) (Wait.payments updated) = None).
  { destruct (find _ _) as [p |] eqn:E; [| reflexivity].
    apply find_some in E; destruct E as [I M].
    unfold Wait.hasMultiSig in M.
    destruct (find _ (Wait.payment_messages p)) as [n |] eqn:E;
      [| discriminate].
    apply find_some in E; destruct E as [I' T].
    apply N.eqb_eq in T; now contradiction (N p n I I'). }
  cbn [Wait.deliver]; rewrite S.
  unfold Wait.onInvoiceUpdated; rewrite C, F; cbn [negb].
  destruct p2p; cbn; rewrite <- ?app_assoc; cbn;
    rewrite ?resolutions_app; cbn; rewrite ?app_nil_r; auto.
Qed.

Lemma settlement_without_key_fails_witness :
  Wait.resolutions
    (Wait.log (Wait.deliver samplePartner sampleInvoiceId 80505
                            sampleAcceptDetails returns PeerRequests
                            (Wait.start PeerRequests)
                            (Wait.InvoiceUpdated sampleBareSettlement)))
  = Wait.resolutions (Wait.log (Wait.start PeerRequests)) ++
    [ Err (err2 503 "ExpectedPaymentWithPeerChannelDetails") ].
Proof.
  refine (proj1 (proj2 (settlement_without_key_fails
            samplePartner sampleInvoiceId 80505 sampleAcceptDetails returns
            PeerRequests (Wait.start PeerRequests) sampleBareSettlement
            eq_refl eq_refl _))).
  intros payment n [<- | []] [<- | []]; discriminate.
Defined.

Section DummyService.

Variable partner_public_key : string.
Variable createAcceptRequest_id : string.
Variable multiSigType : N.
Variable balancedOpenAcceptDetails : list record -> string + acceptance.
Variable cbkThrows : acceptance -> option string.

Local Abbreviation deliver :=
  (Wait.deliver partner_public_key createAcceptRequest_id multiSigType
                balancedOpenAcceptDetails cbkThrows).
Local Abbreviation run :=
  (Wait.run partner_public_key createAcceptRequest_id multiSigType
            balancedOpenAcceptDetails cbkThrows).

Lemma dummy_stays_deaf (st : Wait.state) (ev : Wait.event) :
  Wait.p2p_listening st = false ->
  Wait.p2p_listening (deliver DummyService st ev) = false.
Proof.
  intros P; destruct ev as [req | err | updated]; cbn [Wait.deliver].
  - rewrite P; exact P.
  - destruct (Wait.sub_listening st); [exact P | exact P].
  - destruct (Wait.sub_listening st); [| exact P].
    unfold Wait.onInvoiceUpdated.
    destruct (Wait.is_confirmed updated); cbn [negb]; [| exact P].
    destruct (find _ _) as [p |];
      [destruct (balancedOpenAcceptDetails _) as [m | a];
       [| destruct (cbkThrows a)] |];
      exact P.
Qed.

Lemma dummy_skips_requests (evs : list Wait.event) (st : Wait.state) :
  Wait.p2p_listening st = false ->
  fold_left (deliver DummyService) evs st
  = fold_left (deliver DummyService) (filter ofInvoice evs) st.
Proof.
  revert st; induction evs as [| ev evs IH]; intros st P; [reflexivity |].
  cbn [fold_left filter].
  destruct ev as [req | err | updated]; cbn [ofInvoice Wait.isPeerRequest negb].
  - cbn [Wait.deliver]; rewrite P; now apply IH.
  - cbn [fold_left]; apply IH, dummy_stays_deaf, P.
  - cbn [fold_left]; apply IH, dummy_stays_deaf, P.
Qed.

(** On the events of the invoice the two services do the same. *)
Lemma dummy_same_step (ev : Wait.event) (st1 st2 : Wait.state) :
  ofInvoice ev = true ->
  Wait.sub_listening st1 = Wait.sub_listening st2 ->
  Wait.log st1 = Wait.log st2 ->
  Wait.sub_listening (deliver DummyService st1 ev)
  = Wait.sub_listening (deliver PeerRequests st2 ev) /\
  Wait.log (deliver DummyService st1 ev)
  = Wait.log (deliver PeerRequests st2 ev).
Proof.
  intros O S L.
  destruct ev as [req | err | updated]; [discriminate O | |];
    cbn [Wait.deliver]; rewrite <- S;
    (destruct (Wait.sub_listening st1) eqn:S1; [| split; congruence]).
  - cbn; rewrite L; split; reflexivity.
  - unfold Wait.onInvoiceUpdated.
    destruct (Wait.is_confirmed updated); cbn [negb];
      [| split; congruence].
    destruct (find _ _) as [p |];
      [destruct (balancedOpenAcceptDetails _) as [m | a];
       [| destruct (cbkThrows a)] |];
      cbn; rewrite L; split; reflexivity.
Qed.

Lemma dummy_same_on_invoice (evs : list Wait.event)
      (st1 st2 : Wait.state) :
  Forall (fun ev => ofInvoice ev = true) evs ->
  Wait.sub_listening st1 = Wait.sub_listening st2 ->
  Wait.log st1 = Wait.log st2 ->
  Wait.sub_listening (fold_left (deliver DummyService) evs st1)
  = Wait.sub_listening (fold_left (deliver PeerRequests) evs st2) /\
  Wait.log (fold_left (deliver DummyService) evs st1)
  = Wait.log (fold_left (deliver PeerRequests) evs st2).
Proof.
  intros F; revert st1 st2; induction F as [| ev evs O _ IH];
    intros st1 st2 S L; [split; assumption |].
  cbn [fold_left].
  destruct (dummy_same_step ev st1 st2 O S L) as [S' L'].
  now apply IH.
Qed.

Lemma filter_ofInvoice (evs : list Wait.event) :
  Forall (fun ev => ofInvoice ev = true) (filter ofInvoice evs).
Proof. apply Forall_forall; intros ev I; now apply filter_In in I. Qed.

End DummyService.

(** C10. When the test message cannot be sent the [p2pService] task
    still succeeds, with the dummy service, and the task graph goes on
    without an error. With the dummy service [request] registers no
    handler and [stop] leaves the listeners as they are, so that direct
    messages have no effect at all; on the events of the invoice the
    wait does exactly what it does with the real service: only the
    settlement of the invoice can deliver the acceptance. *)
Theorem dummy_service_on_send_failure
        (partner id : string) (mst : N)
        (parser : list record -> string + acceptance)
        (cbkThrows : acceptance -> option string)
        (err : error) (evs : list Wait.event) (st : Wait.state) :
  p2pService (Some err) = Ok DummyService /\
  Auto.callback "p2pService" (Auto.Outcome (Some err)) = Some (Ok None) /\
  Wait.request DummyService st = st /\
  Wait.stop DummyService st = st /\
  Wait.p2p_listening (Wait.start DummyService) = false /\
  Wait.sub_listening (Wait.start DummyService) = true /\
  Wait.run partner id mst parser cbkThrows DummyService evs
  = Wait.run partner id mst parser cbkThrows DummyService (filter ofInvoice evs) /\
  Wait.log (Wait.run partner id mst parser cbkThrows DummyService evs)
  = Wait.log (Wait.run partner id mst parser cbkThrows PeerRequests
                       (filter ofInvoice evs)) /\
  Wait.sub_listening (Wait.run partner id mst parser cbkThrows DummyService evs)
  = Wait.sub_listening (Wait.run partner id mst parser cbkThrows PeerRequests
                                 (filter ofInvoice evs)).
Proof.
  repeat (split; [reflexivity |]).
  assert (E : Wait.run partner id mst parser cbkThrows DummyService evs
              = Wait.run partner id mst parser cbkThrows DummyService
                         (filter ofInvoice evs))
    by (apply dummy_skips_requests; reflexivity).
  split; [exact E |].
  rewrite E.
  destruct (dummy_same_on_invoice partner id mst parser cbkThrows
              (filter ofInvoice evs)
              (Wait.start DummyService) (Wait.start PeerRequests)
              (filter_ofInvoice evs) eq_refl eq_refl) as [S L].
  split; [exact L | exact S].
Qed.

(** ** Sorting *)

Section SortFacts.

Variable A : Type.
Variable compare : A -> A -> comparison.

Hypothesis compare_antisym :
  forall x y, compare x y = CompOpp (compare y x).
Hypothesis notAfter_trans :
  forall x y z,
    notAfter compare x y -> notAfter compare y z -> notAfter compare x z.

Lemma insert_perm (x : A) (l : list A) :
  Permutation (Js.insert compare x l) (x :: l).
Proof.
  induction l as [| y l IH]; cbn; [reflexivity |].
  destruct (compare x y); try reflexivity.
  rewrite IH; apply perm_swap.
Qed.

Lemma sort_perm (l : list A) : Permutation (Js.sort compare l) l.
Proof.
  induction l as [| x l IH]; cbn; [reflexivity |].
  rewrite insert_perm; now constructor.
Qed.

Lemma insert_sorted (x : A) (l : list A) :
  StronglySorted (notAfter compare) l ->
  StronglySorted (notAfter compare) (Js.insert compare x l).
Proof.
  induction 1 as [| y l S IH F]; cbn; [repeat constructor |].
  destruct (compare x y) eqn:C.
  - constructor; [now constructor |].
    assert (X : notAfter compare x y) by (unfold notAfter; congruence).
    constructor; [assumption |].
    apply Forall_impl with (2 := F); intros z; now apply notAfter_trans.
  - constructor; [now constructor |].
    assert (X : notAfter compare x y) by (unfold notAfter; congruence).
    constructor; [assumption |].
    apply Forall_impl with (2 := F); intros z; now apply notAfter_trans.
  - constructor; [assumption |].
    apply (Permutation_Forall (Permutation_sym (insert_perm x l))).
    constructor; [| assumption].
    unfold notAfter; rewrite compare_antisym, C; discriminate.
Qed.

Lemma sort_sorted (l : list A) :
  StronglySorted (notAfter compare) (Js.sort compare l).
Proof.
  induction l as [| x l IH]; cbn; [constructor | now apply insert_sorted].
Qed.

(** Two sorted arrangements of the same elements are the same when no
    two distinct elements compare equal. *)
Lemma sorted_unique (l1 l2 : list A) :
  (forall x y, In x l1 -> In y l1 -> compare x y = Eq -> x = y) ->
  Permutation l1 l2 ->
  StronglySorted (notAfter compare) l1 ->
  StronglySorted (notAfter compare) l2 ->
  l1 = l2.
Proof.
  revert l2; induction l1 as [| x l1 IH]; intros l2 E P S1 S2.
  - apply Permutation_nil in P; now subst.
  - destruct l2 as [| y l2];
      [apply Permutation_sym, Permutation_nil in P; discriminate |].
    assert (x = y) as <-.
    { inversion S1 as [| ? ? _ F1]; inversion S2 as [| ? ? _ F2]; subst.
      assert (Ix : In x (y :: l2))
        by (apply (Permutation_in _ P); now left).
      assert (Iy : In y (x :: l1))
        by (apply (Permutation_in _ (Permutation_sym P)); now left).
      destruct Ix as [-> | Ix]; [reflexivity |].
      destruct Iy as [-> | Iy]; [reflexivity |].
      rewrite Forall_forall in F1, F2.
      pose proof (F1 y Iy) as Lxy; pose proof (F2 x Ix) as Lyx.
      apply E; [now left | now right |].
      unfold notAfter in Lxy, Lyx; rewrite compare_antisym in Lyx.
      destruct (compare x y); [reflexivity | | contradiction].
      now contradiction Lyx. }
    f_equal; apply IH.
    + intros a b Ia Ib; apply E; now right.
    + now apply Permutation_cons_inv with x.
    + now inversion S1.
    + now inversion S2.
Qed.

Lemma sort_permutation (l1 l2 : list A) :
  (forall x y, In x l1 -> In y l1 -> compare x y = Eq -> x = y) ->
  Permutation l1 l2 ->
  Js.sort compare l1 = Js.sort compare l2.
Proof.
  intros E P; apply sorted_unique; try apply sort_sorted.
  - intros x y Ix Iy; apply E;
      now apply (Permutation_in _ (sort_perm l1)).
  - rewrite sort_perm, P; symmetry; apply sort_perm.
Qed.

End SortFacts.

(** ** The digest of the records *)

Lemma byType_antisym (a b : record) : byType a b = CompOpp (byType b a).
Proof. unfold byType; apply N.compare_antisym. Qed.

Lemma byType_trans (a b c : record) :
  notAfter byType a b -> notAfter byType b c -> notAfter byType a c.
Proof.
  unfold notAfter, byType; intros H1 H2.
  change (toNumber (type a) <= toNumber (type c))%N.
  transitivity (toNumber (type b)); assumption.
Qed.

Lemma byType_Eq (l : list record) (a b : record) :
  NoDup (map sortKey l) -> In a l -> In b l -> byType a b = Eq -> a = b.
Proof.
  unfold byType; intros D Ia Ib E; apply N.compare_eq in E.
  change (sortKey a = sortKey b) in E.
  induction l as [| m l IH]; [contradiction |].
  cbn in D; inversion D as [| ? ? X D']; subst.
  destruct Ia as [-> | Ia], Ib as [-> | Ib]; [reflexivity | | | now apply IH].
  - contradiction X; rewrite E; now apply in_map.
  - contradiction X; rewrite <- E; now apply in_map.
Qed.

Lemma bigEndian_length (count : nat) (n : N) :
  List.length (bigEndian count n) = count.
Proof.
  revert n; induction count as [| c IH]; intros n; cbn; [reflexivity |].
  rewrite length_app, IH; cbn; lia.
Qed.

Lemma to_N_byteOfN (n : N) : (n < 256)%N -> Byte.to_N (byteOfN n) = n.
Proof.
  intros H; unfold byteOfN.
  destruct (Byte.of_N n) as [b |] eqn:E; [now apply Byte.to_of_N |].
  pose proof (Byte.to_of_N_option_map n) as M; rewrite E in M; cbn in M.
  destruct (N.leb_spec n 255); [discriminate | lia].
Qed.

Lemma fromBigEndian_snoc (bytes : list byte) (b : byte) :
  fromBigEndian (bytes ++ [b]) = (fromBigEndian bytes * 256 + Byte.to_N b)%N.
Proof. unfold fromBigEndian; rewrite fold_left_app; reflexivity. Qed.

Lemma fromBigEndian_bigEndian (count : nat) (n : N) :
  fromBigEndian (bigEndian count n) = (n mod 256 ^ N.of_nat count)%N.
Proof.
  revert n; induction count as [| c IH]; intros n.
  - cbn; now rewrite N.mod_1_r.
  - cbn [bigEndian]; rewrite fromBigEndian_snoc, IH.
    rewrite to_N_byteOfN by (apply N.mod_lt; lia).
    rewrite Nat2N.inj_succ, N.pow_succ_r'.
    rewrite N.Div0.mod_mul_r; lia.
Qed.

(** The type of a record is written on eight bytes, most significant
    first. *)
Lemma writeBigUInt64BE_spec (n : N) (bytes : list byte) :
  writeBigUInt64BE n = Some bytes ->
  List.length bytes = 8%nat /\ fromBigEndian bytes = n.
Proof.
  unfold writeBigUInt64BE.
  destruct (N.ltb_spec n (2 ^ 64)) as [L | _]; [| discriminate].
  intros H.
  assert (bytes = bigEndian largeNumberByteCount n) as -> by congruence.
  split; [exact (bigEndian_length largeNumberByteCount n) |].
  rewrite fromBigEndian_bigEndian; apply N.mod_small.
  replace (256 ^ N.of_nat largeNumberByteCount)%N with (2 ^ 64)%N
    by (vm_compute; reflexivity).
  exact L.
Qed.

Lemma sorted_strict (l : list record) :
  NoDup (map sortKey l) ->
  StronglySorted (notAfter byType) l ->
  StronglySorted (fun a b => (sortKey a < sortKey b)%N) l.
Proof.
  induction l as [| m l IH]; intros D S; [constructor |].
  cbn in D; inversion D as [| ? ? X D']; inversion S as [| ? ? S' F]; subst.
  constructor; [now apply IH |].
  rewrite Forall_forall in F |- *; intros b I.
  pose proof (F b I) as L; unfold notAfter, byType in L.
  change (sortKey m <= sortKey b)%N in L.
  assert (sortKey m <> sortKey b)
    by (intros E; apply X; rewrite E; now apply in_map).
  lia.
Qed.

(** Records whose types fit in 64 bits are encoded. *)
Lemma encodeRecords_total (l : list record) :
  Forall (fun m => (type m < 2 ^ 64)%N) l ->
  exists bytes, encodeRecords l = Some bytes.
Proof.
  induction 1 as [| m l T _ [bytes IH]]; [now exists [] |].
  cbn [encodeRecords]; unfold writeBigUInt64BE.
  apply N.ltb_lt in T; rewrite T, IH; eexists; reflexivity.
Qed.

(** What is hashed: for each record, in the order given, the type on
    eight bytes, most significant first, and the bytes of the value. *)
Lemma encodeRecords_chunks (l : list record) (bytes : list byte) :
  encodeRecords l = Some bytes ->
  exists chunks, Forall2 encodes l chunks /\ bytes = List.concat chunks.
Proof.
  revert bytes; induction l as [| m l IH]; intros bytes; cbn [encodeRecords].
  - intros H; injection H as <-; exists []; split; [constructor | reflexivity].
  - destruct (writeBigUInt64BE (type m)) as [t |] eqn:W; [| discriminate].
    destruct (encodeRecords l) as [rest |]; [| discriminate].
    intros H; injection H as <-.
    destruct (IH rest eq_refl) as [chunks [F ->]].
    apply writeBigUInt64BE_spec in W; destruct W as [L V].
    exists ((t ++ hexAsBuffer (value m)) :: chunks); split.
    + constructor; [| exact F].
      exists t; repeat split; assumption.
    + cbn [List.concat]; now rewrite <- app_assoc.
Qed.

(** C4. The digest does not depend on the order in which the records
    are given: for records whose types are distinct as numbers, every
    permutation of the list is sorted into the same list, ascending by
    type, and so has the same digest; the digest is the SHA-256 of the
    concatenation, in that order, of the type of each record on eight
    bytes, most significant first, followed by the bytes of its value;
    it exists when the types fit in 64 bits; and this is the digest of
    the six records of the request. *)
Theorem digest_order_independent
        (sha256 : list byte -> string) (types : keyTypes)
        (messages permuted : list record)
        (secret multiSigKey : string) (capacity rate : Z)
        (funding : transit) :
  Permutation messages permuted ->
  NoDup (map sortKey messages) ->
  digestOf sha256 permuted = digestOf sha256 messages /\
  Js.sort byType permuted = Js.sort byType messages /\
  Permutation (Js.sort byType messages) messages /\
  StronglySorted (fun a b => (sortKey a < sortKey b)%N)
                 (Js.sort byType messages) /\
  (forall d,
     digestOf sha256 messages = Some d ->
     exists chunks,
       Forall2 encodes (Js.sort byType messages) chunks /\
       d = sha256 (List.concat chunks)) /\
  (forall message bytes,
     writeBigUInt64BE (type message) = Some bytes ->
     List.length bytes = 8%nat /\ fromBigEndian bytes = type message) /\
  (Forall (fun m => (type m < 2 ^ 64)%N) messages ->
   exists d, digestOf sha256 messages = Some d) /\
  option_map digest
    (messagesToPush sha256 types secret capacity rate funding multiSigKey)
  = digestOf sha256
      (requestRecords types secret capacity rate funding multiSigKey).
Proof.
  intros P D.
  assert (E : Js.sort byType permuted = Js.sort byType messages).
  { symmetry; apply sort_permutation;
      [apply byType_antisym | apply byType_trans | | assumption].
    intros a b; now apply byType_Eq. }
  split; [unfold digestOf; now rewrite E |].
  split; [exact E |].
  split; [apply sort_perm |].
  split.
  { apply sorted_strict.
    - apply (Permutation_NoDup (l := map sortKey messages)); [| assumption].
      apply Permutation_map, Permutation_sym, sort_perm.
    - apply sort_sorted; [apply byType_antisym | apply byType_trans]. }
  split.
  { intros d; unfold digestOf.
    destruct (encodeRecords (Js.sort byType messages)) as [bytes |] eqn:B;
      [| discriminate].
    intros H; injection H as <-.
    destruct (encodeRecords_chunks _ _ B) as [chunks [F ->]].
    now exists chunks. }
  split; [intros m bytes; apply writeBigUInt64BE_spec |].
  split.
  { intros T; unfold digestOf.
    destruct (encodeRecords_total (Js.sort byType messages)) as [bytes B].
    - apply (Permutation_Forall (Permutation_sym (sort_perm _ byType messages))).
      exact T.
    - rewrite B; eexists; reflexivity. }
  unfold messagesToPush, digestOf.
  destruct (encodeRecords _); reflexivity.
Qed.

Lemma digest_order_independent_witness :
  NoDup (map sortKey
           (requestRecords sampleKeyTypes sampleSecret 2000000 10
                           sampleTransit sampleOwnKey)) /\
  digestOf sampleHash
    (rev (requestRecords sampleKeyTypes sampleSecret 2000000 10
                         sampleTransit sampleOwnKey))
  = digestOf sampleHash
      (requestRecords sampleKeyTypes sampleSecret 2000000 10
                      sampleTransit sampleOwnKey).
Proof.
  assert (D : NoDup (map sortKey
                (requestRecords sampleKeyTypes sampleSecret 2000000 10
                                sampleTransit sampleOwnKey))).
  { vm_compute.
    repeat (constructor; [cbn; intuition discriminate |]); constructor. }
  split; [exact D |].
  exact (proj1 (digest_order_independent
                  sampleHash sampleKeyTypes _ _ sampleSecret sampleOwnKey
                  2000000 10 sampleTransit
                  (Permutation_rev _) D)).
Defined.

(** ** Hex strings *)

Lemma hexPair_decoded (b : byte) (rest : string) :
  hexAsBuffer (String (fst (hexPair b)) (String (snd (hexPair b)) rest))
  = b :: hexAsBuffer rest.
Proof. destruct b; reflexivity. Qed.

Lemma hexAsBuffer_bufferAsHex (buffer : list byte) :
  hexAsBuffer (bufferAsHex buffer) = buffer.
Proof.
  induction buffer as [| b rest IH]; [reflexivity |].
  cbn [bufferAsHex]; rewrite hexPair_decoded, IH; reflexivity.
Qed.

Lemma bufferAsHex_inj (a b : list byte) :
  bufferAsHex a = bufferAsHex b -> a = b.
Proof.
  intros E; rewrite <- (hexAsBuffer_bufferAsHex a), E.
  apply hexAsBuffer_bufferAsHex.
Qed.

Lemma nibbles_In (n : N) : (n < 16)%N -> In n nibbles.
Proof.
  intros H; rewrite <- (N2Nat.id n); apply in_map, in_seq; lia.
Qed.

Lemma hexDigit_compare (a b : N) :
  (a < 16)%N -> (b < 16)%N ->
  Ascii.compare (hexDigit a) (hexDigit b) = (a ?= b)%N.
Proof.
  intros Ha Hb.
  assert (C : forallb (fun a => forallb (fun b =>
                sameComparison (Ascii.compare (hexDigit a) (hexDigit b))
                               (a ?= b)%N) nibbles) nibbles = true)
    by (vm_compute; reflexivity).
  rewrite forallb_forall in C.
  pose proof (C a (nibbles_In a Ha)) as Ca.
  rewrite forallb_forall in Ca.
  pose proof (Ca b (nibbles_In b Hb)) as Cab.
  destruct (Ascii.compare _ _), (a ?= b)%N; (reflexivity || discriminate).
Qed.

Lemma hexPair_compare (x y : byte) (r1 r2 : string) :
  String.compare
    (String (fst (hexPair x)) (String (snd (hexPair x)) r1))
    (String (fst (hexPair y)) (String (snd (hexPair y)) r2))
  = match (Byte.to_N x ?= Byte.to_N y)%N with
    | Eq => String.compare r1 r2
    | c => c
    end.
Proof.
  cbn [String.compare hexPair fst snd].
  pose proof (Byte.to_N_bounded x) as Bx.
  pose proof (Byte.to_N_bounded y) as By.
  remember (Byte.to_N x) as X eqn:EX; remember (Byte.to_N y) as Y eqn:EY.
  clear EX EY.
  pose proof (N.div_mod X 16 ltac:(lia)) as Dx.
  pose proof (N.div_mod Y 16 ltac:(lia)) as Dy.
  pose proof (N.mod_lt X 16 ltac:(lia)) as Mx.
  pose proof (N.mod_lt Y 16 ltac:(lia)) as My.
  assert (X / 16 < 16)%N by (apply N.Div0.div_lt_upper_bound; lia).
  assert (Y / 16 < 16)%N by (apply N.Div0.div_lt_upper_bound; lia).
  rewrite !hexDigit_compare by assumption.
  generalize dependent (X / 16)%N; generalize dependent (X mod 16)%N.
  generalize dependent (Y / 16)%N; generalize dependent (Y mod 16)%N.
  intros ly My hy Dy Hy lx Mx hx Dx Hx.
  destruct (N.compare_spec hx hy), (N.compare_spec lx ly),
           (N.compare_spec X Y); try reflexivity; exfalso; lia.
Qed.

(** On hex strings of buffers the order of the code units is the order
    of the bytes. *)
Lemma compare_bufferAsHex (a b : list byte) :
  String.compare (bufferAsHex a) (bufferAsHex b) = compareBytes a b.
Proof.
  revert b; induction a as [| x a IH]; intros [| y b]; try reflexivity.
  cbn [bufferAsHex compareBytes]; rewrite hexPair_compare, IH; reflexivity.
Qed.

(** ** The funding script and the joint transaction *)

Lemma sort_pair_comm {A : Type} (compare : A -> A -> comparison) (a b : A) :
  compare a b = CompOpp (compare b a) ->
  (compare a b = Eq -> a = b) ->
  Js.sort compare [a; b] = Js.sort compare [b; a].
Proof.
  intros S E; cbn; rewrite S.
  destruct (compare b a) eqn:C; cbn [CompOpp]; try reflexivity.
  cbn in S; now rewrite (E S).
Qed.

Lemma sortedKeys_comm (a b : string) : sortedKeys [a; b] = sortedKeys [b; a].
Proof.
  apply sort_pair_comm;
    [apply String.compare_antisym | apply String.compare_eq_iff].
Qed.

(** C5, as the code has it. The funding script is the pay to witness
    script hash of the 2 of 2 multisig of the two keys in the order of
    their hex strings, by code units; so it does not depend on which
    of the two keys is the own one: the party that holds one key and
    receives the other derives the same hash and script as its peer;
    for the lower case hex of raw keys the order of the hex strings is
    the ascending order of the bytes. *)
Theorem funding_script_symmetric
        (p2ms : nat -> list (list byte) -> payment)
        (p2wsh : payment -> payment)
        (own : string) (waitForAccept : acceptance)
        (fromA fromB : acceptance) (rawA rawB : list byte) :
  deriveFundingAddress p2ms p2wsh own waitForAccept
  = addressOf
      (p2wsh
         (p2ms 2%nat
               (map hexAsBuffer
                    match String.compare
                            own (accept_multisig_public_key waitForAccept)
                    with
                    | Gt => [accept_multisig_public_key waitForAccept; own]
                    | _ => [own; accept_multisig_public_key waitForAccept]
                    end))) /\
  deriveFundingAddress p2ms p2wsh (accept_multisig_public_key fromA) fromB
  = deriveFundingAddress p2ms p2wsh (accept_multisig_public_key fromB) fromA
  /\
  (accept_multisig_public_key waitForAccept = bufferAsHex rawB ->
   deriveFundingAddress p2ms p2wsh (bufferAsHex rawA) waitForAccept
   = addressOf (p2wsh (p2ms 2%nat (byteSorted rawA rawB)))) /\
  map hexAsBuffer (sortedKeys [bufferAsHex rawA; bufferAsHex rawB])
  = byteSorted rawA rawB /\
  StronglySorted (notAfter compareBytes) (byteSorted rawA rawB).
Proof.
  assert (E : map hexAsBuffer (sortedKeys [bufferAsHex rawA; bufferAsHex rawB])
              = byteSorted rawA rawB).
  { unfold sortedKeys, byteSorted; cbn [Js.sort Js.insert].
    rewrite compare_bufferAsHex.
    destruct (compareBytes rawA rawB); cbn [map];
      now rewrite !hexAsBuffer_bufferAsHex. }
  split.
  { unfold deriveFundingAddress, addressOf, sortedKeys.
    cbn [Js.sort Js.insert List.length].
    destruct (String.compare _ _); reflexivity. }
  split.
  { unfold deriveFundingAddress; now rewrite sortedKeys_comm. }
  split.
  { intros K; unfold deriveFundingAddress; rewrite K, E; reflexivity. }
  split; [exact E |].
  unfold byteSorted.
  destruct (compareBytes rawA rawB) eqn:C;
    repeat constructor; unfold notAfter; try congruence.
  rewrite <- compare_bufferAsHex, String.compare_antisym,
    compare_bufferAsHex, C; discriminate.
Qed.

(** C5, as the claim has it: a peer key spelled in upper case is a key
    that [isPublicKey] takes, and it is sorted as text: its bytes are
    the greater, yet its hex string is the lesser, and the script is
    built from the two keys in descending order of their bytes. *)
Lemma funding_keys_sorted_as_text :
  ~ scriptOfByteSortedKeys sampleP2ms sampleP2wsh.
Proof.
  intros H.
  specialize (H sampleOwnKey sampleUpperCasePeer).
  assert (O : isPublicKey (Some sampleOwnKey) = true)
    by (vm_compute; reflexivity).
  assert (P : isPublicKey
                (Some (accept_multisig_public_key sampleUpperCasePeer))
              = true) by (vm_compute; reflexivity).
  specialize (H O P).
  apply (f_equal (fun a => String.get 2 (address_script a))) in H.
  vm_compute in H; discriminate H.
Qed.

Lemma byOutpoint_antisym (a b : Tx.input) :
  byOutpoint a b = CompOpp (byOutpoint b a).
Proof.
  unfold byOutpoint.
  rewrite (String.compare_antisym (bufferAsHex (Tx.hash a))).
  rewrite (Z.compare_antisym (Tx.index b) (Tx.index a)).
  destruct (String.compare (bufferAsHex (Tx.hash b))
                           (bufferAsHex (Tx.hash a)));
    reflexivity.
Qed.

Lemma byOutpoint_Eq (a b : Tx.input) :
  byOutpoint a b = Eq -> Tx.hash a = Tx.hash b /\ Tx.index a = Tx.index b.
Proof.
  unfold byOutpoint.
  destruct (String.compare _ _) eqn:C; try discriminate.
  apply String.compare_eq_iff, bufferAsHex_inj in C.
  intros E; apply Z.compare_eq in E; now split.
Qed.

(** The joint transaction is the same whichever of the two outpoints
    is listed first. *)
Lemma halfSignFrom_comm (a b : string * Z) (capacity : Z)
      (address : fundingAddress) (waitForAccept : acceptance) :
  halfSignFrom [a; b] capacity address waitForAccept
  = halfSignFrom [b; a] capacity address waitForAccept.
Proof.
  unfold halfSignFrom; cbn [map].
  rewrite (sort_pair_comm byOutpoint); [reflexivity | |].
  - apply byOutpoint_antisym.
  - intros E; apply byOutpoint_Eq in E; cbn in E; destruct E as [-> ->].
    reflexivity.
Qed.

Lemma bytes_eqb_refl (a : list byte) : bytes_eqb a a = true.
Proof. now apply bytes_eqb_eq. Qed.

Lemma addInput_outpoint (tx : Tx.transaction) (id : string) (vout : Z) :
  isOutpoint id vout = true ->
  Tx.addInput tx (idAsHash id) vout 0
  = Some {| Tx.version := Tx.version tx; Tx.locktime := Tx.locktime tx;
            Tx.ins := Tx.ins tx ++ [{| Tx.hash := idAsHash id;
                                       Tx.index := vout;
                                       Tx.sequence := 0;
                                       Tx.witness := [] |}];
            Tx.outs := Tx.outs tx |}.
Proof.
  unfold isOutpoint, Tx.addInput, idAsHash; intros V.
  apply andb_prop in V; destruct V as [L U].
  rewrite length_rev, L, U; reflexivity.
Qed.

(** [halfSign] returns a transaction when bitcoinjs takes the two
    outpoints and the capacity: its inputs are the two outpoints, the
    one first whose hash has the lesser hex, then the lesser index; its
    one output pays the capacity to the funding script. *)
Lemma halfSign_returns (capacity : Z) (funding : transit)
      (address : fundingAddress) (waitForAccept : acceptance) :
  isOutpoint (transaction_id funding) (transaction_vout funding) = true ->
  isOutpoint (accept_transaction_id waitForAccept)
             (accept_transaction_vout waitForAccept) = true ->
  Tx.isSatoshi capacity = true ->
  exists tx,
    halfSign capacity funding address waitForAccept = Some tx /\
    map (fun i => (Tx.hash i, Tx.index i, Tx.sequence i)) (Tx.ins tx)
    = match byOutpoint
              {| Tx.hash := idAsHash (transaction_id funding);
                 Tx.index := transaction_vout funding;
                 Tx.sequence := 0; Tx.witness := [] |}
              {| Tx.hash := idAsHash (accept_transaction_id waitForAccept);
                 Tx.index := accept_transaction_vout waitForAccept;
                 Tx.sequence := 0; Tx.witness := [] |} with
      | Gt =>
          [ (idAsHash (accept_transaction_id waitForAccept),
             accept_transaction_vout waitForAccept, 0%Z);
            (idAsHash (transaction_id funding),
             transaction_vout funding, 0%Z) ]
      | _ =>
          [ (idAsHash (transaction_id funding),
             transaction_vout funding, 0%Z);
            (idAsHash (accept_transaction_id waitForAccept),
             accept_transaction_vout waitForAccept, 0%Z) ]
      end /\
    Tx.outs tx
    = [ {| Tx.script := hexAsBuffer (address_script address);
           Tx.value := capacity |} ].
Proof.
  intros Own Peer Sat.
  unfold halfSign, halfSignFrom.
  cbn [map fst snd Js.sort Js.insert].
  destruct (byOutpoint _ _);
    cbn [addInputs fold_left Tx.hash Tx.index Tx.sequence];
    rewrite ?(addInput_outpoint _ _ _ Own), ?(addInput_outpoint _ _ _ Peer);
    rewrite ?(addInput_outpoint _ _ _ Own), ?(addInput_outpoint _ _ _ Peer);
    cbn [Tx.new Tx.ins Tx.outs Tx.version Tx.locktime app];
    unfold findIndex; cbn [findIndexFrom Tx.hash Tx.index];
    rewrite ?Z.eqb_refl, ?bytes_eqb_refl; cbn [negb];
    try (destruct (negb (transaction_vout funding
                         =? accept_transaction_vout waitForAccept)%Z);
         [| destruct (bytes_eqb (idAsHash (transaction_id funding))
                        (idAsHash (accept_transaction_id waitForAccept)))]);
    unfold Tx.addOutput; cbn; rewrite Sat;
    eexists; (split; [reflexivity |]); split; reflexivity.
Qed.

Lemma addInputs_taken (inputs : list Tx.input) (start : option Tx.transaction)
      (tx : Tx.transaction) :
  fold_left
    (fun tx n =>
       match tx with
       | Some tx => Tx.addInput tx (Tx.hash n) (Tx.index n) (Tx.sequence n)
       | None => None
       end)
    inputs start = Some tx ->
  Forall (fun n => (List.length (Tx.hash n) =? 32)%nat = true /\
                   Tx.isUInt32 (Tx.index n) = true) inputs.
Proof.
  revert start; induction inputs as [| n inputs IH]; intros start H;
    [constructor |].
  cbn [fold_left] in H.
  constructor; [| exact (IH _ H)].
  destruct start as [tx0 |].
  - unfold Tx.addInput in H.
    destruct (List.length (Tx.hash n) =? 32)%nat; cbn [andb] in H.
    + destruct (Tx.isUInt32 (Tx.index n)); [now split |].
      cbn [andb] in H.
      clear IH; exfalso; revert H; clear.
      induction inputs as [| m inputs IH]; cbn; [discriminate | exact IH].
    + clear IH; exfalso; revert H; clear.
      induction inputs as [| m inputs IH]; cbn; [discriminate | exact IH].
  - clear IH; exfalso; revert H; clear.
    induction inputs as [| m inputs IH]; cbn; [discriminate | exact IH].
Qed.

(** [halfSign] only returns when bitcoinjs takes the two outpoints and
    the capacity; otherwise [addInput] or [addOutput] throws. *)
Lemma halfSign_taken (capacity : Z) (funding : transit)
      (address : fundingAddress) (waitForAccept : acceptance)
      (tx : Tx.transaction) :
  halfSign capacity funding address waitForAccept = Some tx ->
  isOutpoint (transaction_id funding) (transaction_vout funding) = true /\
  isOutpoint (accept_transaction_id waitForAccept)
             (accept_transaction_vout waitForAccept) = true /\
  Tx.isSatoshi capacity = true.
Proof.
  unfold halfSign, halfSignFrom; cbn [map fst snd].
  set (own := {| Tx.hash := idAsHash (transaction_id funding);
                 Tx.index := transaction_vout funding;
                 Tx.sequence := 0; Tx.witness := [] |}).
  set (peer := {| Tx.hash := idAsHash (accept_transaction_id waitForAccept);
                  Tx.index := accept_transaction_vout waitForAccept;
                  Tx.sequence := 0; Tx.witness := [] |}).
  destruct (addInputs Tx.new (Js.sort byOutpoint [own; peer]))
    as [tx1 |] eqn:A; [| discriminate].
  apply addInputs_taken in A.
  apply (Permutation_Forall (sort_perm _ byOutpoint [own; peer])) in A.
  inversion A as [| ? ? [Lo Uo] A']; subst.
  inversion A' as [| ? ? [Lp Up] _]; subst.
  cbn [Tx.hash Tx.index own peer] in Lo, Uo, Lp, Up.
  unfold idAsHash in Lo, Lp; rewrite length_rev in Lo, Lp.
  destruct (Tx.setWitness _ _ _) as [tx2 |]; [| discriminate].
  unfold Tx.addOutput.
  destruct (Tx.isSatoshi capacity); [| discriminate].
  intros _; unfold isOutpoint; rewrite Lo, Uo, Lp, Up; auto.
Qed.

(** C2, at the transit outpoint and the peer outpoint of the
    examples. The transaction id of the transit output is the lesser
    of the two as a hex string, yet the joint transaction spends the
    outpoint of the peer first: the inputs are put in the order of the
    hex of the reversed ids, not in the order of the ids. *)
Theorem halfSign_orders_by_reversed_id :
  String.compare (transaction_id sampleTransit)
                 (accept_transaction_id sampleAcceptance) = Lt /\
  option_map spends
    (halfSign 2000000 sampleTransit sampleAddress sampleAcceptance)
  = Some [ (accept_transaction_id sampleAcceptance, 1%Z);
           (transaction_id sampleTransit, 1%Z) ] /\
  option_map spends
    (halfSignFrom
       [ (accept_transaction_id sampleAcceptance,
          accept_transaction_vout sampleAcceptance);
         (transaction_id sampleTransit, transaction_vout sampleTransit) ]
       2000000 sampleAddress sampleAcceptance)
  = Some [ (accept_transaction_id sampleAcceptance, 1%Z);
           (transaction_id sampleTransit, 1%Z) ].
Proof. repeat split; vm_compute; reflexivity. Qed.

(** * Further properties *)

From Stdlib Require HexadecimalN.

(** ** Hex strings and numbers in records *)

Lemma hexValue_bound (c : ascii) (v : N) :
  hexValue c = Some v -> (v < 16)%N.
Proof.
  destruct c as [[] [] [] [] [] [] [] []]; vm_compute;
    intros H; try discriminate H; injection H as <-; reflexivity.
Qed.

Lemma hexPair_encoded (a b : ascii) :
  isLowerHexChar a = true -> isLowerHexChar b = true ->
  exists h l,
    hexValue a = Some h /\ hexValue b = Some l /\
    hexPair (byteOfN (16 * h + l)) = (a, b).
Proof.
  unfold isLowerHexChar.
  destruct (hexValue a) as [h |] eqn:A; [| discriminate].
  destruct (hexValue b) as [l |] eqn:B; [| discriminate].
  intros Ea Eb; apply Ascii.eqb_eq in Ea, Eb.
  exists h, l; repeat split.
  pose proof (hexValue_bound _ _ A); pose proof (hexValue_bound _ _ B).
  unfold hexPair; rewrite to_N_byteOfN by lia.
  replace ((16 * h + l) / 16)%N with h
    by (apply N.div_unique with l; lia).
  replace ((16 * h + l) mod 16)%N with l
    by (apply N.mod_unique with h; lia).
  congruence.
Qed.

Lemma two_step (P : string -> Prop) :
  P EmptyString ->
  (forall c, P (String c EmptyString)) ->
  (forall a b rest, P rest -> P (String a (String b rest))) ->
  forall s, P s.
Proof.
  intros H0 H1 H2 s.
  assert (G : P s /\ forall c, P (String c s)).
  { induction s as [| c s [IH1 IH2]]; split; auto. }
  apply G.
Qed.

(** X1. Hex encoding and decoding are inverse to each other: the bytes
    of [buffer.toString('hex')] are the buffer again, and the hex of
    the bytes of a string of an even number of lower case hex digits is
    the string again. *)
Theorem hex_round_trip (buffer : list byte) (hex : string) :
  isLowerHex hex = true ->
  hexAsBuffer (bufferAsHex buffer) = buffer /\
  isLowerHex (bufferAsHex buffer) = true /\
  bufferAsHex (hexAsBuffer hex) = hex /\
  String.length hex = (2 * List.length (hexAsBuffer hex))%nat.
Proof.
  intros L; split; [apply hexAsBuffer_bufferAsHex |].
  split.
  { induction buffer as [| b rest IH]; [reflexivity |].
    cbn [bufferAsHex isLowerHex]; rewrite IH.
    destruct b; reflexivity. }
  revert L; pattern hex; apply two_step; clear hex.
  - intros _; split; reflexivity.
  - discriminate.
  - intros a b rest IH L; cbn [isLowerHex] in L.
    apply andb_prop in L; destruct L as [La L].
    apply andb_prop in L; destruct L as [Lb L].
    destruct (hexPair_encoded a b La Lb) as [h [l [Ha [Hb P]]]].
    destruct (IH L) as [IH1 IH2].
    cbn [hexAsBuffer]; rewrite Ha, Hb.
    cbn [bufferAsHex List.length String.length]; rewrite P, IH1, IH2.
    split; [reflexivity | lia].
Qed.

Lemma hex_round_trip_witness :
  isLowerHex sampleInvoiceId = true /\
  bufferAsHex (hexAsBuffer sampleInvoiceId) = sampleInvoiceId.
Proof.
  assert (L : isLowerHex sampleInvoiceId = true) by (vm_compute; reflexivity).
  split; [exact L |].
  exact (proj1 (proj2 (proj2 (hex_round_trip [] sampleInvoiceId L)))).
Defined.










(** X3. A negative fee rate passes the fee rate prompt, and the value
    of the record it is written into holds no bytes: the minus sign
    stops the hex decoding at once. *)
Theorem negative_rate_record_is_empty (p : positive) :
  askForFeeRate (Double.Int (Z.neg p)) = Ok (Double.Int (Z.neg p)) /\
  hexAsBuffer (paddedHexNumber (numAsHex (Z.neg p))) = [].
Proof.
  split; [reflexivity |].
  unfold numAsHex, paddedHexNumber.
  destruct (Nat.odd _); [reflexivity |].
  destruct (NilZero.string_of_uint _); reflexivity.
Qed.

(** ** The arguments *)

Lemma allHex_decoded (s : string) :
  allHex s = true ->
  (2 * List.length (hexAsBuffer s) + Nat.b2n (Nat.odd (String.length s))
   = String.length s)%nat.
Proof.
  pattern s; apply two_step; clear s.
  - reflexivity.
  - reflexivity.
  - intros a b rest IH H; cbn [allHex] in H.
    apply andb_prop in H; destruct H as [Ha H].
    apply andb_prop in H; destruct H as [Hb H].
    unfold isHexChar in Ha, Hb.
    cbn [hexAsBuffer].
    destruct (hexValue a); [| discriminate].
    destruct (hexValue b); [| discriminate].
    change (String.length (String a (String b rest)))
      with (S (S (String.length rest))).
    rewrite Nat.odd_succ_succ; cbn [List.length].
    specialize (IH H); lia.
Qed.

(** X4. Arguments that pass [validate] name a network, a refund
    address and a transit address that are not empty, both key
    indexes, and a partner key of 66 characters that decodes to the 33
    bytes of a compressed public key: a first byte 02 or 03 and 32
    more. *)
Theorem validate_accepts (args : Args.arguments) :
  validate args = Ok tt ->
  Args.ask args = true /\ Args.lnd args = true /\ Args.logger args = true /\
  given (Args.network args) = true /\
  given (Args.refund_address args) = true /\
  given (Args.transit_address args) = true /\
  Args.multisig_key_index args <> None /\
  Args.transit_key_index args <> None /\
  exists key rest,
    Args.partner_public_key args = Some key /\
    String.length key = 66%nat /\
    (hexAsBuffer key = x02 :: rest \/ hexAsBuffer key = x03 :: rest) /\
    List.length rest = 32%nat.
Proof.
  unfold validate.
  destruct (Args.ask args); [| discriminate].
  destruct (Args.lnd args); [| discriminate].
  destruct (Args.logger args); [| discriminate].
  destruct (given (Args.network args)); [| discriminate].
  destruct (Args.multisig_key_index args); [| discriminate].
  destruct (isPublicKey (Args.partner_public_key args)) eqn:K;
    [| discriminate].
  destruct (given (Args.refund_address args)); [| discriminate].
  destruct (given (Args.transit_address args)); [| discriminate].
  destruct (Args.transit_key_index args); [| discriminate].
  intros _; repeat (split; [reflexivity || discriminate |]).
  unfold isPublicKey in K; apply andb_prop in K; destruct K as [_ K].
  destruct (Args.partner_public_key args) as [[| c0 [| c1 rest]] |];
    try discriminate K.
  apply andb_prop in K; destruct K as [K0 K].
  apply andb_prop in K; destruct K as [K1 K].
  apply andb_prop in K; destruct K as [L H].
  apply Ascii.eqb_eq in K0; subst c0.
  apply Nat.eqb_eq in L.
  pose proof (allHex_decoded rest H) as D; rewrite L in D; cbn in D.
  exists (String "0" (String c1 rest)), (hexAsBuffer rest).
  split; [reflexivity |].
  split; [cbn [String.length]; now rewrite L |].
  split; [| lia].
  apply orb_prop in K1; destruct K1 as [K1 | K1];
    apply Ascii.eqb_eq in K1; subst c1; [left | right]; reflexivity.
Qed.

Lemma validate_accepts_witness :
  validate sampleArgs = Ok tt /\
  given (Args.network sampleArgs) = true.
Proof.
  assert (V : validate sampleArgs = Ok tt) by (vm_compute; reflexivity).
  split; [exact V |].
  exact (proj1 (proj2 (proj2 (proj2 (validate_accepts sampleArgs V))))).
Defined.

(** ** The route probes *)

Lemma runFrom_deaf (handler : Probe.state -> Probe.event -> Probe.state)
      (evs : list Probe.event) (st : Probe.state) :
  Probe.listening st = false -> Probe.runFrom handler st evs = st.
Proof.
  intros L; induction evs as [| ev evs IH]; [reflexivity |].
  unfold Probe.runFrom in *; cbn [fold_left].
  unfold Probe.deliver at 2; rewrite L; exact IH.
Qed.

Lemma deliver_listening (handler : Probe.state -> Probe.event -> Probe.state)
      (st : Probe.state) (ev : Probe.event) :
  Probe.listening st = true -> Probe.deliver handler st ev = handler st ev.
Proof. unfold Probe.deliver; now intros ->. Qed.

Lemma callbacks_app (a b : list Probe.effect) :
  Probe.callbacks (a ++ b) = Probe.callbacks a ++ Probe.callbacks b.
Proof.
  induction a as [| e a IH]; [reflexivity |].
  destruct e; cbn; congruence.
Qed.

Lemma payments_app (a b : list Probe.effect) :
  Probe.payments (a ++ b) = Probe.payments a ++ Probe.payments b.
Proof.
  induction a as [| e a IH]; [reflexivity |].
  destruct e; cbn; congruence.
Qed.

(** While no probe succeeds the handlers of [probeForRouteToNode] stay
    registered and call back once for every error and every end. *)
Lemma probe_failures (evs : list Probe.event) (st : Probe.state) :
  Probe.listening st = true ->
  Forall (fun ev => Probe.isSuccess ev = false) evs ->
  Probe.listening (Probe.runFrom Probe.onProbe st evs) = true /\
  Probe.callbacks (Probe.log (Probe.runFrom Probe.onProbe st evs))
  = Probe.callbacks (Probe.log st) ++ flat_map probeFailure evs.
Proof.
  intros L F; revert st L; induction F as [| ev evs S _ IH]; intros st L.
  - split; [exact L | now rewrite app_nil_r].
  - unfold Probe.runFrom in *; cbn [fold_left flat_map].
    rewrite !(deliver_listening _ st ev L).
    destruct (IH (Probe.onProbe st ev)) as [L' C'].
    + destruct ev; try discriminate S; exact L.
    + split; [exact L' |].
      rewrite C', app_assoc; f_equal.
      destruct ev; try discriminate S; cbn;
        rewrite ?callbacks_app, ?app_nil_r; reflexivity.
Qed.

Lemma push_failures (id : string) (evs : list Probe.event)
      (st : Probe.state) :
  Probe.listening st = true ->
  Forall (fun ev => Probe.isSuccess ev = false) evs ->
  Probe.listening (Probe.runFrom (Probe.onPush id) st evs) = true /\
  Probe.callbacks (Probe.log (Probe.runFrom (Probe.onPush id) st evs))
  = Probe.callbacks (Probe.log st) ++ flat_map pushFailure evs /\
  Probe.payments (Probe.log (Probe.runFrom (Probe.onPush id) st evs))
  = Probe.payments (Probe.log st).
Proof.
  intros L F; revert st L; induction F as [| ev evs S _ IH]; intros st L.
  - split; [exact L |]; split; [now rewrite app_nil_r | reflexivity].
  - unfold Probe.runFrom in *; cbn [fold_left flat_map].
    rewrite !(deliver_listening _ st ev L).
    destruct (IH (Probe.onPush id st ev)) as [L' [C' P']].
    + destruct ev; try discriminate S; exact L.
    + split; [exact L' |]; split.
      * rewrite C', app_assoc; f_equal.
        destruct ev; try discriminate S; cbn;
          rewrite ?callbacks_app, ?app_nil_r; reflexivity.
      * rewrite P'.
        destruct ev; try discriminate S; cbn;
          rewrite ?payments_app, ?app_nil_r; reflexivity.
Qed.

(** X5. In [probeForRouteToNode] the first successful probe removes the
    listeners and calls back without an error, and nothing that is
    emitted after it has any effect; when only progress was reported
    before it, that is the one call of the task callback. *)
Theorem probe_success_is_final (before after : list Probe.event)
        (route : string) :
  Forall (fun ev => Probe.isSuccess ev = false) before ->
  Probe.probeForRouteToNode (before ++ Probe.ProbeSuccess route :: after)
  = Probe.probeForRouteToNode (before ++ [Probe.ProbeSuccess route]) /\
  Probe.listening
    (Probe.probeForRouteToNode (before ++ Probe.ProbeSuccess route :: after))
  = false /\
  Probe.callbacks
    (Probe.log (Probe.probeForRouteToNode
                  (before ++ Probe.ProbeSuccess route :: after)))
  = flat_map probeFailure before ++ [Ok tt] /\
  (Forall (fun ev => Probe.progress ev = true) before ->
   Probe.callbacks
     (Probe.log (Probe.probeForRouteToNode
                   (before ++ Probe.ProbeSuccess route :: after)))
   = [Ok tt]).
Proof.
  intros F.
  destruct (probe_failures before Probe.start eq_refl F) as [L C].
  unfold Probe.probeForRouteToNode, Probe.runFrom in *.
  rewrite !fold_left_app; cbn [fold_left].
  set (st := fold_left (Probe.deliver Probe.onProbe) before Probe.start)
    in *.
  rewrite !(deliver_listening _ st _ L).
  assert (D : forall evs,
    fold_left (Probe.deliver Probe.onProbe) evs
              (Probe.onProbe st (Probe.ProbeSuccess route))
    = Probe.onProbe st (Probe.ProbeSuccess route))
    by (intros evs; now apply (runFrom_deaf Probe.onProbe)).
  rewrite !D.
  assert (E : Probe.callbacks
                (Probe.log (Probe.onProbe st (Probe.ProbeSuccess route)))
              = flat_map probeFailure before ++ [Ok tt]).
  { cbn; rewrite !callbacks_app, C; cbn; now rewrite app_nil_r. }
  split; [reflexivity |]; split; [reflexivity |]; split; [exact E |].
  intros P; rewrite E.
  replace (flat_map probeFailure before) with (@nil (result unit));
    [reflexivity |].
  clear - P; induction P as [| ev evs Pe _ IH]; [reflexivity |].
  destruct ev; try discriminate Pe; exact IH.
Qed.

Lemma probe_success_is_final_witness :
  Forall (fun ev => Probe.isSuccess ev = false)
         [Probe.Probing "a"; Probe.RoutingFailure "TemporaryChannelFailure"]
  /\
  Probe.callbacks
    (Probe.log (Probe.probeForRouteToNode
       ([Probe.Probing "a"; Probe.RoutingFailure "TemporaryChannelFailure"]
        ++ Probe.ProbeSuccess "b" :: [Probe.End])))
  = [Ok tt].
Proof.
  assert (F : Forall (fun ev => Probe.isSuccess ev = false)
         [Probe.Probing "a"; Probe.RoutingFailure "TemporaryChannelFailure"])
    by (repeat constructor).
  split; [exact F |].
  apply (proj2 (proj2 (proj2 (probe_success_is_final _ [Probe.End] "b" F)))).
  repeat constructor.
Defined.

(** X6. While no probe succeeds [probeForRouteToNode] keeps its
    listeners, and it calls the task callback once for every error,
    with that error, and once for every end, with
    [FailedToFindRouteToNode]: a stream that reports an error and then
    ends calls back twice. *)
Theorem probe_failure_calls_back (evs : list Probe.event) :
  Forall (fun ev => Probe.isSuccess ev = false) evs ->
  Probe.listening (Probe.probeForRouteToNode evs) = true /\
  Probe.callbacks (Probe.log (Probe.probeForRouteToNode evs))
  = flat_map probeFailure evs.
Proof.
  intros F; exact (probe_failures evs Probe.start eq_refl F).
Qed.

Lemma probe_failure_calls_back_witness :
  Forall (fun ev => Probe.isSuccess ev = false)
         [Probe.Probing "a"; Probe.Error (err2 503 "UnexpectedProbeError");
          Probe.End] /\
  Probe.callbacks
    (Probe.log (Probe.probeForRouteToNode
       [Probe.Probing "a"; Probe.Error (err2 503 "UnexpectedProbeError");
        Probe.End]))
  = [Err (err2 503 "UnexpectedProbeError");
     Err (err2 503 "FailedToFindRouteToNode")].
Proof.
  assert (F : Forall (fun ev => Probe.isSuccess ev = false)
         [Probe.Probing "a"; Probe.Error (err2 503 "UnexpectedProbeError");
          Probe.End]) by (repeat constructor).
  split; [exact F |].
  exact (proj2 (probe_failure_calls_back _ F)).
Defined.

(** X7. In [pushRequest] the request is paid at most once: on the
    route of the first successful probe, under the id of the request,
    after the listeners were removed; the task callback then belongs
    to the payment, and the handlers have only called it for the
    errors and ends before, with [MessageDeliveryFailedToNode] around
    the error and [OpenBalancedChannelMessageDeliveryFailedToNode]. *)
Theorem push_pays_first_route (id : string)
        (before after : list Probe.event) (route : string) :
  Forall (fun ev => Probe.isSuccess ev = false) before ->
  Probe.payments (Probe.log (Probe.pushRequest id before)) = [] /\
  Probe.payments
    (Probe.log (Probe.pushRequest id
                  (before ++ Probe.ProbeSuccess route :: after)))
  = [(id, [route])] /\
  Probe.callbacks
    (Probe.log (Probe.pushRequest id
                  (before ++ Probe.ProbeSuccess route :: after)))
  = flat_map pushFailure before /\
  Probe.listening
    (Probe.pushRequest id (before ++ Probe.ProbeSuccess route :: after))
  = false.
Proof.
  intros F.
  destruct (push_failures id before
              (Probe.does (Probe.LogInfo "refund_transaction") Probe.start)
              eq_refl F) as [L [C P]].
  unfold Probe.pushRequest, Probe.runFrom in *.
  split; [exact P |].
  rewrite !fold_left_app; cbn [fold_left].
  set (st := fold_left (Probe.deliver (Probe.onPush id)) before _) in *.
  rewrite !(deliver_listening _ st _ L).
  assert (D : fold_left (Probe.deliver (Probe.onPush id)) after
                (Probe.onPush id st (Probe.ProbeSuccess route))
              = Probe.onPush id st (Probe.ProbeSuccess route))
    by (now apply (runFrom_deaf (Probe.onPush id))).
  rewrite !D.
  split; [| split; [| reflexivity]].
  - cbn; rewrite !payments_app, P; reflexivity.
  - cbn; rewrite !callbacks_app, C; cbn; now rewrite !app_nil_r.
Qed.

Lemma push_pays_first_route_witness :
  Forall (fun ev => Probe.isSuccess ev = false) [Probe.Probing "a"] /\
  Probe.payments
    (Probe.log (Probe.pushRequest sampleInvoiceId
                  ([Probe.Probing "a"] ++ Probe.ProbeSuccess "b" ::
                   [Probe.ProbeSuccess "c"; Probe.End])))
  = [(sampleInvoiceId, ["b"%string])].
Proof.
  assert (F : Forall (fun ev => Probe.isSuccess ev = false)
                     [Probe.Probing "a"]) by (repeat constructor).
  split; [exact F |].
  exact (proj1 (proj2 (push_pays_first_route sampleInvoiceId _
                         [Probe.ProbeSuccess "c"; Probe.End] "b" F))).
Defined.

(** ** Transit funding, further *)

Lemma findIndexFrom_first {A : Type} (p : A -> bool) (pre post : list A)
      (x : A) (k : Z) :
  Forall (fun y => p y = false) pre -> p x = true ->
  findIndexFrom p (pre ++ x :: post) k = (k + Z.of_nat (List.length pre))%Z.
Proof.
  intros F X; revert k; induction F as [| y pre Y _ IH]; intros k.
  - cbn; rewrite X; lia.
  - cbn [app findIndexFrom List.length]; rewrite Y, IH; lia.
Qed.

Lemma at_index_middle {A : Type} (pre post : list A) (x : A) :
  at_index (pre ++ x :: post) (Z.of_nat (List.length pre)) = Some x.
Proof.
  unfold at_index.
  destruct (Z.ltb_spec (Z.of_nat (List.length pre)) 0); [lia |].
  rewrite Nat2Z.id, nth_error_app2, Nat.sub_diag by lia; reflexivity.
Qed.

(** X8. The first output of the wallet transaction that pays the
    transit script decides the funding task: when its value is the
    amount asked for, the task succeeds with the index of that output;
    when it is not, the task fails with
    [UnexpectedFundingAmountPayingToTransitAddress], whatever the
    outputs after it pay. *)
Theorem funding_decided_by_first_output
        (fromHex : string -> Tx.transaction) (transitOutput : list byte)
        (capacity : Z) (rate : Double.t) (res : funded) (fund : string)
        (pre post : list Tx.output) (out : Tx.output) :
  funded_transaction res = Some fund ->
  fund <> EmptyString ->
  Tx.outs (fromHex fund) = pre ++ out :: post ->
  Forall (fun o => Tx.script o <> transitOutput) pre ->
  Tx.script out = transitOutput ->
  askForFunding fromHex transitOutput capacity rate (Ok res)
  = if Double.strictEq (Double.ofZ (Tx.value out))
                       (fundingAmount (Double.ofZ capacity) rate)
    then
      (Ok {| tokens := fundingAmount (Double.ofZ capacity) rate;
             inputs := funded_inputs res;
             transaction := fund;
             transaction_id := funded_id res;
             transaction_vout := Z.of_nat (List.length pre) |},
       match funded_inputs res with
       | Some ins =>
           Some {| locks_id := funded_id res;
                   locks_inputs := ins;
                   locks_interval := 20000 |}
       | None => None
       end)
    else
      (Err (err2 400 "UnexpectedFundingAmountPayingToTransitAddress"),
       None).
Proof.
  intros T N O F S.
  unfold askForFunding; rewrite T.
  destruct fund as [| c fund]; [contradiction |].
  cbn [String.length Nat.eqb]; rewrite O.
  assert (I : findIndex (fun o => bytes_eqb (Tx.script o) transitOutput)
                        (pre ++ out :: post)
              = Z.of_nat (List.length pre)).
  { unfold findIndex; rewrite findIndexFrom_first; [lia | | ].
    - apply Forall_impl with (2 := F); intros o H.
      destruct (bytes_eqb (Tx.script o) transitOutput) eqn:E;
        [| reflexivity].
      apply bytes_eqb_eq in E; contradiction.
    - now apply bytes_eqb_eq. }
  rewrite I, at_index_middle.
  destruct (Z.eqb_spec (Z.of_nat (List.length pre)) notFoundIndex) as [E | _];
    [unfold notFoundIndex in E; lia |].
  destruct (Double.strictEq _ _); reflexivity.
Qed.

Lemma funding_decided_by_first_output_witness :
  askForFunding (fun _ => sampleSplitTx) sampleTransitOutput 2000000
                (Double.Int 10)
                (Ok sampleFunded)
  = (Err (err2 400 "UnexpectedFundingAmountPayingToTransitAddress"), None).
Proof.
  refine (eq_trans
    (funding_decided_by_first_output
       (fun _ => sampleSplitTx) sampleTransitOutput 2000000 (Double.Int 10)
       sampleFunded
       "02000000"
       [ {| Tx.script := [x00; x14] ++ repeat x22 20; Tx.value := 48000 |} ]
       [ {| Tx.script := sampleTransitOutput; Tx.value := 1000950 |} ]
       {| Tx.script := sampleTransitOutput; Tx.value := 950 |}
       eq_refl _ eq_refl _ eq_refl) _).
  - discriminate.
  - repeat constructor; discriminate.
  - vm_compute; reflexivity.
Defined.

(** X9. The funding task starts the maintenance of the locks only when
    it succeeds and the wallet reported the inputs it selected: then
    on those inputs, under the id of the wallet transaction, every 20
    seconds; a task that fails starts none. *)
Theorem locks_only_on_funded_inputs
        (fromHex : string -> Tx.transaction) (transitOutput : list byte)
        (capacity : Z) (rate : Double.t) (reply : result funded)
        (outcome : result transit) (locks : utxoLocks) :
  askForFunding fromHex transitOutput capacity rate reply
    = (outcome, Some locks) ->
  exists res funding,
    reply = Ok res /\ outcome = Ok funding /\
    funded_inputs res = Some (locks_inputs locks) /\
    inputs funding = Some (locks_inputs locks) /\
    locks_id locks = funded_id res /\
    locks_id locks = transaction_id funding /\
    locks_interval locks = 20000%Z.
Proof.
  unfold askForFunding.
  destruct reply as [res | e]; [| discriminate].
  destruct (funded_transaction res) as [fund |]; [| discriminate].
  destruct (String.length fund =? 0)%nat; [discriminate |].
  destruct (_ =? notFoundIndex)%Z; [discriminate |].
  destruct (at_index _ _) as [out |]; [| discriminate].
  destruct (negb _); [discriminate |].
  destruct (funded_inputs res) as [ins |] eqn:I; [| discriminate].
  intros H; injection H as <- <-.
  eexists res, _; repeat split; reflexivity || exact I.
Qed.

Lemma locks_only_on_funded_inputs_witness :
  askForFunding sampleFromHex sampleTransitOutput 2000000 (Double.Int 10)
    (Ok {| funded_id := funded_id sampleFunded;
           funded_inputs := Some [(sampleSecret, 0%Z)];
           funded_transaction := Some "02000000"%string |})
  = (Ok {| tokens := fundingAmount (Double.Int 2000000) (Double.Int 10);
           inputs := Some [(sampleSecret, 0%Z)];
           transaction := "02000000";
           transaction_id := funded_id sampleFunded;
           transaction_vout := 1 |},
     Some {| locks_id := funded_id sampleFunded;
             locks_inputs := [(sampleSecret, 0%Z)];
             locks_interval := 20000 |}) /\
  exists res funding,
    Ok {| funded_id := funded_id sampleFunded;
          funded_inputs := Some [(sampleSecret, 0%Z)];
          funded_transaction := Some "02000000"%string |} = Ok res /\
    Ok {| tokens := fundingAmount (Double.Int 2000000) (Double.Int 10);
          inputs := Some [(sampleSecret, 0%Z)];
          transaction := "02000000";
          transaction_id := funded_id sampleFunded;
          transaction_vout := 1 |} = Ok funding.
Proof.
  assert (A : askForFunding sampleFromHex sampleTransitOutput 2000000 (Double.Int 10)
    (Ok {| funded_id := funded_id sampleFunded;
           funded_inputs := Some [(sampleSecret, 0%Z)];
           funded_transaction := Some "02000000"%string |})
  = (Ok {| tokens := fundingAmount (Double.Int 2000000) (Double.Int 10);
           inputs := Some [(sampleSecret, 0%Z)];
           transaction := "02000000";
           transaction_id := funded_id sampleFunded;
           transaction_vout := 1 |},
     Some {| locks_id := funded_id sampleFunded;
             locks_inputs := [(sampleSecret, 0%Z)];
             locks_interval := 20000 |})) by (vm_compute; reflexivity).
  split; [exact A |].
  destruct (locks_only_on_funded_inputs _ _ _ _ _ _ _ A)
    as [res [funding [R [O _]]]].
  exists res, funding; split; assumption.
Defined.

(** ** The acceptance wait, further *)

Lemma find_first {A : Type} (p : A -> bool) (pre post : list A) (x : A) :
  Forall (fun y => p y = false) pre -> p x = true ->
  find p (pre ++ x :: post) = Some x.
Proof.
  intros F X; induction F as [| y pre Y _ IH]; cbn; [now rewrite X |].
  now rewrite Y.
Qed.

(** X10. Whatever is emitted while [waitForAccept] waits, with either
    service: as long as the task callback has not been called the
    invoice is listened to; once it has been called, with an
    acceptance or with an error, neither the invoice nor the peer
    requests are listened to any more, and it is not called again,
    with one exception: a callback that throws at the acceptance is
    called a second time by the [catch] of the handler, with the
    message of what was thrown. *)
Theorem wait_calls_back_at_most_once
        (partner id : string) (mst : N)
        (parser : list record -> string + acceptance)
        (cbkThrows : acceptance -> option string) (p2p : service)
        (evs : list Wait.event) :
  let calls :=
    Wait.resolutions
      (Wait.log (Wait.run partner id mst parser cbkThrows p2p evs)) in
  (calls = [] \/
   (exists res,
      calls = [res] /\ forall a, res = Ok a -> cbkThrows a = None) \/
   (exists a m,
      calls = [Ok a; Err (err2 503 m)] /\ cbkThrows a = Some m)) /\
  ((forall a, cbkThrows a = None) -> (List.length calls <= 1)%nat) /\
  (calls = [] ->
   Wait.sub_listening (Wait.run partner id mst parser cbkThrows p2p evs)
   = true) /\
  (calls <> [] ->
   quiet (Wait.run partner id mst parser cbkThrows p2p evs)).
Proof.
  intros calls; subst calls.
  destruct (run_once partner id mst parser cbkThrows p2p evs)
    as [[R S] | [Q C]].
  - rewrite R; split; [now left |].
    split; [intros _; cbn; lia |].
    split; [auto | intros H; now contradiction H].
  - split; [right; exact C |].
    split; [intros T; now apply resolutions_at_most_once |].
    split; [| auto].
    intros R; rewrite R in C.
    destruct C as [[res [C _]] | [a [m [C _]]]]; discriminate C.
Qed.

(** X11. A direct message of the partner for this invoice whose records
    do not parse still ends the wait: the listeners are removed, the
    invoice is cancelled, the peer is told of the failure with the
    message of the parser, never of a success, and the task fails with
    that same error. *)
Theorem malformed_request_fails_the_wait
        (partner id : string) (mst : N)
        (parser : list record -> string + acceptance)
        (cbkThrows : acceptance -> option string)
        (st : Wait.state) (req : Wait.peerRequest) (r : record)
        (message : string) :
  Wait.p2p_listening st = true ->
  Wait.from req = partner ->
  Wait.idRecordOf req = Some r ->
  value r = id ->
  parser (Wait.records req) = inl message ->
  Wait.log (Wait.deliver partner id mst parser cbkThrows PeerRequests st
                         (Wait.PeerRequest req))
  = Wait.log st ++
    [ Wait.SubRemoveAllListeners;
      Wait.P2pStop;
      Wait.CancelHodlInvoice id;
      Wait.LogInfo "received_balanced_channel_acceptance";
      Wait.ResFailure (err2 503 message);
      Wait.Cbk (Err (err2 503 message)) ] /\
  quiet (Wait.deliver partner id mst parser cbkThrows PeerRequests st
                      (Wait.PeerRequest req)).
Proof.
  intros L F I V P.
  cbn [Wait.deliver]; rewrite L; unfold Wait.onRequest.
  rewrite I, P, V, F, !String.eqb_refl; cbn [negb].
  split; [cbn; rewrite <- !app_assoc; reflexivity | split; reflexivity].
Qed.

Lemma malformed_request_fails_the_wait_witness :
  Wait.resolutions
    (Wait.log (Wait.deliver samplePartner sampleInvoiceId 80505
                            sampleAcceptDetails returns PeerRequests
                            (Wait.start PeerRequests)
                            (Wait.PeerRequest sampleBareRequest)))
  = [Err (err2 503 "ExpectedAcceptDetailsRecords")].
Proof.
  rewrite (proj1 (malformed_request_fails_the_wait
                    samplePartner sampleInvoiceId 80505 sampleAcceptDetails returns
                    (Wait.start PeerRequests) sampleBareRequest
                    {| type := 0; value := sampleInvoiceId |}
                    "ExpectedAcceptDetailsRecords"
                    eq_refl eq_refl eq_refl eq_refl eq_refl)).
  reflexivity.
Defined.

(** X12. When the invoice is confirmed, the first of its payments that
    carries a record of the multisig key type decides, whatever the
    later payments carry: the task resolves with the acceptance parsed
    from the records of that payment, or fails with the message of the
    parser; when the task callback throws at the acceptance the
    handler calls it once more, with the message of what was thrown;
    the peer is told nothing on this path. *)
Theorem settlement_decided_by_first_payment
        (partner id : string) (mst : N)
        (parser : list record -> string + acceptance)
        (cbkThrows : acceptance -> option string) (p2p : service)
        (st : Wait.state) (updated : Wait.invoice)
        (pre post : list Wait.invoicePayment) (payment : Wait.invoicePayment) :
  Wait.sub_listening st = true ->
  Wait.is_confirmed updated = true ->
  Wait.payments updated = pre ++ payment :: post ->
  Forall (fun p => Wait.hasMultiSig mst p = false) pre ->
  Wait.hasMultiSig mst payment = true ->
  Wait.log (Wait.deliver partner id mst parser cbkThrows p2p st
                         (Wait.InvoiceUpdated updated))
  = Wait.log st ++
    [ Wait.LogInfo "received_peer_balanced_channel_acceptance";
      Wait.SubRemoveAllListeners;
      Wait.P2pStop ] ++
    match parser (Wait.payment_messages payment) with
    | inr acceptance =>
        Wait.Cbk (Ok acceptance) ::
        match cbkThrows acceptance with
        | Some message => [Wait.Cbk (Err (err2 503 message))]
        | None => []
        end
    | inl message => [Wait.Cbk (Err (err2 503 message))]
    end.
Proof.
  intros S C P F H.
  cbn [Wait.deliver]; rewrite S; unfold Wait.onInvoiceUpdated.
  rewrite C, P, (find_first _ pre post payment F H); cbn [negb].
  destruct (parser (Wait.payment_messages payment)) as [m | a];
    [| destruct (cbkThrows a)];
    destruct p2p; cbn; rewrite <- !app_assoc; reflexivity.
Qed.

Lemma settlement_decided_by_first_payment_witness :
  Wait.resolutions
    (Wait.log (Wait.deliver samplePartner sampleInvoiceId 80505
                 sampleAcceptDetails returns PeerRequests
                 (Wait.start PeerRequests)
                 (Wait.InvoiceUpdated sampleMixedSettlement)))
  = [Err (err2 503 "ExpectedAcceptDetailsRecords")].
Proof.
  rewrite (settlement_decided_by_first_payment
             samplePartner sampleInvoiceId 80505 sampleAcceptDetails returns
             PeerRequests (Wait.start PeerRequests) sampleMixedSettlement
             (Wait.payments sampleBareSettlement)
             (Wait.payments sampleSettlement)
             {| Wait.payment_messages :=
                  [ {| type := 80505; value := samplePartner |} ] |}
             eq_refl eq_refl eq_refl
             ltac:(repeat constructor) eq_refl).
  reflexivity.
Defined.

(** ** The task graph, further *)

Lemma step_finished_started (s s' : state) (ev : event) :
  (forall t, In t (finished s) -> In t (started s)) ->
  step s ev = Some s' ->
  forall t, In t (finished s') -> In t (started s').
Proof.
  intros H; destruct ev as [t' | t' r]; cbn [step].
  - destruct (ready s t'); [| discriminate].
    intros E; injection E as <-; cbn [started finished].
    intros t I; apply in_or_app; left; now apply H.
  - destruct (running s t') eqn:R; [| discriminate].
    apply running_started in R; destruct R as [R _].
    destruct (callback t' r) as [[res | e] |]; [| | discriminate];
      intros E; injection E as <-; cbn [started finished]; [| exact H].
    intros t I; apply in_app_or in I; destruct I as [I | [<- | []]];
      [now apply H | exact R].
Qed.

Lemma exec_finished_started (evs : list event) (s s' : state) :
  (forall t, In t (finished s) -> In t (started s)) ->
  exec s evs = Some s' ->
  forall t, In t (finished s') -> In t (started s').
Proof.
  revert s; induction evs as [| ev evs IH]; intros s H; cbn.
  - intros E; injection E as <-; exact H.
  - destruct (step s ev) as [s1 |] eqn:E; [| discriminate].
    apply IH; now apply step_finished_started with s ev.
Qed.

Lemma upstream_finished (s : state) (fuel : nat) :
  (forall t d, In t (started s) -> waitsFor t d -> In d (finished s)) ->
  (forall t, In t (finished s) -> In t (started s)) ->
  forall t d, In t (started s) -> In d (upstream fuel t) ->
              In d (finished s).
Proof.
  intros D F; induction fuel as [| fuel IH]; intros t d S U;
    [contradiction |].
  cbn [upstream] in U.
  destruct (lookup t) as [deps |] eqn:L; [| contradiction].
  apply in_app_or in U; destruct U as [U | U].
  - apply D with t; [assumption | now exists deps].
  - apply in_flat_map in U; destruct U as [d' [I U]].
    apply IH with d'; [| assumption].
    apply F, D with t; [assumption | now exists deps].
Qed.

Lemma nothing_waits_for (leaf t : string) :
  forallb (fun entry => negb (inb leaf (snd entry))) tasks = true ->
  ~ waitsFor t leaf.
Proof.
  intros C [deps [L I]]; unfold lookup in L.
  destruct (find _ tasks) as [entry |] eqn:E; [| discriminate].
  injection L as <-; apply find_some in E; destruct E as [E _].
  rewrite forallb_forall in C; specialize (C entry E).
  apply inb_In in I; rewrite I in C; discriminate.
Qed.

(** X13. In every run of the task graph a task that has been run finds
    every task upstream of it finished, directly awaited or not: so
    the channel is proposed only after the refund transaction was
    derived and the peer accepted, and the wallet is asked for funds
    only after the peer was connected and probed.  The channel open
    test and the inbound liquidity check are awaited by no task: they
    can only fail the run, they hold nothing back. *)
Theorem tasks_run_after_everything_upstream
        (evs : list event) (s : state) (t d : string) :
  run evs = Some s ->
  In t (started s) ->
  In d (upstream 25 t) ->
  In d (finished s) /\
  In "getRefundTransaction"%string (upstream 25 "propose") /\
  In "waitForAccept"%string (upstream 25 "propose") /\
  In "connect"%string (upstream 25 "askForFunding") /\
  In "probeForRouteToNode"%string (upstream 25 "askForFunding") /\
  (forall t', ~ waitsFor t' "testOpenChannel") /\
  (forall t', ~ waitsFor t' "confirmInboundChannel").
Proof.
  intros R S U.
  split.
  { pose proof (invariant_run _ _ R) as [D _ _ _ _].
    apply (upstream_finished s 25 D) with t; try assumption.
    apply (exec_finished_started evs initial s); [| exact R].
    intros t' []. }
  repeat split;
    try (intros t'; apply nothing_waits_for; vm_compute; reflexivity);
    apply inb_In; vm_compute; reflexivity.
Qed.

Lemma tasks_run_after_everything_upstream_witness :
  In "askForFunding"%string
     [ "validate"; "getChainFee"; "getChannels"; "getMultiSigKey";
       "connect"; "getTransitKey"; "probeForRouteToNode"; "network";
       "askForCapacity"; "testOpenChannel"; "askForFeeRate";
       "askForFunding" ]%string /\
  In "probeForRouteToNode"%string (upstream 25 "askForFunding") /\
  In "probeForRouteToNode"%string
     [ "validate"; "network"; "connect"; "probeForRouteToNode";
       "askForCapacity"; "getChainFee"; "askForFeeRate" ]%string.
Proof.
  assert (R : run fundingRun =
    Some {| started :=
              [ "validate"; "getChainFee"; "getChannels"; "getMultiSigKey";
                "connect"; "getTransitKey"; "probeForRouteToNode";
                "network"; "askForCapacity"; "testOpenChannel";
                "askForFeeRate"; "askForFunding" ]%string;
            finished :=
              [ "validate"; "network"; "connect"; "probeForRouteToNode";
                "askForCapacity"; "getChainFee"; "askForFeeRate" ]%string;
            failed := [];
            hasError := None;
            capacity := Some 2000000%Z;
            gives := [Some 2000000%Z] |}) by (vm_compute; reflexivity).
  assert (S : In "askForFunding"%string
     [ "validate"; "getChainFee"; "getChannels"; "getMultiSigKey";
       "connect"; "getTransitKey"; "probeForRouteToNode"; "network";
       "askForCapacity"; "testOpenChannel"; "askForFeeRate";
       "askForFunding" ]%string) by (apply inb_In; vm_compute; reflexivity).
  assert (U : In "probeForRouteToNode"%string (upstream 25 "askForFunding"))
    by (apply inb_In; vm_compute; reflexivity).
  split; [exact S |]; split; [exact U |].
  exact (proj1 (tasks_run_after_everything_upstream
                  fundingRun _ "askForFunding" "probeForRouteToNode"
                  R S U)).
Defined.

(** ** Signing and proposing *)

Lemma bytes_eqb_sym (a b : list byte) : bytes_eqb a b = bytes_eqb b a.
Proof.
  destruct (bytes_eqb a b) eqn:E.
  - apply bytes_eqb_eq in E; subst; symmetry; apply bytes_eqb_refl.
  - destruct (bytes_eqb b a) eqn:E'; [| reflexivity].
    apply bytes_eqb_eq in E'; subst; now rewrite bytes_eqb_refl in E.
Qed.

Lemma outpoint_distinct (id id' : string) (vout vout' : Z) :
  outpoint id vout <> outpoint id' vout' ->
  (if negb (vout =? vout')%Z then false
   else bytes_eqb (idAsHash id) (idAsHash id')) = false.
Proof.
  intros D; destruct (Z.eqb_spec vout vout') as [-> | _]; [| reflexivity].
  cbn [negb]; destruct (bytes_eqb _ _) eqn:E; [| reflexivity].
  apply bytes_eqb_eq in E; contradiction D; unfold outpoint; now rewrite E.
Qed.

(** The joint transaction before the own signature, when the two
    outpoints differ and bitcoinjs takes them and the capacity. *)
Lemma halfSign_distinct (capacity : Z) (funding : transit)
      (address : fundingAddress) (waitForAccept : acceptance) :
  outpoint (transaction_id funding) (transaction_vout funding)
  <> outpoint (accept_transaction_id waitForAccept)
              (accept_transaction_vout waitForAccept) ->
  isOutpoint (transaction_id funding) (transaction_vout funding) = true ->
  isOutpoint (accept_transaction_id waitForAccept)
             (accept_transaction_vout waitForAccept) = true ->
  Tx.isSatoshi capacity = true ->
  halfSign capacity funding address waitForAccept
  = Some (jointTransaction capacity funding address waitForAccept []).
Proof.
  intros D Own Peer Sat; pose proof (outpoint_distinct _ _ _ _ D) as T.
  unfold halfSign, halfSignFrom, jointTransaction, jointInputs, spending,
    peerWitness in *.
  cbn [map fst snd Js.sort Js.insert].
  destruct (byOutpoint _ _);
    cbn [addInputs fold_left Tx.hash Tx.index Tx.sequence];
    rewrite ?(addInput_outpoint _ _ _ Own), ?(addInput_outpoint _ _ _ Peer);
    rewrite ?(addInput_outpoint _ _ _ Own), ?(addInput_outpoint _ _ _ Peer);
    cbn [Tx.new Tx.ins Tx.outs Tx.version Tx.locktime app];
    unfold findIndex; cbn [findIndexFrom Tx.hash Tx.index];
    rewrite ?T, ?Z.eqb_refl, ?bytes_eqb_refl; cbn [negb];
    unfold Tx.addOutput; cbn; rewrite Sat;
    reflexivity.
Qed.

(** X14. Take an outpoint of the peer that is not the own transit
    outpoint.  [halfSign] returns exactly when bitcoinjs takes both
    outpoints (an id of 32 bytes, an index of 32 bits) and the
    capacity (a number of satoshis); otherwise it throws.  When it
    returns, the signing request designates the own transit input of
    its transaction, and [fullySignedFunding] returns a transaction
    whose two inputs are in the order of [halfSign], the input of the
    peer with the signature and the key of the peer and the own input
    with the own signature, ended by the byte of the signature hash
    flag, and the transit key; its only output pays the capacity to the
    funding script and is reported as output 0. *)
Theorem funding_carries_both_witnesses
        (toHex getId : Tx.transaction -> string)
        (outputScript witnessScript : list byte)
        (transit_key_index capacity : Z) (rate : Double.t)
        (funding : transit)
        (address : fundingAddress) (waitForAccept : acceptance)
        (transitKey signature : string) (more : list string) :
  outpoint (transaction_id funding) (transaction_vout funding)
  <> outpoint (accept_transaction_id waitForAccept)
              (accept_transaction_vout waitForAccept) ->
  let taken :=
    andb (isOutpoint (transaction_id funding) (transaction_vout funding))
         (andb (isOutpoint (accept_transaction_id waitForAccept)
                           (accept_transaction_vout waitForAccept))
               (Tx.isSatoshi capacity)) in
  let half := jointTransaction capacity funding address waitForAccept [] in
  let signed :=
    jointTransaction capacity funding address waitForAccept
                     (ownWitness signature transitKey) in
  halfSign capacity funding address waitForAccept
  = (if taken then Some half else None) /\
  (exists input,
     signedInput (signChannelFunding toHex outputScript witnessScript
                    transit_key_index capacity rate funding half)
     = Some input /\
     at_index (Tx.ins half) (Sign.vin input)
     = Some (spending (transaction_id funding) (transaction_vout funding)
                      [])) /\
  signFunding funding transitKey half (signature :: more) = Some signed /\
  fullySignedFunding toHex getId capacity funding address transitKey half
                     (signature :: more)
  = Some {| Signed.transaction := toHex signed;
            Signed.transaction_id := getId signed;
            Signed.transaction_vout := 0 |}.
Proof.
  intros D taken half signed; pose proof (outpoint_distinct _ _ _ _ D) as T.
  assert (T' : (if negb (accept_transaction_vout waitForAccept
                         =? transaction_vout funding)%Z then false
                else bytes_eqb (idAsHash (accept_transaction_id waitForAccept))
                               (idAsHash (transaction_id funding))) = false).
  { rewrite Z.eqb_sym, bytes_eqb_sym; exact T. }
  split.
  { subst taken.
    destruct (isOutpoint (transaction_id funding) (transaction_vout funding))
      eqn:Own;
      [destruct (isOutpoint (accept_transaction_id waitForAccept)
                            (accept_transaction_vout waitForAccept)) eqn:Peer;
       [destruct (Tx.isSatoshi capacity) eqn:Sat |] |];
      cbn [andb];
      [exact (halfSign_distinct capacity funding address waitForAccept
                                D Own Peer Sat) | | |];
      (destruct (halfSign capacity funding address waitForAccept)
         as [tx |] eqn:H; [| reflexivity]);
      apply halfSign_taken in H; destruct H as [H1 [H2 H3]]; congruence. }
  subst half signed.
  unfold fullySignedFunding, signFunding, signChannelFunding, signedInput,
    vinOf, voutOf, findIndex, ownWitness, sigHashAll, jointTransaction,
    jointInputs.
  cbn [Sign.inputs Sign.vin Tx.ins Tx.outs].
  destruct (byOutpoint _ _);
    unfold spending in *;
    cbn [findIndexFrom Tx.hash Tx.index];
    rewrite ?T, ?T', ?Z.eqb_refl, ?bytes_eqb_refl; cbn [negb];
    cbn; change (Pos.to_nat 1) with 1%nat;
    do 2 (rewrite ?Z.eqb_refl, ?bytes_eqb_refl; cbn);
    (split; [eexists; split; reflexivity |]);
    split; reflexivity.
Qed.

Lemma funding_carries_both_witnesses_witness :
  outpoint (transaction_id sampleTransit) (transaction_vout sampleTransit)
  <> outpoint (accept_transaction_id sampleAcceptance)
              (accept_transaction_vout sampleAcceptance) /\
  halfSign 2000000 sampleTransit sampleAddress sampleAcceptance
  = Some (jointTransaction 2000000 sampleTransit sampleAddress
                           sampleAcceptance []) /\
  fullySignedFunding sampleToHex sampleGetId 2000000 sampleTransit
                     sampleAddress sampleOwnKey
                     (jointTransaction 2000000 sampleTransit sampleAddress
                                       sampleAcceptance [])
                     [sampleSignature]
  = Some {| Signed.transaction := sampleToHex sampleSigned;
            Signed.transaction_id := sampleGetId sampleSigned;
            Signed.transaction_vout := 0 |}.
Proof.
  assert (D : outpoint (transaction_id sampleTransit)
                       (transaction_vout sampleTransit)
              <> outpoint (accept_transaction_id sampleAcceptance)
                          (accept_transaction_vout sampleAcceptance)).
  { intros H; apply (f_equal (fun p => hd x00 (fst p))) in H.
    vm_compute in H; discriminate H. }
  split; [exact D |].
  pose proof (funding_carries_both_witnesses sampleToHex sampleGetId [] [] 0
                2000000 (Double.Int 10) sampleTransit sampleAddress
                sampleAcceptance sampleOwnKey sampleSignature [] D)
    as [H [_ [_ F]]].
  split; [exact H | exact F].
Defined.

Lemma byOutpoint_same (a b : Tx.input) :
  Tx.hash a = Tx.hash b -> Tx.index a = Tx.index b -> byOutpoint a b = Eq.
Proof.
  unfold byOutpoint; intros -> ->.
  pose proof (String.compare_antisym (bufferAsHex (Tx.hash b))
                                     (bufferAsHex (Tx.hash b))) as A.
  destruct (String.compare _ _); try discriminate A.
  apply Z.compare_refl.
Qed.

(** X15. The tasks never compare the outpoint of the peer with the own
    transit outpoint.  When the peer names the own outpoint, which is
    one that bitcoinjs takes, as the capacity is, the transaction
    spends it twice; the witness of the peer is set on the first input
    and then replaced by the own witness, the second input stays
    without a witness, and [fullySignedFunding] still returns. *)
Theorem echoed_outpoint_loses_peer_witness
        (toHex getId : Tx.transaction -> string)
        (capacity : Z) (funding : transit) (address : fundingAddress)
        (waitForAccept : acceptance) (transitKey signature : string)
        (more : list string) :
  outpoint (accept_transaction_id waitForAccept)
           (accept_transaction_vout waitForAccept)
  = outpoint (transaction_id funding) (transaction_vout funding) ->
  isOutpoint (transaction_id funding) (transaction_vout funding) = true ->
  Tx.isSatoshi capacity = true ->
  exists half signed,
    halfSign capacity funding address waitForAccept = Some half /\
    signFunding funding transitKey half (signature :: more) = Some signed /\
    Tx.ins signed
    = [ spending (transaction_id funding) (transaction_vout funding)
                 (ownWitness signature transitKey);
        spending (transaction_id funding) (transaction_vout funding) [] ] /\
    fullySignedFunding toHex getId capacity funding address transitKey half
                       (signature :: more)
    = Some {| Signed.transaction := toHex signed;
              Signed.transaction_id := getId signed;
              Signed.transaction_vout := 0 |}.
Proof.
  unfold outpoint; intros H Own Sat; injection H as Hh Hv.
  pose proof (addInput_outpoint) as A.
  unfold halfSign, halfSignFrom.
  cbn [map fst snd]; rewrite Hh, Hv.
  cbn [Js.sort Js.insert].
  rewrite byOutpoint_same by reflexivity.
  cbn [addInputs fold_left Tx.hash Tx.index Tx.sequence].
  rewrite !(A _ _ _ Own).
  cbn [Tx.new Tx.ins Tx.outs Tx.version Tx.locktime app].
  unfold findIndex; cbn [findIndexFrom Tx.hash Tx.index].
  rewrite Z.eqb_refl, bytes_eqb_refl; cbn [negb].
  unfold Tx.addOutput; cbn; rewrite Sat.
  eexists; eexists.
  split; [reflexivity |].
  unfold fullySignedFunding, signFunding, vinOf, voutOf, findIndex.
  do 3 (cbn; rewrite ?Z.eqb_refl, ?bytes_eqb_refl).
  repeat split; reflexivity.
Qed.

Lemma echoed_outpoint_loses_peer_witness_witness :
  exists half signed,
    halfSign 2000000 sampleTransit sampleAddress sampleEcho = Some half /\
    signFunding sampleTransit sampleOwnKey half [sampleSignature]
    = Some signed /\
    witnesses signed = [ownWitness sampleSignature sampleOwnKey; []].
Proof.
  destruct (echoed_outpoint_loses_peer_witness sampleToHex sampleGetId
              2000000 sampleTransit sampleAddress sampleEcho sampleOwnKey
              sampleSignature [] eq_refl eq_refl eq_refl)
    as [half [signed [H [S [I _]]]]].
  exists half, signed; split; [exact H |]; split; [exact S |].
  unfold witnesses; rewrite I; reflexivity.
Defined.

(** X16. For a whole fee rate the amount that [signChannelFunding]
    has signed for the transit input is the value of the output that
    the input spends: for a capacity that the prompt accepted, a whole
    rate with [|capacity| + 190 * |rate|] below [2^53] and a transit
    transaction that [askForFunding] accepted, the request has one
    input, for a key of family 805 and all of the transaction
    (signature hash flag 1), and its [output_tokens] and
    [output_script] are the value and the script of the output of the
    transit transaction at [transaction_vout]; that value is the
    amount asked of the wallet, [capacity / 2 + 95 * rate].  The rate
    has to be whole: at the rate 2.2 and a capacity of 2,000,000 the
    wallet is asked for 1,000,209 and the signature for 1,000,210. *)
Theorem signature_covers_transit_output
        (toHex : Tx.transaction -> string)
        (fromHex : string -> Tx.transaction)
        (transitOutput witnessScript : list byte)
        (transit_key_index : Z) (capacityAnswer : number)
        (capacity rate : Z) (reply : result funded) (funding : transit)
        (locks : option utxoLocks) (half : Tx.transaction) :
  askForCapacity capacityAnswer = Ok capacity ->
  (Z.abs capacity + 190 * Z.abs rate < 2 ^ 53)%Z ->
  askForFunding fromHex transitOutput capacity (Double.Int rate) reply
    = (Ok funding, locks) ->
  (exists input out,
     Sign.inputs (signChannelFunding toHex transitOutput witnessScript
                    transit_key_index capacity (Double.Int rate) funding
                    half)
     = [input] /\
     Sign.key_family input = 805%Z /\
     Sign.key_index input = transit_key_index /\
     Sign.sighash input = 1%Z /\
     at_index (Tx.outs (fromHex (transaction funding)))
              (transaction_vout funding) = Some out /\
     Sign.output_tokens input = Double.ofZ (Tx.value out) /\
     Sign.output_script input = bufferAsHex (Tx.script out) /\
     Sign.output_tokens input = tokens funding /\
     tokens funding = Double.Int (capacity / 2 + 95 * rate)) /\
  Double.add (Double.ofZ (giveTokens 2000000))
             (fundingFee sampleFractionalRate) = Double.Int 1000210 /\
  fundingAmount (Double.ofZ 2000000) sampleFractionalRate
  = Double.Int 1000209.
Proof.
  intros C B F.
  split; [| split; vm_compute; reflexivity].
  apply askForCapacity_Ok in C; destruct C as [_ C].
  unfold askForFunding in F.
  destruct reply as [res | e]; [| discriminate].
  destruct (funded_transaction res) as [fund |] eqn:T; [| discriminate].
  destruct (String.length fund =? 0)%nat; [discriminate |].
  set (p := fun o => bytes_eqb (Tx.script o) transitOutput) in F.
  destruct (Z.eqb_spec (findIndex p (Tx.outs (fromHex fund))) notFoundIndex)
    as [| N]; [discriminate |].
  destruct (at_index (Tx.outs (fromHex fund))
                     (findIndex p (Tx.outs (fromHex fund))))
    as [out |] eqn:O; [| discriminate].
  destruct (Double.strictEq (Double.ofZ (Tx.value out))
                            (fundingAmount (Double.ofZ capacity)
                                           (Double.Int rate))) eqn:V;
    [| discriminate].
  cbn [negb] in F; injection F as <- _.
  cbn [transaction transaction_vout tokens].
  destruct (findIndex_found p _ out N O) as [_ P].
  apply bytes_eqb_eq in P; apply strictEq_eq in V.
  assert (S : Double.add (Double.ofZ (giveTokens capacity))
                         (fundingFee (Double.Int rate))
              = fundingAmount (Double.ofZ capacity) (Double.Int rate)).
  { rewrite (even_double capacity C).
    apply signed_amount_is_funding_amount.
    rewrite <- (even_double capacity C); exact B. }
  assert (W : fundingAmount (Double.ofZ capacity) (Double.Int rate)
              = Double.Int (capacity / 2 + 95 * rate)).
  { rewrite (even_double capacity C) at 1.
    apply fundingAmount_whole.
    rewrite <- (even_double capacity C); exact B. }
  eexists; exists out.
  split; [reflexivity |].
  cbn [Sign.key_family Sign.key_index Sign.sighash Sign.output_tokens
       Sign.output_script].
  repeat (split; [reflexivity || exact O |]).
  split; [now rewrite V |].
  split; [now rewrite P |].
  split; [exact S | exact W].
Qed.

Lemma signature_covers_transit_output_witness :
  exists input,
    Sign.inputs (signChannelFunding sampleToHex sampleTransitOutput [] 0
                   2000000 (Double.Int 10) sampleTransit
                   (jointTransaction 2000000 sampleTransit sampleAddress
                                     sampleAcceptance []))
    = [input] /\
    Sign.output_tokens input = Double.Int 1000950.
Proof.
  assert (C : askForCapacity (Int 2000000) = Ok 2000000%Z) by reflexivity.
  assert (B : (Z.abs 2000000 + 190 * Z.abs 10 < 2 ^ 53)%Z)
    by (vm_compute; reflexivity).
  assert (F : askForFunding sampleFromHex sampleTransitOutput 2000000
                (Double.Int 10) (Ok sampleFunded)
              = (Ok sampleTransit, None))
    by (vm_compute; reflexivity).
  destruct (proj1 (signature_covers_transit_output sampleToHex sampleFromHex
              sampleTransitOutput [] 0 (Int 2000000) 2000000 10
              (Ok sampleFunded) sampleTransit None
              (jointTransaction 2000000 sampleTransit sampleAddress
                                sampleAcceptance [])
              C B F))
    as [input [out [I [_ [_ [_ [_ [_ [_ [S W]]]]]]]]]].
  exists input; split; [exact I |].
  rewrite S, W; reflexivity.
Defined.

(** X17. The channel that is proposed to the peer is the channel that
    the service reports: when the transaction of [fullySignedFunding]
    is parsed back from its serialization as it was, [propose] gives
    [proposeChannel] the transaction id and the output index of the
    result of [fullySignedFunding], which are those of the result of
    [initiated]; the transactions of that result are the transit
    transaction and the funding transaction, in this order. *)
Theorem proposal_is_the_reported_channel
        (toHex getId : Tx.transaction -> string)
        (fromHex : string -> Tx.transaction)
        (multisig_key_index : Z) (partner_public_key : string)
        (capacity : Z) (funding : transit) (address : fundingAddress)
        (transitKey : string) (half tx : Tx.transaction)
        (signatures : list string) (waitForAccept : acceptance) :
  signFunding funding transitKey half signatures = Some tx ->
  fromHex (toHex tx) = tx ->
  exists signed,
    fullySignedFunding toHex getId capacity funding address transitKey half
                       signatures = Some signed /\
    let proposal :=
      propose getId fromHex multisig_key_index partner_public_key capacity
              address signed waitForAccept in
    let opening := initiated funding signed in
    Propose.transaction_id proposal = getId tx /\
    Propose.transaction_vout proposal = voutOf tx capacity address /\
    Initiated.transaction_id opening = Propose.transaction_id proposal /\
    Initiated.transaction_vout opening = Propose.transaction_vout proposal /\
    Initiated.transactions opening = [transaction funding; toHex tx] /\
    Propose.remote_key proposal = accept_multisig_public_key waitForAccept /\
    Propose.id proposal = address_hash address.
Proof.
  intros S R; unfold fullySignedFunding; rewrite S.
  eexists; split; [reflexivity |].
  unfold propose, initiated;
    cbn [Signed.transaction Signed.transaction_id Signed.transaction_vout
         Propose.transaction_id Propose.transaction_vout Propose.remote_key
         Propose.id Initiated.transaction_id Initiated.transaction_vout
         Initiated.transactions].
  rewrite R; repeat split; reflexivity.
Qed.

Lemma proposal_is_the_reported_channel_witness :
  exists signed,
    fullySignedFunding sampleToHex sampleGetId 2000000 sampleTransit
                       sampleAddress sampleOwnKey
                       (jointTransaction 2000000 sampleTransit sampleAddress
                                         sampleAcceptance [])
                       [sampleSignature] = Some signed /\
    Propose.transaction_vout
      (propose sampleGetId sampleFromSignedHex 0 samplePartner 2000000
               sampleAddress signed sampleAcceptance)
    = voutOf sampleSigned 2000000 sampleAddress.
Proof.
  assert (S : signFunding sampleTransit sampleOwnKey
                (jointTransaction 2000000 sampleTransit sampleAddress
                                  sampleAcceptance [])
                [sampleSignature] = Some sampleSigned)
    by (vm_compute; reflexivity).
  destruct (proposal_is_the_reported_channel sampleToHex sampleGetId
              sampleFromSignedHex 0 samplePartner 2000000 sampleTransit
              sampleAddress sampleOwnKey _ sampleSigned [sampleSignature]
              sampleAcceptance S eq_refl)
    as [signed [F [_ [V _]]]].
  exists signed; split; [exact F | exact V].
Defined.

(** ** The request that is pushed *)

Lemma encodeRecords_None (l : list record) :
  encodeRecords l = None <-> Exists (fun m => (2 ^ 64 <= type m)%N) l.
Proof.
  induction l as [| m l IH]; cbn [encodeRecords].
  - split; [discriminate | intros E; inversion E].
  - unfold writeBigUInt64BE.
    destruct (N.ltb_spec (type m) (2 ^ 64)) as [L | G].
    + destruct (encodeRecords l).
      * split; [discriminate |].
        intros E; inversion E as [? ? W | ? ? W]; subst; [lia |].
        now apply IH in W.
      * split; [intros _; right; now apply IH | reflexivity].
    + split; [intros _; now left | reflexivity].
Qed.

(** X18. [messagesToPush] fails exactly when a type of the key type
    table does not fit in 64 bits, where [writeBigUInt64BE] throws;
    the values of the records play no part in it. *)
Theorem request_needs_types_of_64_bits
        (sha256 : list byte -> string) (types : keyTypes)
        (secret multiSigKey : string) (capacity rate : Z)
        (funding : transit) :
  messagesToPush sha256 types secret capacity rate funding multiSigKey = None
  <->
  (2 ^ 64 <= channel_capacity types)%N \/
  (2 ^ 64 <= funding_tx_fee_rate types)%N \/
  (2 ^ 64 <= multisig_public_key types)%N \/
  (2 ^ 64 <= transit_tx_id types)%N \/
  (2 ^ 64 <= transit_tx_vout types)%N.
Proof.
  unfold messagesToPush.
  set (records := requestRecords types secret capacity rate funding
                                 multiSigKey).
  assert (P : Permutation (Js.sort byType records) records)
    by apply sort_perm.
  assert (K : ~ (2 ^ 64 <= keySendPreimageType)%N)
    by (unfold keySendPreimageType; apply N.lt_nge; reflexivity).
  split.
  - destruct (encodeRecords (Js.sort byType records)) eqn:E;
      [discriminate |]; intros _.
    apply encodeRecords_None in E.
    apply (Permutation_Exists P) in E.
    unfold records, requestRecords in E.
    rewrite !Exists_cons, Exists_nil in E; cbn [type] in E; tauto.
  - intros T.
    assert (E : Exists (fun m => (2 ^ 64 <= type m)%N) records).
    { unfold records, requestRecords.
      rewrite !Exists_cons, Exists_nil; cbn [type]; tauto. }
    apply (Permutation_Exists (Permutation_sym P)), encodeRecords_None in E.
    now rewrite E.
Qed.

(** X19. The records that [pushRequest] sends are the six records of
    the digest in the order of the digest, followed by the record of
    the payment request of the acceptance invoice, which is added
    after the sort and is not under the digest; among them is the
    preimage record, and the id that the push is paid under is the
    hash of its bytes. *)
Theorem push_carries_the_preimage
        (sha256 : list byte -> string) (types : keyTypes)
        (secret multiSigKey : string) (capacity rate : Z)
        (funding : transit) (request : string) (p : pushed) :
  messagesToPush sha256 types secret capacity rate funding multiSigKey
  = Some p ->
  pushRequest_messages types p request
  = Js.sort byType
      (requestRecords types secret capacity rate funding multiSigKey)
    ++ [ {| type := accept_request types; value := utf8AsHex request |} ] /\
  In {| type := keySendPreimageType; value := secret |}
     (pushRequest_messages types p request) /\
  id p = sha256 (hexAsBuffer secret) /\
  List.length (pushRequest_messages types p request) = 7%nat /\
  exists bytes,
    encodeRecords (messages p) = Some bytes /\
    digest p = sha256 bytes /\
    digestOf sha256
      (requestRecords types secret capacity rate funding multiSigKey)
    = Some (digest p).
Proof.
  unfold messagesToPush, digestOf, pushRequest_messages.
  pose proof (sort_perm _ byType
                (requestRecords types secret capacity rate funding
                                multiSigKey)) as P.
  revert P.
  generalize (Js.sort byType
                (requestRecords types secret capacity rate funding
                                multiSigKey)).
  intros sorted P.
  destruct (encodeRecords sorted) as [bytes |] eqn:E; [| discriminate].
  intros H; injection H as <-; cbn [messages id digest].
  split; [reflexivity |].
  split.
  { apply in_or_app; left.
    apply (Permutation_in _ (Permutation_sym P)); left; reflexivity. }
  split; [reflexivity |].
  split.
  { rewrite length_app, (Permutation_length P); reflexivity. }
  exists bytes; repeat split; exact E.
Qed.

Lemma push_carries_the_preimage_witness :
  exists p,
    messagesToPush sampleHash sampleKeyTypes sampleSecret 2000000 10
                   sampleTransit sampleOwnKey = Some p /\
    id p = sampleHash (hexAsBuffer sampleSecret).
Proof.
  assert (M : exists p,
             messagesToPush sampleHash sampleKeyTypes sampleSecret 2000000 10
                            sampleTransit sampleOwnKey = Some p).
  { vm_compute; eexists; reflexivity. }
  destruct M as [p M].
  exists p; split; [exact M |].
  exact (proj1 (proj2 (proj2
    (push_carries_the_preimage sampleHash sampleKeyTypes sampleSecret
       sampleOwnKey 2000000 10 sampleTransit "lnbcrt1" p M)))).
Defined.
